(** * The traced memory image of libipt (pt_image.c)

    A shallow embedding of [pt_image.c] and of the declarations of
    [pt_image.h].  The linked list [struct pt_section_list] is a Rocq list
    (the [next] pointer is the tail), C integers are [Z] with their
    wrap-around written out, and functions that change sections thread an
    environment [env] that holds the reference and map counts of every
    section together with the outcomes of the fallible services the image
    relies on (memory allocation, mapping and unmapping of files).

    The section, mapped-section and ASID layers ([pt_section.c],
    [pt_mapped_section.h], [pt_asid.c]) are not part of the sources at hand;
    they are modelled from the specification and marked as such. *)

From stdpp Require Import gmap strings list.
From Stdlib Require Import ZArith Lia Permutation.

Local Open Scope Z_scope.

(** ** Machine integers *)

Definition u64 (x : Z) : Z := x mod 2 ^ 64.
Definition u16 (x : Z) : Z := x mod 2 ^ 16.

(** ** Error codes *)

(** [enum pt_error_code] of [intel-pt.h] is not under src/.  The spec lists
    the identifiers (Internal, Invalid, NoMem, NoMap, BadImage, BadAsid, Eos,
    NotMapped); the code only relies on the values being positive, so that
    [-pte_x] is negative, and on their being distinct. *)

(** Modelled from the spec: the error code Internal. *)
Definition pte_internal : Z := 1.

(** Modelled from the spec: the error code Invalid. *)
Definition pte_invalid : Z := 2.

(** Modelled from the spec: the error code Eos. *)
Definition pte_eos : Z := 7.

(** Modelled from the spec: the error code NoMem. *)
Definition pte_nomem : Z := 9.

(** Modelled from the spec: the error code NoMap. *)
Definition pte_nomap : Z := 13.

(** Modelled from the spec: the error code BadImage. *)
Definition pte_bad_image : Z := 17.

(** Modelled from the spec: the error code BadAsid. *)
Definition pte_bad_asid : Z := 20.

(** Modelled from the spec: the error code NotMapped. *)
Definition pte_not_mapped : Z := 21.

(** ** Address-space identifiers *)

Module PtAsid.

(** Modelled from the spec: [struct pt_asid] is not under src/.  "A pair
    (cr3, vmcs) of 64-bit quantities with a sentinel for each field." *)
Record pt_asid := { cr3 : Z; vmcs : Z }.

(** Modelled from the spec: the sentinel ("no value") of [cr3]; the spec
    does not give its value, which is taken to be the largest 64-bit
    value. *)
Definition pt_asid_no_cr3 : Z := 2 ^ 64 - 1.

(** Modelled from the spec: the sentinel ("no value") of [vmcs], likewise. *)
Definition pt_asid_no_vmcs : Z := 2 ^ 64 - 1.

(** Modelled from the spec: the fully wildcarded ASID. *)
Definition pt_asid_init : pt_asid :=
  {| cr3 := pt_asid_no_cr3; vmcs := pt_asid_no_vmcs |}.

(** Modelled from the spec: the ASID as a user hands it in, a struct that
    carries its own size.  A field the user's (shorter) struct does not have
    is [None]; [u_oversized] says that the user's struct is larger than the
    library's. *)
Record pt_asid_user :=
  { u_oversized : bool; u_cr3 : option Z; u_vmcs : option Z }.

(** Modelled from the spec: [pt_asid_from_user] is not under src/.
    "returns a fully-wildcarded asid if input is absent; else copies
    fields, filling any missing field with the sentinel.  Fails with
    BadAsid if user supplies a future/oversized struct." *)
Definition pt_asid_from_user (user : option pt_asid_user) : Z * pt_asid :=
  match user with
  | None => (0, pt_asid_init)
  | Some u =>
      if u_oversized u then (- pte_bad_asid, pt_asid_init)
      else (0, {| cr3 := default pt_asid_no_cr3 (u_cr3 u);
                  vmcs := default pt_asid_no_vmcs (u_vmcs u) |})
  end.

(** Modelled from the spec: the match of one field, "either side is the
    sentinel OR values are equal". *)
Definition field_match (sentinel l r : Z) : bool :=
  (l =? sentinel) || (r =? sentinel) || (l =? r).

(** Modelled from the spec: [pt_asid_match] is not under src/.
    "matches(a, b) -> bool | Error: true iff for each field, either side is
    the sentinel OR values are equal."  The spec does not name the error;
    the header of [pt_image_add] and [pt_image_remove], which do not test
    [asid] themselves, documents -pte_internal for a NULL [asid], and
    Internal is the spec's code for a null handle, so a missing ASID on
    either side is reported as -pte_internal.  (The remark of the spec's
    data model on a caller that asks for equality has no counterpart in this
    interface.) *)
Definition pt_asid_match (lhs rhs : option pt_asid) : Z :=
  match lhs, rhs with
  | Some l, Some r =>
      if field_match pt_asid_no_cr3 (cr3 l) (cr3 r)
         && field_match pt_asid_no_vmcs (vmcs l) (vmcs r)
      then 1 else 0
  | _, _ => - pte_internal
  end.

End PtAsid.
Export PtAsid.

(** ** Sections *)

Module PtSection.

(** Modelled from the spec: [struct pt_section] is not under src/.  A
    section handle is its identity (the pointer) together with the
    attributes that never change after creation ("immutable identity:
    filename/offset/size never mutate"). *)
Record pt_section :=
  { sec_id : positive; sec_filename : string; sec_offset : Z; sec_size : Z }.

(** Modelled from the spec: the mutable part of a section, its reference
    count and its (nesting) map count. *)
Record sec_state := { ucount : nat; mcount : nat }.

(** The environment of the image: the live sections, the next free section
    identity, the contents of the backing files and the outcomes of the
    fallible services, each consumed in call order (an exhausted list
    means success). *)
Record env :=
  { store : gmap positive sec_state;
    next_id : positive;
    alloc_fail : list bool;
    map_err : list Z;
    unmap_err : list Z;
    file_data : string -> Z -> Z }.

(** The environment with another store. *)
Definition set_store (m : gmap positive sec_state) (e : env) : env :=
  {| store := m; next_id := next_id e; alloc_fail := alloc_fail e;
     map_err := map_err e; unmap_err := unmap_err e;
     file_data := file_data e |}.

(** [malloc]: [true] when the allocation fails. *)
Definition malloc (e : env) : bool * env :=
  match alloc_fail e with
  | [] => (false, e)
  | b :: l =>
      (b, {| store := store e; next_id := next_id e; alloc_fail := l;
             map_err := map_err e; unmap_err := unmap_err e;
             file_data := file_data e |})
  end.

(** The outcome of the next mapping of a file: negative when it fails. *)
Definition next_map_err (e : env) : Z * env :=
  match map_err e with
  | [] => (0, e)
  | r :: l =>
      (r, {| store := store e; next_id := next_id e;
             alloc_fail := alloc_fail e; map_err := l;
             unmap_err := unmap_err e; file_data := file_data e |})
  end.

(** The outcome of the next unmapping of a file: negative when it fails. *)
Definition next_unmap_err (e : env) : Z * env :=
  match unmap_err e with
  | [] => (0, e)
  | r :: l =>
      (r, {| store := store e; next_id := next_id e;
             alloc_fail := alloc_fail e; map_err := map_err e;
             unmap_err := l; file_data := file_data e |})
  end.

(** Modelled from the spec: [pt_mk_section] is not under src/.
    "make(path, offset, size) -> Section: constructs with refcount 1, not
    mapped.  size == 0 is rejected."  The result is NULL ([None]) on
    rejection and when the allocation fails. *)
Definition pt_mk_section (filename : string) (offset size : Z) (e : env)
  : option pt_section * env :=
  if size =? 0 then (None, e)
  else
    let '(fail, e1) := malloc e in
    if fail then (None, e1)
    else
      let id := next_id e1 in
      (Some {| sec_id := id; sec_filename := filename;
               sec_offset := offset; sec_size := size |},
       {| store := <[id := {| ucount := 1; mcount := 0 |}]> (store e1);
          next_id := Pos.succ id; alloc_fail := alloc_fail e1;
          map_err := map_err e1; unmap_err := unmap_err e1;
          file_data := file_data e1 |}).

(** Modelled from the spec: "Metadata accessors: filename, offset, size";
    the file name of a section is never NULL. *)
Definition pt_section_filename (s : pt_section) : option string :=
  Some (sec_filename s).

(** Modelled from the spec: the accessor of the file offset. *)
Definition pt_section_offset (s : pt_section) : Z := sec_offset s.

(** Modelled from the spec: the accessor of the size. *)
Definition pt_section_size (s : pt_section) : Z := sec_size s.

(** Modelled from the spec: [pt_section_get] is not under src/.
    "shared by get() (refcount++)"; a section that was destroyed cannot be
    shared. *)
Definition pt_section_get (s : pt_section) (e : env) : Z * env :=
  match store e !! sec_id s with
  | None => (- pte_internal, e)
  | Some st =>
      (0, set_store (<[sec_id s := {| ucount := S (ucount st);
                                      mcount := mcount st |}]> (store e)) e)
  end.

(** Modelled from the spec: [pt_section_put] is not under src/.
    "released by put() (refcount--); destroyed when refcount reaches 0 -
    destruction must also release any still-held mapping." *)
Definition pt_section_put (s : pt_section) (e : env) : Z * env :=
  match store e !! sec_id s with
  | None => (- pte_internal, e)
  | Some st =>
      match ucount st with
      | O => (- pte_internal, e)
      | S O => (0, set_store (delete (sec_id s) (store e)) e)
      | S n =>
          (0, set_store (<[sec_id s := {| ucount := n;
                                          mcount := mcount st |}]> (store e)) e)
      end
  end.

(** Modelled from the spec: [pt_section_map] is not under src/.
    "map(s): idempotent per section (implementations may nest-count); on
    success byte window is readable."  Mapping a file may fail. *)
Definition pt_section_map (s : pt_section) (e : env) : Z * env :=
  match store e !! sec_id s with
  | None => (- pte_internal, e)
  | Some st =>
      let '(r, e1) := next_map_err e in
      if r <? 0 then (r, e1)
      else
        (0, set_store (<[sec_id s := {| ucount := ucount st;
                                        mcount := S (mcount st) |}]> (store e1)) e1)
  end.

(** Modelled from the spec: [pt_section_unmap] is not under src/.
    "unmap(s): inverse; may fail (I/O error) - failure is reported".  A
    section that is not mapped has nothing to unmap (NoMap). *)
Definition pt_section_unmap (s : pt_section) (e : env) : Z * env :=
  match store e !! sec_id s with
  | None => (- pte_internal, e)
  | Some st =>
      match mcount st with
      | O => (- pte_nomap, e)
      | S n =>
          let '(r, e1) := next_unmap_err e in
          if r <? 0 then (r, e1)
          else
            (0, set_store (<[sec_id s := {| ucount := ucount st;
                                            mcount := n |}]> (store e1)) e1)
      end
  end.

(** Modelled from the spec: [pt_section_clone] is not under src/.
    "clone(parent, new_offset, new_size) -> Section: new_offset >=
    parent.file_offset, new_offset + new_size <= parent.file_offset +
    parent.size"; the clone is a section of its own (refcount 1, not
    mapped) over the same file.  A range outside the parent is Internal, a
    failed construction NoMem. *)
Definition pt_section_clone (parent : pt_section) (offset size : Z) (e : env)
  : Z * option pt_section * env :=
  if (offset <? pt_section_offset parent)
     || (pt_section_offset parent + pt_section_size parent <? offset + size)
  then (- pte_internal, None, e)
  else
    match pt_mk_section (sec_filename parent) offset size e with
    | (None, e1) => (- pte_nomem, None, e1)
    | (Some clone, e1) => (0, Some clone, e1)
    end.

(** Overwrite the first bytes of [buffer] with [bytes]. *)
Definition write_buffer (bytes buffer : list Z) : list Z :=
  bytes ++ drop (length bytes) buffer.

(** Modelled from the spec: the mapped read of a section is not under src/.
    "read_mapped(s, buf, len, file_off) -> n | Error: copies up to len
    bytes from the section's [file_off, file_off+len); truncates at section
    end.  Fails with NotMapped if not currently mapped." *)
Definition pt_section_read_mapped (s : pt_section) (buffer : list Z)
    (len file_off : Z) (e : env) : Z * list Z :=
  match store e !! sec_id s with
  | None => (- pte_not_mapped, buffer)
  | Some st =>
      match mcount st with
      | O => (- pte_not_mapped, buffer)
      | S _ =>
          let n := Z.min len (sec_offset s + sec_size s - file_off) in
          let bytes :=
            List.map (fun i => file_data e (sec_filename s) (file_off + Z.of_nat i))
                     (seq 0 (Z.to_nat n)) in
          (n, write_buffer bytes buffer)
      end
  end.

End PtSection.
Export PtSection.

(** ** Mapped sections *)

Module PtMsec.

(** Modelled from the spec: [struct pt_mapped_section] is not under src/.
    "Tuple (section, asid, vaddr) where vaddr is the virtual address at
    which byte 0 of section appears." *)
Record pt_mapped_section :=
  { msec_section : pt_section; msec_asid : pt_asid; msec_vaddr : Z }.

(** Modelled from the spec: [pt_msec_init] is not under src/.
    "init(msec, section, asid, vaddr): stores fields; takes no extra
    reference."  An absent ASID is stored as the wildcard ASID, as
    [pt_asid_from_user] does for an absent input. *)
Definition pt_msec_init (section : pt_section) (asid : option pt_asid)
    (vaddr : Z) : pt_mapped_section :=
  {| msec_section := section;
     msec_asid := default pt_asid_init asid;
     msec_vaddr := vaddr |}.

(** Modelled from the spec: the accessor of the ASID of a mapped section
    (a pointer to it, never NULL). *)
Definition pt_msec_asid (msec : pt_mapped_section) : option pt_asid :=
  Some (msec_asid msec).

(** Modelled from the spec: "begin = vaddr". *)
Definition pt_msec_begin (msec : pt_mapped_section) : Z := msec_vaddr msec.

(** Modelled from the spec: "end = vaddr + section.size". *)
Definition pt_msec_end (msec : pt_mapped_section) : Z :=
  msec_vaddr msec + pt_section_size (msec_section msec).

(** Modelled from the spec: "matches_asid(msec, asid) -> bool | Error:
    delegates to ASID match." *)
Definition pt_msec_matches_asid (msec : pt_mapped_section)
    (asid : option pt_asid) : Z :=
  pt_asid_match (Some (msec_asid msec)) asid.

(** Modelled from the spec: [pt_msec_read_mapped] is not under src/.
    "requires matches_asid true and begin <= addr < end; else NoMap.
    Returns up to min(len, end - addr) bytes copied from the underlying
    section at file offset section.file_offset + (addr - begin).  Fails
    with NotMapped if underlying section is not mapped." *)
Definition pt_msec_read_mapped (msec : pt_mapped_section) (buffer : list Z)
    (size : Z) (asid : option pt_asid) (addr : Z) (e : env) : Z * list Z :=
  let status := pt_msec_matches_asid msec asid in
  if status <? 0 then (status, buffer)
  else if status =? 0 then (- pte_nomap, buffer)
  else if (addr <? pt_msec_begin msec) || (pt_msec_end msec <=? addr)
  then (- pte_nomap, buffer)
  else
    pt_section_read_mapped (msec_section msec) buffer size
      (pt_section_offset (msec_section msec) + (addr - pt_msec_begin msec)) e.

End PtMsec.
Export PtMsec.

(** ** The image: pt_image.h *)

(** [struct pt_section_list]: one element of the list; the [next] pointer is
    the tail of the Rocq list that holds the element. *)
Record pt_section_list :=
  { sl_section : pt_mapped_section; sl_mapped : bool }.

(** [read_memory_callback_t]: called with the buffer, the size, the ASID, the
    address and the context; yields its result and the buffer as it has
    written it. *)
Definition read_memory_callback_t : Type :=
  list Z -> Z -> option pt_asid -> Z -> Z -> Z * list Z.

(** [struct pt_image]. *)
Record pt_image :=
  { img_name : option string;
    img_sections : list pt_section_list;
    img_callback : option read_memory_callback_t;
    img_context : Z;
    img_cache : Z;
    img_mapped : Z }.

Definition set_sections (l : list pt_section_list) (image : pt_image)
  : pt_image :=
  {| img_name := img_name image; img_sections := l;
     img_callback := img_callback image; img_context := img_context image;
     img_cache := img_cache image; img_mapped := img_mapped image |}.

Definition set_mapped (m : Z) (image : pt_image) : pt_image :=
  {| img_name := img_name image; img_sections := img_sections image;
     img_callback := img_callback image; img_context := img_context image;
     img_cache := img_cache image; img_mapped := m |}.

(** The element [x] with its [mapped] bit cleared. *)
Definition unmapped (x : pt_section_list) : pt_section_list :=
  {| sl_section := sl_section x; sl_mapped := false |}.

(** The number of elements whose [mapped] bit is set. *)
Definition count_mapped (l : list pt_section_list) : Z :=
  Z.of_nat (length (List.filter sl_mapped l)).

(** ** pt_image.c *)

Definition dupstr (str : option string) (e : env) : option string * env :=
  match str with
  | None => (None, e)
  | Some s =>
      let '(fail, e1) := malloc e in
      if fail then (None, e1) else (Some s, e1)
  end.

Definition pt_mk_section_list (section : pt_section) (asid : option pt_asid)
    (vaddr : Z) (e : env) : option pt_section_list * env :=
  let '(fail, e1) := malloc e in
  if fail then (None, e1)
  else
    let '(errcode, e2) := pt_section_get section e1 in
    if errcode <? 0 then (None, e2)
    else
      (Some {| sl_section := pt_msec_init section asid vaddr;
               sl_mapped := false |}, e2).

Definition pt_section_list_free (elem : pt_section_list) (e : env) : env :=
  let e1 :=
    if sl_mapped elem
    then snd (pt_section_unmap (msec_section (sl_section elem)) e)
    else e in
  snd (pt_section_put (msec_section (sl_section elem)) e1).

Fixpoint pt_section_list_free_tail (lst : list pt_section_list) (e : env)
  : env :=
  match lst with
  | [] => e
  | trash :: lst' =>
      pt_section_list_free_tail lst' (pt_section_list_free trash e)
  end.

Definition pt_image_init (name : option string) (e : env) : pt_image * env :=
  let '(name', e1) := dupstr name e in
  ({| img_name := name'; img_sections := [];
      img_callback := None; img_context := 0;
      img_cache := 10; img_mapped := 0 |}, e1).

Definition pt_image_fini (image : pt_image) (e : env) : pt_image * env :=
  ({| img_name := None; img_sections := [];
      img_callback := None; img_context := 0;
      img_cache := 0; img_mapped := 0 |},
   pt_section_list_free_tail (img_sections image) e).

Definition pt_image_alloc (name : option string) (e : env)
  : option pt_image * env :=
  let '(fail, e1) := malloc e in
  if fail then (None, e1)
  else
    let '(image, e2) := pt_image_init name e1 in
    (Some image, e2).

Definition pt_image_free (image : option pt_image) (e : env) : env :=
  match image with
  | None => e
  | Some img => snd (pt_image_fini img e)
  end.

Definition pt_image_name (image : option pt_image) : option string :=
  match image with
  | None => None
  | Some image => img_name image
  end.

(** [pt_image_clone]: [lst] is the list the new element is pushed on. *)
Definition pt_image_clone (lst : list pt_section_list)
    (msec : pt_mapped_section) (begin end_ : Z) (e : env)
  : Z * list pt_section_list * env :=
  let sec := msec_section msec in
  let mbegin := u64 (pt_msec_begin msec) in
  let sbegin := u64 (pt_section_offset sec) in
  if end_ <=? begin then (- pte_internal, lst, e)
  else if begin <? mbegin then (- pte_internal, lst, e)
  else
    let offset := u64 (begin - mbegin) in
    let size := u64 (end_ - begin) in
    let '(errcode, section, e1) :=
      pt_section_clone sec (u64 (sbegin + offset)) size e in
    if errcode <? 0 then (errcode, lst, e1)
    else
      match section with
      | None => (- pte_internal, lst, e1)
      | Some section =>
          match pt_mk_section_list section (pt_msec_asid msec) begin e1 with
          | (None, e2) =>
              (- pte_nomem, lst, snd (pt_section_put section e2))
          | (Some next, e2) =>
              (* The image list got its own reference; let's drop ours. *)
              let '(errcode, e3) := pt_section_put section e2 in
              if errcode <? 0
              then (errcode, lst, pt_section_list_free next e3)
              else (0, next :: lst, e3)
          end
      end.

(** The state of the walk of [pt_image_add] when its loop is left: the value
    of [errcode], the elements before the cursor [list], the elements from the
    cursor on, and the lists [next] and [removed]. *)
Record add_state :=
  { as_errcode : Z;
    as_kept : list pt_section_list;
    as_rest : list pt_section_list;
    as_next : list pt_section_list;
    as_removed : list pt_section_list;
    as_env : env }.

(** How the loop of [pt_image_add] is left: by the [return 0] of the
    identical overlap, or by [break] and the end of the list. *)
Inductive add_exit :=
| AddReturn (r : Z) (sections : list pt_section_list) (e : env)
| AddLeave (st : add_state).

(** What [pt_image_add] does with an element that overlaps the new section:
    drop the new section (the identical overlap), fail, or replace the
    element. *)
Inductive overlap := Dedup | Fail (errcode : Z) | Replace.

(** The loop of [pt_image_add].  The list of the image is [kept ++ rest]
    throughout: [kept] are the elements the cursor has passed, [rest] those
    from [*list] on. *)
Fixpoint pt_image_add_loop (section : pt_section) (asid : option pt_asid)
    (begin end_ : Z) (errcode : Z)
    (kept rest next removed : list pt_section_list) (e : env) : add_exit :=
  match rest with
  | [] =>
      AddLeave {| as_errcode := errcode; as_kept := kept; as_rest := [];
                  as_next := next; as_removed := removed; as_env := e |}
  | current :: tl =>
      let msec := sl_section current in
      let errcode := pt_msec_matches_asid msec asid in
      if errcode <? 0 then
        AddLeave {| as_errcode := errcode; as_kept := kept; as_rest := rest;
                    as_next := next; as_removed := removed; as_env := e |}
      else if errcode =? 0 then
        pt_image_add_loop section asid begin end_ errcode
          (kept ++ [current]) tl next removed e
      else
        let lbegin := u64 (pt_msec_begin msec) in
        let lend := u64 (pt_msec_end msec) in
        if (end_ <=? lbegin) || (lend <=? begin) then
          pt_image_add_loop section asid begin end_ errcode
            (kept ++ [current]) tl next removed e
        else
          (* The new section overlaps with @msec->section. *)
          let lsec := msec_section msec in
          let identical :=
            if (begin =? lbegin) && (end_ =? lend) then
              match pt_section_filename section, pt_section_filename lsec with
              | Some fname, Some lfname =>
                  if String.eqb fname lfname then
                    (* There should not have been any removals or
                       additions. *)
                    match removed, next with
                    | [], [_] => Dedup
                    | _, _ => Fail (- pte_internal)
                    end
                  else Replace
              | _, _ => Fail (- pte_internal)
              end
            else Replace in
          match identical with
          | Dedup =>
              AddReturn 0 (kept ++ rest)
                (match next with
                 | n :: _ => pt_section_list_free n e
                 | [] => e
                 end)
          | Fail errcode =>
              AddLeave {| as_errcode := errcode; as_kept := kept;
                          as_rest := rest; as_next := next;
                          as_removed := removed; as_env := e |}
          | Replace =>
              (* We remove @msec and keep it on the list of removed sections;
                 it is unmapped. *)
              let removed := unmapped current :: removed in
              let e :=
                if sl_mapped current then snd (pt_section_unmap lsec e) else e in
              (* Add a section covering the remaining bytes at the front. *)
              let '(errcode, next, e) :=
                if lbegin <? begin
                then pt_image_clone next msec lbegin begin e
                else (errcode, next, e) in
              if errcode <? 0 then
                AddLeave {| as_errcode := errcode; as_kept := kept;
                            as_rest := tl; as_next := next;
                            as_removed := removed; as_env := e |}
              else
                (* Add a section covering the remaining bytes at the back. *)
                let '(errcode, next, e) :=
                  if end_ <? lend
                  then pt_image_clone next msec end_ lend e
                  else (errcode, next, e) in
                if errcode <? 0 then
                  AddLeave {| as_errcode := errcode; as_kept := kept;
                              as_rest := tl; as_next := next;
                              as_removed := removed; as_env := e |}
                else
                  pt_image_add_loop section asid begin end_ errcode
                    kept tl next removed e
          end
  end.

Definition pt_image_add (image : option pt_image) (section : option pt_section)
    (asid : option pt_asid) (vaddr : Z) (e : env)
  : Z * option pt_image * env :=
  match image, section with
  | Some img, Some sec =>
      match pt_mk_section_list sec asid vaddr e with
      | (None, e1) => (- pte_nomem, image, e1)
      | (Some next, e1) =>
          let begin := vaddr in
          let end_ := u64 (begin + pt_section_size sec) in
          (* Check for overlaps while we move to the end of the list. *)
          match pt_image_add_loop sec asid begin end_ 0
                  [] (img_sections img) [next] [] e1 with
          | AddReturn r l e2 => (r, Some (set_sections l img), e2)
          | AddLeave st =>
              if as_errcode st <? 0 then
                (* Re-add removed sections to the tail of the section list. *)
                (as_errcode st,
                 Some (set_sections
                         (as_kept st ++ as_rest st ++ as_removed st) img),
                 pt_section_list_free_tail (as_next st) (as_env st))
              else
                (0,
                 Some (set_sections (as_kept st ++ as_next st) img),
                 pt_section_list_free_tail (as_removed st) (as_env st))
          end
      end
  | _, _ => (- pte_internal, image, e)
  end.

(** The pointer comparison [msec->section == section]. *)
Definition same_section (a b : pt_section) : bool :=
  Pos.eqb (sec_id a) (sec_id b).

Fixpoint pt_image_remove_loop (section : pt_section) (asid : option pt_asid)
    (vaddr : Z) (kept rest : list pt_section_list) (e : env)
  : Z * list pt_section_list * env :=
  match rest with
  | [] => (- pte_bad_image, kept, e)
  | trash :: tl =>
      let msec := sl_section trash in
      let errcode := pt_msec_matches_asid msec asid in
      if errcode <? 0 then (errcode, kept ++ rest, e)
      else if errcode =? 0 then
        pt_image_remove_loop section asid vaddr (kept ++ [trash]) tl e
      else if same_section (msec_section msec) section
              && (msec_vaddr msec =? vaddr)
      then (0, kept ++ tl, pt_section_list_free trash e)
      else pt_image_remove_loop section asid vaddr (kept ++ [trash]) tl e
  end.

Definition pt_image_remove (image : option pt_image)
    (section : option pt_section) (asid : option pt_asid) (vaddr : Z) (e : env)
  : Z * option pt_image * env :=
  match image, section with
  | Some img, Some sec =>
      let '(r, l, e1) :=
        pt_image_remove_loop sec asid vaddr [] (img_sections img) e in
      (r, Some (set_sections l img), e1)
  | _, _ => (- pte_internal, image, e)
  end.

Definition pt_image_add_file (image : option pt_image)
    (filename : option string) (offset size : Z)
    (uasid : option pt_asid_user) (vaddr : Z) (e : env)
  : Z * option pt_image * env :=
  match image, filename with
  | Some _, Some fname =>
      let '(errcode, asid) := pt_asid_from_user uasid in
      if errcode <? 0 then (errcode, image, e)
      else
        match pt_mk_section fname offset size e with
        | (None, e1) => (- pte_invalid, image, e1)
        | (Some section, e1) =>
            let '(errcode, image1, e2) :=
              pt_image_add image (Some section) (Some asid) vaddr e1 in
            if errcode <? 0
            then (errcode, image1, snd (pt_section_put section e2))
            else
              (* The image list got its own reference; let's drop ours. *)
              let '(errcode, e3) := pt_section_put section e2 in
              if errcode <? 0 then (errcode, image1, e3)
              else (0, image1, e3)
        end
  | _, _ => (- pte_invalid, image, e)
  end.

(** The loop of [pt_image_copy] when [src] is another image than [image]:
    the elements of [src] are its own, and the calls of [pt_image_add] on
    [image] leave its list alone. *)
Fixpoint pt_image_copy_loop (image : option pt_image)
    (src : list pt_section_list) (ignored : Z) (e : env)
  : Z * option pt_image * env :=
  match src with
  | [] => (ignored, image, e)
  | x :: tl =>
      let '(errcode, image1, e1) :=
        pt_image_add image (Some (msec_section (sl_section x)))
          (Some (msec_asid (sl_section x))) (msec_vaddr (sl_section x)) e in
      pt_image_copy_loop image1 tl
        (if errcode <? 0 then ignored + 1 else ignored) e1
  end.

(** *** pt_image_copy when [src] is [image] itself

    The loop of [pt_image_copy] then walks the very list that its calls of
    [pt_image_add] change.  Where the cursor [list] of [pt_image_copy]
    stands after a call is a matter of which element it points at, not of
    the values in the list: the elements are therefore paired with a flag
    that is set for the one element [list] points at, and [pt_image_add] is
    followed on the flagged list. *)
Definition marked : Type := bool * pt_section_list.

Definition unmark (l : list marked) : list pt_section_list := List.map snd l.

(** [pt_image_clone] on a flagged list: the new element is pushed on [lst];
    [list] does not point at it. *)
Definition pt_image_clone_at (lst : list marked) (msec : pt_mapped_section)
    (begin end_ : Z) (e : env) : Z * list marked * env :=
  let '(errcode, l, e1) := pt_image_clone [] msec begin end_ e in
  (errcode, List.map (pair false) l ++ lst, e1).

Record add_state_at :=
  { at_errcode : Z;
    at_kept : list marked;
    at_rest : list marked;
    at_next : list marked;
    at_removed : list marked;
    at_env : env }.

Inductive add_exit_at :=
| AddReturnAt (r : Z) (sections : list marked) (e : env)
| AddLeaveAt (st : add_state_at).

(** The loop of [pt_image_add] on a flagged list: an element keeps its flag
    when the cursor passes it and when it is moved to [removed]. *)
Fixpoint pt_image_add_loop_at (section : pt_section) (asid : option pt_asid)
    (begin end_ : Z) (errcode : Z)
    (kept rest next removed : list marked) (e : env) : add_exit_at :=
  match rest with
  | [] =>
      AddLeaveAt {| at_errcode := errcode; at_kept := kept; at_rest := [];
                    at_next := next; at_removed := removed; at_env := e |}
  | (mark, current) :: tl =>
      let msec := sl_section current in
      let errcode := pt_msec_matches_asid msec asid in
      if errcode <? 0 then
        AddLeaveAt {| at_errcode := errcode; at_kept := kept; at_rest := rest;
                      at_next := next; at_removed := removed; at_env := e |}
      else if errcode =? 0 then
        pt_image_add_loop_at section asid begin end_ errcode
          (kept ++ [(mark, current)]) tl next removed e
      else
        let lbegin := u64 (pt_msec_begin msec) in
        let lend := u64 (pt_msec_end msec) in
        if (end_ <=? lbegin) || (lend <=? begin) then
          pt_image_add_loop_at section asid begin end_ errcode
            (kept ++ [(mark, current)]) tl next removed e
        else
          (* The new section overlaps with @msec->section. *)
          let lsec := msec_section msec in
          let identical :=
            if (begin =? lbegin) && (end_ =? lend) then
              match pt_section_filename section, pt_section_filename lsec with
              | Some fname, Some lfname =>
                  if String.eqb fname lfname then
                    (* There should not have been any removals or
                       additions. *)
                    match removed, next with
                    | [], [_] => Dedup
                    | _, _ => Fail (- pte_internal)
                    end
                  else Replace
              | _, _ => Fail (- pte_internal)
              end
            else Replace in
          match identical with
          | Dedup =>
              AddReturnAt 0 (kept ++ rest)
                (match next with
                 | n :: _ => pt_section_list_free (snd n) e
                 | [] => e
                 end)
          | Fail errcode =>
              AddLeaveAt {| at_errcode := errcode; at_kept := kept;
                            at_rest := rest; at_next := next;
                            at_removed := removed; at_env := e |}
          | Replace =>
              (* We remove @msec and keep it on the list of removed sections;
                 it is unmapped. *)
              let removed := (mark, unmapped current) :: removed in
              let e :=
                if sl_mapped current then snd (pt_section_unmap lsec e) else e in
              (* Add a section covering the remaining bytes at the front. *)
              let '(errcode, next, e) :=
                if lbegin <? begin
                then pt_image_clone_at next msec lbegin begin e
                else (errcode, next, e) in
              if errcode <? 0 then
                AddLeaveAt {| at_errcode := errcode; at_kept := kept;
                              at_rest := tl; at_next := next;
                              at_removed := removed; at_env := e |}
              else
                (* Add a section covering the remaining bytes at the back. *)
                let '(errcode, next, e) :=
                  if end_ <? lend
                  then pt_image_clone_at next msec end_ lend e
                  else (errcode, next, e) in
                if errcode <? 0 then
                  AddLeaveAt {| at_errcode := errcode; at_kept := kept;
                                at_rest := tl; at_next := next;
                                at_removed := removed; at_env := e |}
                else
                  pt_image_add_loop_at section asid begin end_ errcode
                    kept tl next removed e
          end
  end.

(** [pt_image_add] on the flagged list [sections] of an image, for a
    section and an image that are not NULL: the elements that are removed
    for good are freed and no longer in the list. *)
Definition pt_image_add_at (sections : list marked) (section : pt_section)
    (asid : option pt_asid) (vaddr : Z) (e : env)
  : Z * list marked * env :=
  match pt_mk_section_list section asid vaddr e with
  | (None, e1) => (- pte_nomem, sections, e1)
  | (Some next, e1) =>
      let begin := vaddr in
      let end_ := u64 (begin + pt_section_size section) in
      match pt_image_add_loop_at section asid begin end_ 0
              [] sections [(false, next)] [] e1 with
      | AddReturnAt r l e2 => (r, l, e2)
      | AddLeaveAt st =>
          if at_errcode st <? 0 then
            (at_errcode st,
             at_kept st ++ at_rest st ++ at_removed st,
             pt_section_list_free_tail (unmark (at_next st)) (at_env st))
          else
            (0,
             at_kept st ++ at_next st,
             pt_section_list_free_tail (unmark (at_removed st)) (at_env st))
      end
  end.

(** [list = src->sections]: the cursor points at the first element. *)
Definition cursor_first (l : list pt_section_list) : list marked :=
  match l with
  | [] => []
  | x :: tl => (true, x) :: List.map (pair false) tl
  end.

(** [*list]: the element the cursor points at; [None] when it points at no
    element of the list. *)
Fixpoint cursor (l : list marked) : option pt_section_list :=
  match l with
  | [] => None
  | (true, x) :: _ => Some x
  | (false, _) :: tl => cursor tl
  end.

(** [list = list->next]: the cursor moves to the next element, or to no
    element after the last one.  The result is [None] when the cursor points
    at no element of the list. *)
Fixpoint cursor_next (l : list marked) : option (list marked) :=
  match l with
  | [] => None
  | (true, x) :: tl =>
      Some ((false, x) :: match tl with
                          | [] => []
                          | (_, y) :: tl' => (true, y) :: tl'
                          end)
  | (false, x) :: tl => option_map (cons (false, x)) (cursor_next tl)
  end.

(** The [src] argument of [pt_image_copy]: NULL, the image [image] itself, or
    another image. *)
Inductive copy_src :=
| SrcNull
| SrcSame
| SrcOther (src : pt_image).

(** What [pt_image_copy] does: it returns; it is still in its loop when the
    fuel is used up; or it reads [list->next] of an element that
    [pt_image_add] has freed, which is undefined. *)
Inductive copy_result :=
| CopyReturn (r : Z) (image : option pt_image) (e : env)
| CopyRunning
| CopyUndefined.

(** The loop of [pt_image_copy] when [src] is [image]: [sections] is the list
    of the image with the cursor [list]. *)
Fixpoint pt_image_copy_self_loop (fuel : nat) (image : pt_image)
    (sections : list marked) (ignored : Z) (e : env) : copy_result :=
  match cursor sections with
  | None => CopyReturn ignored (Some (set_sections (unmark sections) image)) e
  | Some x =>
      match fuel with
      | O => CopyRunning
      | S fuel' =>
          let '(errcode, sections1, e1) :=
            pt_image_add_at sections (msec_section (sl_section x))
              (Some (msec_asid (sl_section x))) (msec_vaddr (sl_section x)) e in
          let ignored := if errcode <? 0 then ignored + 1 else ignored in
          match cursor_next sections1 with
          | None => CopyUndefined
          | Some sections2 =>
              pt_image_copy_self_loop fuel' image sections2 ignored e1
          end
      end
  end.

Definition pt_image_copy (fuel : nat) (image : option pt_image)
    (src : copy_src) (e : env) : copy_result :=
  match image, src with
  | Some img, SrcOther s =>
      let '(r, image1, e1) :=
        pt_image_copy_loop image (img_sections s) 0 e in
      CopyReturn r image1 e1
  | Some img, SrcSame =>
      pt_image_copy_self_loop fuel img (cursor_first (img_sections img)) 0 e
  | _, _ => CopyReturn (- pte_invalid) image e
  end.

Definition pt_image_set_callback (image : option pt_image)
    (callback : option read_memory_callback_t) (context : Z)
  : Z * option pt_image :=
  match image with
  | None => (- pte_invalid, None)
  | Some img =>
      (0, Some {| img_name := img_name img; img_sections := img_sections img;
                  img_callback := callback; img_context := context;
                  img_cache := img_cache img; img_mapped := img_mapped img |})
  end.

Fixpoint pt_image_remove_by_filename_loop (filename : string) (asid : pt_asid)
    (removed : Z) (kept rest : list pt_section_list) (e : env)
  : Z * list pt_section_list * env :=
  match rest with
  | [] => (removed, kept, e)
  | trash :: tl =>
      let msec := sl_section trash in
      let errcode := pt_msec_matches_asid msec (Some asid) in
      if errcode <? 0 then (errcode, kept ++ rest, e)
      else if errcode =? 0 then
        pt_image_remove_by_filename_loop filename asid removed
          (kept ++ [trash]) tl e
      else
        match pt_section_filename (msec_section msec) with
        | Some tname =>
            if String.eqb tname filename then
              pt_image_remove_by_filename_loop filename asid (removed + 1)
                kept tl (pt_section_list_free trash e)
            else
              pt_image_remove_by_filename_loop filename asid removed
                (kept ++ [trash]) tl e
        | None =>
            pt_image_remove_by_filename_loop filename asid removed
              (kept ++ [trash]) tl e
        end
  end.

Definition pt_image_remove_by_filename (image : option pt_image)
    (filename : option string) (uasid : option pt_asid_user) (e : env)
  : Z * option pt_image * env :=
  match image, filename with
  | Some img, Some fname =>
      let '(errcode, asid) := pt_asid_from_user uasid in
      if errcode <? 0 then (errcode, image, e)
      else
        let '(r, l, e1) :=
          pt_image_remove_by_filename_loop fname asid 0
            [] (img_sections img) e in
        (r, Some (set_sections l img), e1)
  | _, _ => (- pte_invalid, image, e)
  end.

Fixpoint pt_image_remove_by_asid_loop (asid : pt_asid) (removed : Z)
    (kept rest : list pt_section_list) (e : env)
  : Z * list pt_section_list * env :=
  match rest with
  | [] => (removed, kept, e)
  | trash :: tl =>
      let msec := sl_section trash in
      let errcode := pt_msec_matches_asid msec (Some asid) in
      if errcode <? 0 then (errcode, kept ++ rest, e)
      else if errcode =? 0 then
        pt_image_remove_by_asid_loop asid removed (kept ++ [trash]) tl e
      else
        pt_image_remove_by_asid_loop asid (removed + 1) kept tl
          (pt_section_list_free trash e)
  end.

Definition pt_image_remove_by_asid (image : option pt_image)
    (uasid : option pt_asid_user) (e : env) : Z * option pt_image * env :=
  match image with
  | Some img =>
      let '(errcode, asid) := pt_asid_from_user uasid in
      if errcode <? 0 then (errcode, image, e)
      else
        let '(r, l, e1) :=
          pt_image_remove_by_asid_loop asid 0 [] (img_sections img) e in
        (r, Some (set_sections l img), e1)
  | None => (- pte_invalid, image, e)
  end.

(** The loop of [pt_image_prune_cache]: [done] are the elements already
    visited, with the [mapped] bits the loop has left them. *)
Fixpoint pt_image_prune_cache_loop (cache mapped status : Z)
    (done rest : list pt_section_list) (e : env)
  : list pt_section_list * Z * Z * env :=
  match rest with
  | [] => (done, mapped, status, e)
  | x :: tl =>
      (* Let's traverse the entire list. *)
      if negb (sl_mapped x) then
        pt_image_prune_cache_loop cache mapped status (done ++ [x]) tl e
      else
        let mapped := u16 (mapped + 1) in
        if mapped <=? cache then
          pt_image_prune_cache_loop cache mapped status (done ++ [x]) tl e
        else
          let '(errcode, e1) :=
            pt_section_unmap (msec_section (sl_section x)) e in
          if errcode <? 0 then
            pt_image_prune_cache_loop cache mapped errcode (done ++ [x]) tl e1
          else
            pt_image_prune_cache_loop cache (u16 (mapped - 1)) status
              (done ++ [unmapped x]) tl e1
  end.

Definition pt_image_prune_cache (image : option pt_image) (e : env)
  : Z * option pt_image * env :=
  match image with
  | None => (- pte_internal, None, e)
  | Some img =>
      let '(l, mapped, status, e1) :=
        pt_image_prune_cache_loop (img_cache img) 0 0 [] (img_sections img) e in
      (status, Some (set_mapped mapped (set_sections l img)), e1)
  end.

Definition pt_image_read_callback (image : option pt_image) (buffer : list Z)
    (size : Z) (asid : option pt_asid) (addr : Z) : Z * list Z :=
  match image with
  | None => (- pte_internal, buffer)
  | Some img =>
      match img_callback img with
      | None => (- pte_nomap, buffer)
      | Some callback => callback buffer size asid addr (img_context img)
      end
  end.

(** The element [x] with its [mapped] bit set. *)
Definition mark_mapped (x : pt_section_list) : pt_section_list :=
  {| sl_section := sl_section x; sl_mapped := true |}.

(** The loop of [pt_image_read_cold]; the cursor [list] stands between
    [before] and [rest]. *)
Fixpoint pt_image_read_cold_loop (image : pt_image)
    (before rest : list pt_section_list) (buffer : list Z) (size : Z)
    (asid : option pt_asid) (addr : Z) (e : env)
  : Z * pt_image * list Z * env :=
  match rest with
  | [] =>
      let '(r, buffer1) :=
        pt_image_read_callback (Some image) buffer size asid addr in
      (r, image, buffer1, e)
  | elem :: tl =>
      let msec := sl_section elem in
      let sec := msec_section msec in
      let mapped := sl_mapped elem in
      let '(errcode, e1) :=
        if negb mapped then pt_section_map sec e else (0, e) in
      if errcode <? 0 then (errcode, image, buffer, e1)
      else
        let '(status, buffer1) :=
          pt_msec_read_mapped msec buffer size asid addr e1 in
        if status <? 0 then
          let '(errcode, e2) :=
            if negb mapped then pt_section_unmap sec e1 else (0, e1) in
          if errcode <? 0 then (errcode, image, buffer1, e2)
          else
            pt_image_read_cold_loop image (before ++ [elem]) tl
              buffer1 size asid addr e2
        else
          (* Move the section to the front if it isn't already. *)
          let front (x : pt_section_list) :=
            match before with
            | [] => x :: tl
            | _ => x :: before ++ tl
            end in
          (* Keep the section mapped if it isn't already - provided we
             do cache recently used sections. *)
          if negb mapped then
            let already := img_mapped image in
            let cache := img_cache image in
            if negb (cache =? 0) then
              let already := u16 (already + 1) in
              let image1 :=
                set_mapped already (set_sections (front (mark_mapped elem)) image) in
              if cache <? already then
                match pt_image_prune_cache (Some image1) e1 with
                | (errcode, Some image2, e2) =>
                    if errcode <? 0 then (errcode, image2, buffer1, e2)
                    else (status, image2, buffer1, e2)
                | (errcode, None, e2) => (errcode, image1, buffer1, e2)
                end
              else (status, image1, buffer1, e1)
            else
              let '(errcode, e2) := pt_section_unmap sec e1 in
              if errcode <? 0
              then (errcode, set_sections (front elem) image, buffer1, e2)
              else (status, set_sections (front elem) image, buffer1, e2)
          else (status, set_sections (front elem) image, buffer1, e1)
  end.

Definition pt_image_read_cold (image : option pt_image)
    (before rest : list pt_section_list) (buffer : list Z) (size : Z)
    (asid : option pt_asid) (addr : Z) (e : env)
  : Z * option pt_image * list Z * env :=
  match image with
  | None => (- pte_internal, None, buffer, e)
  | Some img =>
      let '(r, img1, buffer1, e1) :=
        pt_image_read_cold_loop img before rest buffer size asid addr e in
      (r, Some img1, buffer1, e1)
  end.

(** The loop of [pt_image_read] over the mapped elements at the head of the
    list. *)
Fixpoint pt_image_read_loop (image : pt_image)
    (before rest : list pt_section_list) (buffer : list Z) (size : Z)
    (asid : option pt_asid) (addr : Z) (e : env)
  : Z * option pt_image * list Z * env :=
  match rest with
  | [] => pt_image_read_cold (Some image) before rest buffer size asid addr e
  | elem :: tl =>
      if negb (sl_mapped elem) then
        pt_image_read_cold (Some image) before rest buffer size asid addr e
      else
        let '(status, buffer1) :=
          pt_msec_read_mapped (sl_section elem) buffer size asid addr e in
        if status <? 0 then
          pt_image_read_loop image (before ++ [elem]) tl
            buffer1 size asid addr e
        else
          (* Move the section to the front if it isn't already. *)
          (status,
           Some (set_sections
                   (match before with
                    | [] => elem :: tl
                    | _ => elem :: before ++ tl
                    end) image),
           buffer1, e)
  end.

Definition pt_image_read (image : option pt_image) (buffer : list Z)
    (size : Z) (asid : option pt_asid) (addr : Z) (e : env)
  : Z * option pt_image * list Z * env :=
  match image, asid with
  | Some img, Some _ =>
      pt_image_read_loop img [] (img_sections img) buffer size asid addr e
  | _, _ => (- pte_internal, image, buffer, e)
  end.

(** * Notions used in the statements *)

(** The test of [pt_image_remove] on one element: the ASID matches, the
    section is the given one and it is mapped at [vaddr]. *)
Definition remove_hit (section : pt_section) (asid : pt_asid) (vaddr : Z)
    (x : pt_section_list) : bool :=
  (0 <? pt_msec_matches_asid (sl_section x) (Some asid))
  && same_section (msec_section (sl_section x)) section
  && (msec_vaddr (sl_section x) =? vaddr).

(** The results of the calls of [pt_section_unmap] that the loop of
    [pt_image_prune_cache] makes, in call order. *)
Fixpoint prune_unmap_results (cache mapped : Z) (rest : list pt_section_list)
    (e : env) : list Z :=
  match rest with
  | [] => []
  | x :: tl =>
      if negb (sl_mapped x) then prune_unmap_results cache mapped tl e
      else
        let mapped := u16 (mapped + 1) in
        if mapped <=? cache then prune_unmap_results cache mapped tl e
        else
          let '(errcode, e1) :=
            pt_section_unmap (msec_section (sl_section x)) e in
          errcode ::
            (if errcode <? 0 then prune_unmap_results cache mapped tl e1
             else prune_unmap_results cache (u16 (mapped - 1)) tl e1)
  end.

(** The errors among a list of results. *)
Definition errors (results : list Z) : list Z :=
  List.filter (fun r => r <? 0) results.

(** The walk of [pt_image_add] passes over an element when its ASID does not
    match or when it does not overlap the new range [begin, end). *)
Definition passes (asid : option pt_asid) (begin end_ : Z)
    (x : pt_section_list) : bool :=
  let errcode := pt_msec_matches_asid (sl_section x) asid in
  (errcode =? 0)
  || ((0 <? errcode)
      && ((end_ <=? u64 (pt_msec_begin (sl_section x)))
          || (u64 (pt_msec_end (sl_section x)) <=? begin))).

(** The element matches the ASID and overlaps the new range: the walk does
    not pass over it. *)
Definition overlaps (asid : option pt_asid) (begin end_ : Z)
    (x : pt_section_list) : bool :=
  negb (passes asid begin end_ x).

(** The identical overlap: the element matches the ASID, covers exactly the
    new range and its section has the file name of the new section. *)
Definition identical (section : pt_section) (asid : option pt_asid)
    (begin end_ : Z) (x : pt_section_list) : bool :=
  (0 <? pt_msec_matches_asid (sl_section x) asid)
  && negb ((end_ <=? u64 (pt_msec_begin (sl_section x)))
           || (u64 (pt_msec_end (sl_section x)) <=? begin))
  && (begin =? u64 (pt_msec_begin (sl_section x)))
  && (end_ =? u64 (pt_msec_end (sl_section x)))
  && String.eqb (sec_filename section)
                (sec_filename (msec_section (sl_section x))).

(** The list of an image after a failed [pt_image_add]: the walk got through
    the part [pre] of the list; the elements of [pre] that overlap the new
    range were taken out, unmapped, and are back at the tail in reverse
    order. *)
Definition rolled_back (asid : option pt_asid) (begin end_ : Z)
    (before after : list pt_section_list) : Prop :=
  exists pre post,
    before = pre ++ post
    /\ after = List.filter (passes asid begin end_) pre ++ post
               ++ rev (List.map unmapped
                         (List.filter (overlaps asid begin end_) pre)).

(** What [pt_image_clone] pushes for the part [begin, end) of [msec]. *)
Definition clone_of (msec : pt_mapped_section) (begin end_ : Z)
    (c : pt_section_list) : Prop :=
  sl_mapped c = false
  /\ msec_asid (sl_section c) = msec_asid msec
  /\ msec_vaddr (sl_section c) = begin
  /\ sec_size (msec_section (sl_section c)) = u64 (end_ - begin)
  /\ sec_filename (msec_section (sl_section c))
     = sec_filename (msec_section msec).

(** A section that can be shared: it is in the store with a reference. *)
Definition live (e : env) (s : pt_section) : Prop :=
  exists st, store e !! sec_id s = Some st /\ (0 < ucount st)%nat.

(** ** Concrete states used by the examples *)

(** An environment without sections in which no service fails. *)
Definition env_init (data : string -> Z -> Z) : env :=
  {| store := ∅; next_id := 1%positive; alloc_fail := []; map_err := [];
     unmap_err := []; file_data := data |}.

(** The contents of every file in the examples: the byte at offset [o] is
    [o mod 256]. *)
Definition data0 (_ : string) (o : Z) : Z := o mod 256.

(** The wildcard ASID and two concrete ones. *)
Definition asid_any : pt_asid := pt_asid_init.
Definition asid1 : pt_asid := {| cr3 := 1; vmcs := pt_asid_no_vmcs |}.
Definition asid2 : pt_asid := {| cr3 := 2; vmcs := pt_asid_no_vmcs |}.

(** Four 16-byte sections of the file "/s", back to back. *)
Definition sec_s (i : positive) : pt_section :=
  {| sec_id := i; sec_filename := "/s"; sec_offset := 16 * (Z.pos i - 1);
     sec_size := 16 |}.

Definition entry_s (i : positive) (mapped : bool) : pt_section_list :=
  {| sl_section := {| msec_section := sec_s i; msec_asid := asid_any;
                      msec_vaddr := 0x1000 + 16 * (Z.pos i - 1) |};
     sl_mapped := mapped |}.

(** An image with a cache of one section in which four sections are mapped
    (earlier unmaps have failed), and an environment in which the first and
    the third of the next unmaps fail, with different errors. *)
Definition prune_image : pt_image :=
  {| img_name := None;
     img_sections := [entry_s 1 true; entry_s 2 true; entry_s 3 true;
                      entry_s 4 true];
     img_callback := None; img_context := 0;
     img_cache := 1; img_mapped := 4 |}.

Definition prune_env : env :=
  {| store := list_to_map
                [(1%positive, {| ucount := 1; mcount := 1 |});
                 (2%positive, {| ucount := 1; mcount := 1 |});
                 (3%positive, {| ucount := 1; mcount := 1 |});
                 (4%positive, {| ucount := 1; mcount := 1 |})];
     next_id := 5%positive; alloc_fail := []; map_err := [];
     unmap_err := [- pte_internal; 0; - pte_nomap];
     file_data := data0 |}.

(** Running the interface from a pair of an image and an environment. *)
Definition state : Type := option pt_image * env.

(** The image [pt_image_init] makes, without a name. *)
Definition image_init : pt_image := fst (pt_image_init None (env_init data0)).

Definition state_init : state := (Some image_init, env_init data0).

Definition run_add_file (filename : string) (offset size : Z)
    (uasid : option pt_asid_user) (vaddr : Z) (st : state) : state :=
  let '(_, image, e) :=
    pt_image_add_file (fst st) (Some filename) offset size uasid vaddr (snd st)
  in (image, e).

Definition run_read (size : Z) (asid : pt_asid) (addr : Z) (st : state)
  : state :=
  let '(_, image, _, e) :=
    pt_image_read (fst st) (repeat 0 (Z.to_nat size)) size (Some asid) addr
      (snd st)
  in (image, e).

Definition set_alloc_fail (l : list bool) (e : env) : env :=
  {| store := store e; next_id := next_id e; alloc_fail := l;
     map_err := map_err e; unmap_err := unmap_err e;
     file_data := file_data e |}.

Definition set_map_err (l : list Z) (e : env) : env :=
  {| store := store e; next_id := next_id e; alloc_fail := alloc_fail e;
     map_err := l; unmap_err := unmap_err e; file_data := file_data e |}.

Definition set_cache (c : Z) (st : state) : state :=
  (option_map (fun img =>
                 {| img_name := img_name img; img_sections := img_sections img;
                    img_callback := img_callback img;
                    img_context := img_context img;
                    img_cache := c; img_mapped := img_mapped img |}) (fst st),
   snd st).

(** What the examples show of an element: file name, file range, vaddr and
    [mapped] bit. *)
Definition summary (x : pt_section_list) : string * Z * Z * Z * bool :=
  let sec := msec_section (sl_section x) in
  (sec_filename sec, sec_offset sec, sec_offset sec + sec_size sec,
   msec_vaddr (sl_section x), sl_mapped x).

Definition summaries (image : option pt_image)
  : list (string * Z * Z * Z * bool) :=
  match image with
  | Some img => List.map summary (img_sections img)
  | None => []
  end.

(** "/a" at [0x1000, 0x2000) has been read from (it is mapped) and is
    followed by "/b", which is not mapped. *)
Definition two_sections : state :=
  run_read 4 asid_any 0x1000
    (run_add_file "/b" 0 0x10 None 0x3000
       (run_add_file "/a" 0 0x1000 None 0x1000 state_init)).

(** Rollback: a section "/c" is added to [two_sections] at [0x1400, 0x1800),
    which splits "/a" in two, and the allocation for the second remainder
    fails. *)
Definition rollback_section : pt_section :=
  {| sec_id := 3; sec_filename := "/c"; sec_offset := 0; sec_size := 0x400 |}.

Definition rollback_env : env :=
  set_alloc_fail [false; false; false; true]
    (snd (pt_mk_section "/c" 0 0x400 (snd two_sections))).

Definition rollback_result : Z * option pt_image * env :=
  pt_image_add (fst two_sections) (Some rollback_section) (Some asid_any)
    0x1400 rollback_env.

(** Removal: the image of [two_sections], from which "/b" is removed. *)
Definition remove_image : pt_image :=
  default image_init (fst two_sections).

Definition remove_env : env := snd two_sections.

Definition remove_section : pt_section :=
  {| sec_id := 2; sec_filename := "/b"; sec_offset := 0; sec_size := 0x10 |}.

Definition entry_of (section : pt_section) (asid : pt_asid) (vaddr : Z)
    (mapped : bool) : pt_section_list :=
  {| sl_section := {| msec_section := section; msec_asid := asid;
                      msec_vaddr := vaddr |};
     sl_mapped := mapped |}.

(** No two elements that match [asid] overlap, in the order of the list. *)
Definition disjoint (x y : pt_section_list) : bool :=
  (u64 (pt_msec_end (sl_section x)) <=? u64 (pt_msec_begin (sl_section y)))
  || (u64 (pt_msec_end (sl_section y)) <=? u64 (pt_msec_begin (sl_section x))).

Fixpoint disjoint_for (asid : option pt_asid) (l : list pt_section_list)
  : Prop :=
  match l with
  | [] => True
  | x :: l' =>
      ((0 <? pt_msec_matches_asid (sl_section x) asid) = true ->
       Forall (fun y =>
                 (0 <? pt_msec_matches_asid (sl_section y) asid) = true ->
                 disjoint x y = true) l')
      /\ disjoint_for asid l'
  end.

(** ASIDs as a user hands them in. *)
Definition user_asid (c : Z) : option pt_asid_user :=
  Some {| u_oversized := false; u_cr3 := Some c; u_vmcs := None |}.

(** Two address spaces map "/a" at [0, 0x10). *)
Definition two_spaces : state :=
  run_add_file "/a" 0 0x10 (user_asid 2) 0
    (run_add_file "/a" 0 0x10 (user_asid 1) 0 state_init).

(** Address space 1 maps "/x" at [0, 0x20), address space 2 maps "/a" at
    [0, 0x10). *)
Definition two_files : state :=
  run_add_file "/a" 0 0x10 (user_asid 2) 0
    (run_add_file "/x" 0 0x20 (user_asid 1) 0 state_init).

(** "/a" mapped at the last page of the address space: the end of its range
    wraps around to zero. *)
Definition top_page : state :=
  run_add_file "/a" 0 0x1000 None 0xfffffffffffff000 state_init.

(** The first section created in an environment without sections. *)
Definition first_section (filename : string) (offset size : Z) : pt_section :=
  {| sec_id := 1; sec_filename := filename; sec_offset := offset;
     sec_size := size |}.

Definition first_env (filename : string) (offset size : Z) : env :=
  snd (pt_mk_section filename offset size (env_init data0)).

(** The section created next in a state. *)
Definition next_section (filename : string) (offset size : Z) (st : state)
  : pt_section :=
  {| sec_id := next_id (snd st); sec_filename := filename;
     sec_offset := offset; sec_size := size |}.

Definition next_env (filename : string) (offset size : Z) (st : state) : env :=
  snd (pt_mk_section filename offset size (snd st)).

(** The element contains [addr] in an address space that matches [asid]. *)
Definition covers (asid : pt_asid) (addr : Z) (x : pt_section_list) : bool :=
  (0 <? pt_msec_matches_asid (sl_section x) (Some asid))
  && (pt_msec_begin (sl_section x) <=? addr)
  && (addr <? pt_msec_end (sl_section x)).

(** The section of the element is in the store. *)
Definition in_store (e : env) (x : pt_section_list) : Prop :=
  is_Some (store e !! sec_id (msec_section (sl_section x))).

(** A callback that provides one byte, 0xAB, at every address. *)
Definition callback_ab : read_memory_callback_t :=
  fun buffer _ _ _ _ => (1, write_buffer [0xAB] buffer).

Definition set_callback (callback : read_memory_callback_t) (st : state)
  : state :=
  (snd (pt_image_set_callback (fst st) (Some callback) 0), snd st).

(** An image with "/a" at [0x1000, 0x1010), not mapped, and the callback. *)
Definition fallback_state : state :=
  set_callback callback_ab (run_add_file "/a" 0 0x10 None 0x1000 state_init).

(** The residency counter after "/a" at [0, 0x10) has been read from and is
    then replaced by "/b", or removed. *)
Definition mapped_once : state :=
  run_read 4 asid_any 0 (run_add_file "/a" 0 0x10 None 0 state_init).

Definition after_replace : state :=
  run_add_file "/b" 0 0x10 None 0 mapped_once.

Definition after_remove : state :=
  let '(_, image, e) :=
    pt_image_remove_by_filename (fst mapped_once) (Some "/a"%string) None
      (snd mapped_once)
  in (image, e).

(** How often the section with identity [i] is mapped. *)
Definition map_count (e : env) (i : positive) : option nat :=
  mcount <$> store e !! i.

(** Three sections of 16 bytes in address space 1 and a cache of two. *)
Definition three_sections : state :=
  run_add_file "/s2" 0 16 (user_asid 1) 0x3000
    (run_add_file "/s1" 0 16 (user_asid 1) 0x2000
       (run_add_file "/s0" 0 16 (user_asid 1) 0x1000
          (set_cache 2 state_init))).


Definition set_unmap_err (l : list Z) (e : env) : env :=
  {| store := store e; next_id := next_id e; alloc_fail := alloc_fail e;
     map_err := map_err e; unmap_err := l; file_data := file_data e |}.

(** ** The outcomes of maps and unmaps *)

(** The environment after [km] maps and [ku] unmaps have drawn their
    outcomes. *)
Definition drawn (km ku : nat) (e : env) : env :=
  {| store := store e; next_id := next_id e; alloc_fail := alloc_fail e;
     map_err := drop km (map_err e); unmap_err := drop ku (unmap_err e);
     file_data := file_data e |}.

(** None of the next [n] outcomes is a failure. *)
Definition succeed (n : nat) (outcomes : list Z) : Prop :=
  Forall (fun r => 0 <= r) (take n outcomes).

(** The number of elements that are not mapped. *)
Definition count_unmapped (l : list pt_section_list) : nat :=
  length (List.filter (fun x => negb (sl_mapped x)) l).

(** ** Notions used in the further properties *)

(** The element [pt_mk_section_list] makes. *)
Definition new_entry (section : pt_section) (asid : option pt_asid)
    (vaddr : Z) : pt_section_list :=
  {| sl_section := pt_msec_init section asid vaddr; sl_mapped := false |}.

(** The store in which [section] has one more reference. *)
Definition add_reference (section : pt_section) (st : sec_state)
    (m : gmap positive sec_state) : gmap positive sec_state :=
  <[sec_id section := {| ucount := S (ucount st); mcount := mcount st |}]> m.

(** The ASID of the element matches [asid]. *)
Definition asid_matches (asid : pt_asid) (x : pt_section_list) : bool :=
  0 <? pt_msec_matches_asid (sl_section x) (Some asid).

(** The ASID of the element matches [asid] and its section is of the file
    [filename]. *)
Definition file_matches (filename : string) (asid : pt_asid)
    (x : pt_section_list) : bool :=
  asid_matches asid x
  && String.eqb (sec_filename (msec_section (sl_section x))) filename.

(** The elements of [rest] can be added one after the other to a list that
    holds [done]: the range of each overlaps no element added or present
    before it that matches its ASID. *)
Fixpoint appendable (done rest : list pt_section_list) : Prop :=
  match rest with
  | [] => True
  | y :: rest' =>
      Forall (fun x =>
                passes (Some (msec_asid (sl_section y)))
                  (msec_vaddr (sl_section y))
                  (u64 (msec_vaddr (sl_section y)
                        + pt_section_size (msec_section (sl_section y)))) x
                = true) done
      /\ appendable (done ++ [unmapped y]) rest'
  end.

(** What a read can do to an image whose list is [l]: nothing; move an
    element to the head; move an element that was not mapped to the head,
    mark it as mapped and count it; or do that and prune the cache. *)
Inductive read_outcome (image : pt_image) (l : list pt_section_list)
    (image' : pt_image) : Prop :=
| ReadSame :
    image' = image -> read_outcome image l image'
| ReadPromote before x tl :
    l = before ++ x :: tl ->
    image' = set_sections (x :: before ++ tl) image ->
    read_outcome image l image'
| ReadMap before x tl :
    l = before ++ x :: tl ->
    sl_mapped x = false ->
    img_cache image <> 0 ->
    u16 (img_mapped image + 1) <= img_cache image ->
    image' = set_mapped (u16 (img_mapped image + 1))
               (set_sections (mark_mapped x :: before ++ tl) image) ->
    read_outcome image l image'
| ReadPrune before x tl l' m s e0 e1 :
    l = before ++ x :: tl ->
    sl_mapped x = false ->
    img_cache image <> 0 ->
    img_cache image < u16 (img_mapped image + 1) ->
    pt_image_prune_cache_loop (img_cache image) 0 0 []
      (mark_mapped x :: before ++ tl) e0 = (l', m, s, e1) ->
    image' = set_mapped m (set_sections l' image) ->
    read_outcome image l image'.

(** The identity of the section of an element. *)
Definition entry_id (x : pt_section_list) : positive :=
  sec_id (msec_section (sl_section x)).

(** ** Concrete states used by the further examples *)

(** The image of a state. *)
Definition image_of (st : state) : pt_image := default image_init (fst st).

(** A section "/c" of 0x400 bytes, created in the state [two_sections]. *)
Definition third_section : pt_section := next_section "/c" 0 0x400 two_sections.

Definition third_env : env := next_env "/c" 0 0x400 two_sections.

(** [three_sections] after a read from "/s0" and a read from "/s1": both are
    mapped and "/s1" is at the head. *)
Definition two_mapped : state :=
  run_read 4 asid1 0x2000 (run_read 4 asid1 0x1000 three_sections).

(** The elements of [three_sections] and [two_mapped]. *)
Definition entry_n (i : positive) (filename : string) (vaddr : Z)
    (mapped : bool) : pt_section_list :=
  entry_of {| sec_id := i; sec_filename := filename; sec_offset := 0;
              sec_size := 16 |} asid1 vaddr mapped.

(** From [e] to [e'] the section with identity [sid] was left alone, and
    [sid] is not an identity to come. *)
Definition frame (sid : positive) (e e' : env) : Prop :=
  store e' !! sid = store e !! sid /\ (sid < next_id e')%positive.

(** An environment without sections in which the second allocation fails. *)
Definition env_second_fails : env :=
  set_alloc_fail [false; true] (env_init data0).

(** ** Notions used for pt_image_copy *)

(** The results of the calls of [pt_image_add] that [pt_image_copy] makes
    for the elements [src] of another image, in call order. *)
Fixpoint copy_add_results (image : option pt_image)
    (src : list pt_section_list) (e : env) : list Z :=
  match src with
  | [] => []
  | x :: tl =>
      let '(errcode, image1, e1) :=
        pt_image_add image (Some (msec_section (sl_section x)))
          (Some (msec_asid (sl_section x))) (msec_vaddr (sl_section x)) e in
      errcode :: copy_add_results image1 tl e1
  end.

(** The exit of the walk on a flagged list, without the flags. *)
Definition unmark_exit (x : add_exit_at) : add_exit :=
  match x with
  | AddReturnAt r l e => AddReturn r (unmark l) e
  | AddLeaveAt st =>
      AddLeave {| as_errcode := at_errcode st;
                  as_kept := unmark (at_kept st);
                  as_rest := unmark (at_rest st);
                  as_next := unmark (at_next st);
                  as_removed := unmark (at_removed st);
                  as_env := at_env st |}
  end.

(** The range of each element of [rest] overlaps no element before it, of
    [done] or of [rest], that matches its ASID. *)
Fixpoint apart (done rest : list pt_section_list) : Prop :=
  match rest with
  | [] => True
  | y :: rest' =>
      Forall (fun x =>
                passes (Some (msec_asid (sl_section y)))
                  (msec_vaddr (sl_section y))
                  (u64 (msec_vaddr (sl_section y)
                        + pt_section_size (msec_section (sl_section y)))) x
                = true) done
      /\ apart (done ++ [y]) rest'
  end.

(** The range of the element is not empty and does not wrap around. *)
Definition in_range (x : pt_section_list) : Prop :=
  0 <= msec_vaddr (sl_section x)
  /\ 0 < pt_section_size (msec_section (sl_section x))
  /\ msec_vaddr (sl_section x) + pt_section_size (msec_section (sl_section x))
     < 2 ^ 64.

(** * Properties *)

(** ** Small facts about the ASID match and the environment *)

Lemma field_match_refl (s x : Z) : field_match s x x = true.
Proof. unfold field_match. rewrite Z.eqb_refl. apply orb_true_r. Qed.

Lemma pt_asid_match_refl (a : pt_asid) : pt_asid_match (Some a) (Some a) = 1.
Proof. unfold pt_asid_match. by rewrite !field_match_refl. Qed.

Lemma pt_asid_match_some (a b : pt_asid) :
  pt_asid_match (Some a) (Some b) = 0 \/ pt_asid_match (Some a) (Some b) = 1.
Proof. unfold pt_asid_match. case (_ && _); auto. Qed.

Lemma pt_msec_matches_asid_none (msec : pt_mapped_section) :
  pt_msec_matches_asid msec None = - pte_internal.
Proof. reflexivity. Qed.

Lemma set_sections_same (img : pt_image) :
  set_sections (img_sections img) img = img.
Proof. by destruct img. Qed.

(** ** pt_image_remove *)

Lemma pt_image_remove_loop_miss section asid vaddr x kept tl e :
  remove_hit section asid vaddr x = false ->
  pt_image_remove_loop section (Some asid) vaddr kept (x :: tl) e =
  pt_image_remove_loop section (Some asid) vaddr (kept ++ [x]) tl e.
Proof.
  unfold remove_hit. intros H. cbn [pt_image_remove_loop].
  unfold pt_msec_matches_asid in *.
  destruct (pt_asid_match_some (msec_asid (sl_section x)) asid) as [Hm | Hm];
    rewrite Hm in *; [done |].
  change (1 <? 0) with false. change (1 =? 0) with false.
  change (0 <? 1) with true in H. cbv iota.
  rewrite andb_true_l in H. by rewrite H.
Qed.

Lemma pt_image_remove_loop_hit section asid vaddr x kept tl e :
  remove_hit section asid vaddr x = true ->
  pt_image_remove_loop section (Some asid) vaddr kept (x :: tl) e =
  (0, kept ++ tl, pt_section_list_free x e).
Proof.
  unfold remove_hit. intros H. cbn [pt_image_remove_loop].
  unfold pt_msec_matches_asid in *.
  destruct (pt_asid_match_some (msec_asid (sl_section x)) asid) as [Hm | Hm];
    rewrite Hm in *; [done |].
  change (1 <? 0) with false. change (1 =? 0) with false.
  change (0 <? 1) with true in H. cbv iota.
  rewrite andb_true_l in H. by rewrite H.
Qed.

Lemma pt_image_remove_loop_first section asid vaddr l1 x l2 kept e :
  Forall (fun y => remove_hit section asid vaddr y = false) l1 ->
  remove_hit section asid vaddr x = true ->
  pt_image_remove_loop section (Some asid) vaddr kept (l1 ++ x :: l2) e =
  (0, kept ++ l1 ++ l2, pt_section_list_free x e).
Proof.
  intros Hl1 Hx. revert kept.
  induction Hl1 as [| y l1 Hy _ IH]; intros kept.
  - by apply pt_image_remove_loop_hit.
  - cbn [app]. rewrite pt_image_remove_loop_miss by done.
    rewrite IH. by rewrite <- app_assoc.
Qed.

Lemma pt_image_remove_loop_none section asid vaddr l kept e :
  Forall (fun y => remove_hit section asid vaddr y = false) l ->
  pt_image_remove_loop section (Some asid) vaddr kept l e =
  (- pte_bad_image, kept ++ l, e).
Proof.
  intros Hl. revert kept.
  induction Hl as [| y l Hy _ IH]; intros kept.
  - by rewrite app_nil_r.
  - rewrite pt_image_remove_loop_miss by done.
    rewrite IH. by rewrite <- app_assoc.
Qed.

Lemma pt_image_remove_loop_length section asid vaddr l kept e :
  let l' := snd (fst (pt_image_remove_loop section asid vaddr kept l e)) in
  (length l' <= length (kept ++ l) <= length l' + 1)%nat.
Proof.
  revert kept. induction l as [| x l IH]; intros kept; cbn [pt_image_remove_loop].
  - cbn. rewrite app_nil_r. lia.
  - repeat case_match; cbn [fst snd];
      try (specialize (IH (kept ++ [x])); cbn zeta in IH;
           rewrite <- app_assoc in IH; exact IH).
    + lia.
    + rewrite !length_app. cbn. lia.
Qed.

(** C7.  [pt_image_remove] removes the first element, in list order, whose
    section is the given section, whose vaddr is the given vaddr and whose
    ASID matches the given asid, drops that element's reference and returns
    zero; when no element passes the three tests it returns -pte_bad_image
    and leaves image and environment as they are; whatever the arguments, the
    list loses at most one element. *)
Theorem pt_image_remove_first_match (img : pt_image) (section : pt_section)
    (asid : pt_asid) (vaddr : Z) (e : env) :
  (forall l1 x l2,
      img_sections img = l1 ++ x :: l2 ->
      Forall (fun y => remove_hit section asid vaddr y = false) l1 ->
      remove_hit section asid vaddr x = true ->
      pt_image_remove (Some img) (Some section) (Some asid) vaddr e =
      (0, Some (set_sections (l1 ++ l2) img), pt_section_list_free x e))
  /\ (Forall (fun y => remove_hit section asid vaddr y = false)
             (img_sections img) ->
      pt_image_remove (Some img) (Some section) (Some asid) vaddr e =
      (- pte_bad_image, Some img, e))
  /\ (forall oasid r img' e',
      pt_image_remove (Some img) (Some section) oasid vaddr e =
      (r, Some img', e') ->
      (length (img_sections img') <= length (img_sections img)
       <= length (img_sections img') + 1)%nat).
Proof.
  split; [| split].
  - intros l1 x l2 Hl Hl1 Hx. unfold pt_image_remove. rewrite Hl.
    by rewrite pt_image_remove_loop_first.
  - intros Hl. unfold pt_image_remove.
    rewrite pt_image_remove_loop_none by done.
    cbn [app]. by rewrite set_sections_same.
  - intros oasid r img' e'. unfold pt_image_remove.
    pose proof (pt_image_remove_loop_length section oasid vaddr
                  (img_sections img) [] e) as Hlen.
    destruct (pt_image_remove_loop _ _ _ _ _ _) as [[r0 l0] e0].
    intros [= <- <- <-]. exact Hlen.
Qed.

Lemma pt_image_remove_first_match_witness :
  let a := entry_of {| sec_id := 1; sec_filename := "/a"; sec_offset := 0;
                       sec_size := 0x1000 |} asid_any 0x1000 true in
  let b := entry_of remove_section asid_any 0x3000 false in
  img_sections remove_image = [a] ++ b :: []
  /\ pt_image_remove (Some remove_image) (Some remove_section) (Some asid_any)
       0x3000 remove_env
     = (0, Some (set_sections ([a] ++ []) remove_image),
        pt_section_list_free b remove_env).
Proof.
  cbv zeta. split; [vm_compute; reflexivity |].
  apply (proj1 (pt_image_remove_first_match remove_image remove_section
                  asid_any 0x3000 remove_env)).
  - vm_compute. reflexivity.
  - repeat constructor.
  - vm_compute. reflexivity.
Defined.

(** ** pt_image_prune_cache *)

Lemma u16_add_l (a b : Z) : u16 (u16 a + b) = u16 (a + b).
Proof. unfold u16. by rewrite Zplus_mod_idemp_l. Qed.

Lemma u16_dec (a c : Z) : u16 (u16 (u16 (a + 1) - 1) + c) = u16 (a + c).
Proof.
  rewrite u16_add_l.
  replace (u16 (a + 1) - 1 + c) with (u16 (a + 1) + (c - 1)) by lia.
  rewrite u16_add_l. f_equal. lia.
Qed.

Lemma count_mapped_cons (x : pt_section_list) (l : list pt_section_list) :
  count_mapped (x :: l) = (if sl_mapped x then 1 else 0) + count_mapped l.
Proof.
  unfold count_mapped. cbn [List.filter].
  destruct (sl_mapped x); cbn [length]; lia.
Qed.

Lemma count_mapped_app (l1 l2 : list pt_section_list) :
  count_mapped (l1 ++ l2) = count_mapped l1 + count_mapped l2.
Proof.
  induction l1 as [| x l1 IH]; [done |].
  cbn [app]. rewrite !count_mapped_cons, IH. lia.
Qed.

Lemma last_cons_default (l : list Z) (a d : Z) :
  List.last (a :: l) d = List.last l a.
Proof.
  revert a d. induction l as [| b l IH]; intros a d; [done |].
  change (List.last (a :: b :: l) d) with (List.last (b :: l) d).
  by rewrite !IH.
Qed.

(** What the loop computes, for any state it is entered in: the list keeps
    its elements (only [mapped] bits are cleared), the counter is the count of
    the bits that are left, and the status is the last error of the unmap
    calls. *)
Lemma pt_image_prune_cache_loop_spec cache rest :
  forall mapped status done e l m s e',
    pt_image_prune_cache_loop cache mapped status done rest e = (l, m, s, e') ->
    exists rest',
      l = done ++ rest'
      /\ List.map sl_section rest' = List.map sl_section rest
      /\ u16 m = u16 (mapped + count_mapped rest')
      /\ s = List.last (errors (prune_unmap_results cache mapped rest e)) status.
Proof.
  induction rest as [| x tl IH]; intros mapped status done e l m s e' H;
    cbn [pt_image_prune_cache_loop prune_unmap_results] in *.
  - injection H as <- <- <- <-. exists []. rewrite app_nil_r.
    repeat split. f_equal. unfold count_mapped. cbn. lia.
  - destruct (sl_mapped x) eqn:Hx; cbn [negb] in *.
    + destruct (u16 (mapped + 1) <=? cache) eqn:Hc.
      * apply IH in H as (rest' & -> & Hs & Hm & ->).
        exists (x :: rest'). rewrite <- app_assoc. repeat split.
        -- cbn [List.map]. by f_equal.
        -- rewrite Hm, count_mapped_cons, Hx, u16_add_l. f_equal. lia.
      * destruct (pt_section_unmap _ e) as [errcode e1].
        destruct (errcode <? 0) eqn:He.
        -- apply IH in H as (rest' & -> & Hs & Hm & ->).
           exists (x :: rest'). rewrite <- app_assoc. repeat split.
           ++ cbn [List.map]. by f_equal.
           ++ rewrite Hm, count_mapped_cons, Hx, u16_add_l. f_equal. lia.
           ++ unfold errors. cbn [List.filter]. rewrite He.
              fold (errors (prune_unmap_results cache (u16 (mapped + 1)) tl e1)).
              by rewrite last_cons_default.
        -- apply IH in H as (rest' & -> & Hs & Hm & ->).
           exists (unmapped x :: rest'). rewrite <- app_assoc. repeat split.
           ++ cbn [List.map]. by f_equal.
           ++ rewrite Hm, count_mapped_cons. cbn [unmapped sl_mapped].
              rewrite u16_dec. f_equal; lia.
           ++ unfold errors. cbn [List.filter]. by rewrite He.
    + apply IH in H as (rest' & -> & Hs & Hm & ->).
      exists (x :: rest'). rewrite <- app_assoc. repeat split.
      * cbn [List.map]. by f_equal.
      * rewrite Hm, count_mapped_cons, Hx. f_equal.
Qed.

Lemma pt_image_prune_cache_loop_range cache rest :
  forall mapped status done e l m s e',
    0 <= mapped < 2 ^ 16 ->
    pt_image_prune_cache_loop cache mapped status done rest e = (l, m, s, e') ->
    0 <= m < 2 ^ 16.
Proof.
  induction rest as [| x tl IH]; intros mapped status done e l m s e' Hr H;
    cbn [pt_image_prune_cache_loop] in H.
  - by injection H as <- <- <- <-.
  - assert (0 <= u16 (mapped + 1) < 2 ^ 16) by (apply Z.mod_pos_bound; lia).
    assert (0 <= u16 (u16 (mapped + 1) - 1) < 2 ^ 16)
      by (apply Z.mod_pos_bound; lia).
    repeat case_match; eauto.
Qed.

(** C6 (as amended).  [pt_image_prune_cache] walks the whole list whatever
    the unmaps return: no element is lost, the counter R is set to the number
    of elements whose [mapped] bit is still set (as a uint16_t), and the
    status returned is the error of the LAST unmap that failed, zero when none
    failed. *)
Theorem pt_image_prune_cache_last_error (img : pt_image) (e : env) :
  exists img' e',
    pt_image_prune_cache (Some img) e =
    (List.last (errors (prune_unmap_results (img_cache img) 0
                          (img_sections img) e)) 0,
     Some img', e')
    /\ List.map sl_section (img_sections img')
       = List.map sl_section (img_sections img)
    /\ img_mapped img' = u16 (count_mapped (img_sections img'))
    /\ img_cache img' = img_cache img.
Proof.
  unfold pt_image_prune_cache.
  destruct (pt_image_prune_cache_loop _ _ _ _ _ _) as [[[l m] s] e'] eqn:H.
  assert (Hr : 0 <= m < 2 ^ 16)
    by (eapply pt_image_prune_cache_loop_range; [| exact H]; lia).
  apply pt_image_prune_cache_loop_spec in H as (rest' & -> & Hs & Hm & ->).
  eexists _, _. split; [reflexivity |]. cbn. repeat split; [done |].
  rewrite Z.add_0_l in Hm. rewrite <- Hm. unfold u16. by rewrite Z.mod_small.
Qed.

(** C6, the claim as stated fails: two unmaps fail, the first with
    -pte_internal and the second with -pte_nomap; pruning goes on (the
    element between them is unmapped, R is 3) and returns -pte_nomap, which
    is not the first error. *)
Lemma pt_image_prune_cache_not_first_error :
  errors (prune_unmap_results (img_cache prune_image) 0
            (img_sections prune_image) prune_env)
  = [- pte_internal; - pte_nomap]
  /\ (let '(status, image, _) :=
        pt_image_prune_cache (Some prune_image) prune_env in
      status = - pte_nomap
      /\ status <> - pte_internal
      /\ option_map img_mapped image = Some 3
      /\ option_map (fun i => List.map sl_mapped (img_sections i)) image
         = Some [true; true; false; true]).
Proof. vm_compute. repeat split; congruence. Qed.

(** ** pt_image_add: the walk over the list *)

Lemma pt_image_clone_spec lst msec begin end_ e errcode lst' e' :
  pt_image_clone lst msec begin end_ e = (errcode, lst', e') ->
  ((errcode <? 0) = true /\ lst' = lst)
  \/ (errcode = 0 /\ exists c, lst' = c :: lst /\ clone_of msec begin end_ c).
Proof.
  unfold pt_image_clone, pt_section_clone, pt_mk_section, pt_mk_section_list.
  intros H.
  repeat (case_match; simplify_eq; try (left; by split)).
  all: try (left; split; [reflexivity | reflexivity]).
  all: right; split; [reflexivity |]; eexists; split; [reflexivity |].
  all: by repeat split.
Qed.

Section AddWalk.

Variables (section : pt_section) (asid : option pt_asid) (begin end_ : Z).

Lemma passes_overlaps (x : pt_section_list) :
  overlaps asid begin end_ x = negb (passes asid begin end_ x).
Proof. reflexivity. Qed.

Lemma pt_image_add_loop_pass err kept x tl next removed e :
  passes asid begin end_ x = true ->
  pt_image_add_loop section asid begin end_ err kept (x :: tl) next removed e =
  pt_image_add_loop section asid begin end_
    (pt_msec_matches_asid (sl_section x) asid) (kept ++ [x]) tl next removed e.
Proof.
  unfold passes. cbn zeta. cbn [pt_image_add_loop].
  set (m := pt_msec_matches_asid (sl_section x) asid).
  intros H.
  destruct (m <? 0) eqn:Hneg.
  { destruct (m =? 0) eqn:H0; [lia |]. destruct (0 <? m) eqn:Hpos; [lia |].
    done. }
  destruct (m =? 0) eqn:H0; [done |].
  cbn [orb] in H. apply andb_prop in H as [_ H]. by rewrite H.
Qed.

Lemma clone_step (cond : bool) lst msec bb ee env m ec nx en :
  (if cond then pt_image_clone lst msec bb ee env else (m, lst, env))
  = (ec, nx, en) ->
  exists cl, nx = cl ++ lst /\ Forall (clone_of msec bb ee) cl.
Proof.
  destruct cond.
  - intros H. apply pt_image_clone_spec in H as [[_ ->] | [_ (c & -> & Hc)]].
    + by exists [].
    + exists [c]. split; [done |]. by constructor.
  - intros [= <- <- <-]. by exists [].
Qed.

(** One step of the walk at an element it does not pass over. *)
Lemma pt_image_add_loop_overlap err kept x tl next removed e :
  passes asid begin end_ x = false ->
  let m := pt_msec_matches_asid (sl_section x) asid in
  let loop := pt_image_add_loop section asid begin end_ err kept (x :: tl)
                next removed e in
  ((m <? 0) = true
   /\ loop = AddLeave {| as_errcode := m; as_kept := kept; as_rest := x :: tl;
                         as_next := next; as_removed := removed; as_env := e |})
  \/ ((0 <? m) = true
      /\ ((identical section asid begin end_ x = true
           /\ removed = []
           /\ exists n, next = [n]
                /\ loop = AddReturn 0 (kept ++ x :: tl)
                                    (pt_section_list_free n e))
          \/ (exists ec,
                 (ec <? 0) = true
                 /\ loop = AddLeave {| as_errcode := ec; as_kept := kept;
                                       as_rest := x :: tl; as_next := next;
                                       as_removed := removed; as_env := e |})
          \/ (exists ec cl e',
                 Forall (fun c =>
                           clone_of (sl_section x)
                             (u64 (pt_msec_begin (sl_section x))) begin c
                           \/ clone_of (sl_section x)
                                end_ (u64 (pt_msec_end (sl_section x))) c) cl
                 /\ (((ec <? 0) = true
                      /\ loop = AddLeave {| as_errcode := ec; as_kept := kept;
                                            as_rest := tl;
                                            as_next := cl ++ next;
                                            as_removed := unmapped x :: removed;
                                            as_env := e' |})
                     \/ ((ec <? 0) = false
                         /\ loop = pt_image_add_loop section asid begin end_
                                     ec kept tl (cl ++ next)
                                     (unmapped x :: removed) e'))))).
Proof.
  intros HP. cbn zeta. cbn [pt_image_add_loop].
  unfold passes in HP. cbn zeta in HP.
  set (m := pt_msec_matches_asid (sl_section x) asid) in *.
  destruct (m <? 0) eqn:Hneg; [by left |].
  destruct (m =? 0) eqn:H0; [done |].
  assert (Hpos : (0 <? m) = true) by lia.
  rewrite Hpos in HP. cbn [orb andb] in HP. rewrite HP.
  right. split; [done |].
  match goal with
  | |- context [match ?i with Dedup => _ | Fail _ => _ | Replace => _ end] =>
      destruct i as [| ec |] eqn:Hid
  end.
  - left.
    destruct ((begin =? _) && (end_ =? _)) eqn:Hr in Hid; [| discriminate].
    unfold pt_section_filename in Hid.
    destruct (String.eqb _ _) eqn:Hf in Hid; [| discriminate].
    destruct removed; [| discriminate].
    destruct next as [| n [| ? ?]]; try discriminate.
    repeat split.
    + unfold identical. fold m. rewrite Hpos, HP.
      apply andb_prop in Hr as [Hr1 Hr2]. by rewrite Hr1, Hr2, Hf.
    + by exists n.
  - right. left. exists ec. split; [| done].
    unfold pt_section_filename in Hid.
    repeat case_match; simplify_eq; reflexivity.
  - right. right. clear Hid.
    destruct (if u64 (pt_msec_begin (sl_section x)) <? begin then _ else _)
      as [[ec1 nx1] e1] eqn:H1.
    apply clone_step in H1 as (cl1 & -> & Hcl1).
    destruct (ec1 <? 0) eqn:Hec1.
    { exists ec1, cl1, e1. split; [| by left].
      eapply Forall_impl; [exact Hcl1 |]. by left. }
    destruct (if end_ <? u64 (pt_msec_end (sl_section x)) then _ else _)
      as [[ec2 nx2] e2] eqn:H2.
    apply clone_step in H2 as (cl2 & -> & Hcl2).
    exists ec2, (cl2 ++ cl1), e2. rewrite <- app_assoc. split.
    { apply Forall_app. split; (eapply Forall_impl; [eassumption |]); auto. }
    destruct (ec2 <? 0) eqn:Hec2; [by left | by right].
Qed.

Lemma pt_image_add_loop_leave rest :
  forall err kept next removed e st,
    pt_image_add_loop section asid begin end_ err kept rest next removed e
    = AddLeave st ->
    exists pre post clones,
      rest = pre ++ post
      /\ as_kept st = kept ++ List.filter (passes asid begin end_) pre
      /\ as_rest st = post
      /\ as_removed st
         = rev (List.map unmapped
                  (List.filter (overlaps asid begin end_) pre)) ++ removed
      /\ as_next st = clones ++ next
      /\ Forall (fun c => exists x,
                   (0 <? pt_msec_matches_asid (sl_section x) asid) = true
                   /\ (clone_of (sl_section x)
                         (u64 (pt_msec_begin (sl_section x))) begin c
                       \/ clone_of (sl_section x)
                            end_ (u64 (pt_msec_end (sl_section x))) c))
                clones
      /\ ((as_errcode st <? 0) = false -> post = []).
Proof.
  induction rest as [| x tl IH]; intros err kept next removed e st H.
  - cbn in H. injection H as <-. exists [], [], []. cbn.
    by rewrite app_nil_r.
  - destruct (passes asid begin end_ x) eqn:HP.
    + rewrite pt_image_add_loop_pass in H by done.
      apply IH in H as (pre & post & clones & -> & Hk & Hr & Hrm & Hn & Hc & He).
      exists (x :: pre), post, clones.
      cbn [List.filter app]. rewrite (passes_overlaps x), HP. cbn [negb].
      rewrite Hk, <- app_assoc. done.
    + assert (Hov : overlaps asid begin end_ x = true)
        by (by rewrite passes_overlaps, HP).
      destruct (pt_image_add_loop_overlap err kept x tl next removed e HP)
        as [[Hneg Hl] | [Hpos [(Hid & -> & n & -> & Hl)
           | [(ec & Hec & Hl)
           | (ec & cl & e' & Hcl & [[Hec Hl] | [Hec Hl]])]]]];
        cbn zeta in Hl; rewrite Hl in H; clear Hl.
      * injection H as <-. exists [], (x :: tl), [].
        cbn [List.filter List.map rev app as_kept as_rest as_next
             as_removed as_errcode].
        rewrite app_nil_r. repeat split; [done |]. congruence.
      * discriminate.
      * injection H as <-. exists [], (x :: tl), [].
        cbn [List.filter List.map rev app as_kept as_rest as_next
             as_removed as_errcode].
        rewrite app_nil_r. repeat split; [done |]. congruence.
      * injection H as <-. exists [x], tl, cl. cbn [List.filter app].
        rewrite HP, Hov.
        cbn [List.filter List.map rev app as_kept as_rest as_next
             as_removed as_errcode].
        rewrite app_nil_r. repeat split.
        -- eapply Forall_impl; [exact Hcl |]. intros c Hc. by exists x.
        -- congruence.
      * apply IH in H
          as (pre & post & clones & -> & Hk & Hr & Hrm & Hn & Hc & He).
        exists (x :: pre), post, (clones ++ cl). cbn [List.filter app].
        rewrite HP, Hov. cbn [List.map rev].
        rewrite Hrm, Hn, <- !app_assoc. repeat split; try done.
        apply Forall_app. split; [done |].
        eapply Forall_impl; [exact Hcl |]. intros c Hc'. by exists x.
Qed.

(** The [return 0] inside the loop: nothing was taken out, the walk passed
    over a part [l1] of the list and met an identical overlap [x]; the list is
    as it was and the new element has been freed. *)
Lemma pt_image_add_loop_return rest :
  forall err kept next removed e r l e',
    pt_image_add_loop section asid begin end_ err kept rest next removed e
    = AddReturn r l e' ->
    r = 0 /\ removed = [] /\ l = kept ++ rest
    /\ exists n l1 x l2,
         next = [n] /\ e' = pt_section_list_free n e
         /\ rest = l1 ++ x :: l2
         /\ Forall (fun y => passes asid begin end_ y = true) l1
         /\ identical section asid begin end_ x = true.
Proof.
  induction rest as [| x tl IH]; intros err kept next removed e r l e' H.
  - discriminate.
  - destruct (passes asid begin end_ x) eqn:HP.
    + rewrite pt_image_add_loop_pass in H by done.
      apply IH in H as (-> & -> & -> & n & l1 & y & l2 & -> & -> & -> & Hl1 & Hy).
      rewrite <- app_assoc. repeat split.
      exists n, (x :: l1), y, l2. repeat split; try done. by constructor.
    + destruct (pt_image_add_loop_overlap err kept x tl next removed e HP)
        as [[Hneg Hl] | [Hpos [(Hid & -> & n & -> & Hl)
           | [(ec & Hec & Hl)
           | (ec & cl & e'' & Hcl & [[Hec Hl] | [Hec Hl]])]]]];
        cbn zeta in Hl; rewrite Hl in H; clear Hl; try discriminate.
      * injection H as <- <- <-. repeat split.
        exists n, [], x, tl. by repeat split.
      * apply IH in H as (_ & Hrm & _). discriminate.
Qed.

(** The walk passes over a whole prefix. *)
Lemma pt_image_add_loop_passes l1 :
  forall err kept x tl next removed e,
    Forall (fun y => passes asid begin end_ y = true) l1 ->
    pt_image_add_loop section asid begin end_ err kept (l1 ++ x :: tl)
      next removed e
    = pt_image_add_loop section asid begin end_ 0 (kept ++ l1) (x :: tl)
        next removed e.
Proof.
  induction l1 as [| y l1 IH]; intros err kept x tl next removed e Hl1.
  - by rewrite app_nil_r.
  - apply Forall_cons in Hl1 as [Hy Hl1]. cbn [app].
    rewrite pt_image_add_loop_pass by done.
    rewrite IH by done. by rewrite <- app_assoc.
Qed.

(** The walk at an identical overlap, when nothing was taken out or cloned
    yet: the new element is freed and the list stays as it is. *)
Lemma pt_image_add_loop_dedup err kept x tl n e :
  identical section asid begin end_ x = true ->
  pt_image_add_loop section asid begin end_ err kept (x :: tl) [n] [] e
  = AddReturn 0 (kept ++ x :: tl) (pt_section_list_free n e).
Proof.
  unfold identical. intros H.
  repeat (apply andb_prop in H as [H ?]).
  cbn [pt_image_add_loop].
  set (m := pt_msec_matches_asid (sl_section x) asid) in *.
  destruct (m <? 0) eqn:Hneg; [lia |].
  destruct (m =? 0) eqn:Hzero; [lia |].
  match goal with
  | Hov : negb ?b = true |- _ => apply negb_true_iff in Hov; rewrite Hov
  end.
  unfold pt_section_filename.
  repeat match goal with
         | Heq : ?b = true |- context [?b] => rewrite Heq
         end.
  done.
Qed.

End AddWalk.

(** ** pt_image_add: failure *)

Lemma filter_split_perm {A} (f : A -> bool) (l : list A) :
  Permutation (List.filter f l ++ List.filter (fun x => negb (f x)) l) l.
Proof.
  induction l as [| x l IH]; [constructor |].
  cbn [List.filter]. destruct (f x); cbn [negb app].
  - by constructor.
  - rewrite <- Permutation_middle. by constructor.
Qed.

Lemma map_sl_section_unmapped (l : list pt_section_list) :
  List.map sl_section (List.map unmapped l) = List.map sl_section l.
Proof. induction l as [| x l IH]; [done |]. cbn. by rewrite IH. Qed.

Lemma rolled_back_perm asid begin end_ before after :
  rolled_back asid begin end_ before after ->
  Permutation (List.map sl_section after) (List.map sl_section before).
Proof.
  intros (pre & post & -> & ->).
  rewrite !List.map_app, List.map_rev, map_sl_section_unmapped.
  rewrite <- Permutation_rev.
  rewrite (Permutation_app_comm (List.map sl_section post)).
  rewrite app_assoc. apply Permutation_app_tail.
  rewrite <- List.map_app. apply Permutation_map.
  apply (filter_split_perm (passes asid begin end_)).
Qed.

Lemma rolled_back_refl asid begin end_ l : rolled_back asid begin end_ l l.
Proof. exists [], l. cbn. by rewrite app_nil_r. Qed.

(** C1 (as amended).  When [pt_image_add] fails, only the list of the image
    changes, and it holds the same mapped sections as before the call: the
    elements the walk had taken out before the failure are back at the tail
    of the list, in reverse order and with their [mapped] bit cleared, the
    others keep their order and their bits. *)
Theorem pt_image_add_failure_rolls_back (image : option pt_image)
    (section : option pt_section) (asid : option pt_asid) (vaddr : Z)
    (e : env) (r : Z) (image' : option pt_image) (e' : env) :
  pt_image_add image section asid vaddr e = (r, image', e') ->
  r < 0 ->
  match image, section with
  | Some img, Some sec =>
      exists l,
        image' = Some (set_sections l img)
        /\ rolled_back asid vaddr (u64 (vaddr + pt_section_size sec))
             (img_sections img) l
        /\ Permutation (List.map sl_section l)
             (List.map sl_section (img_sections img))
  | _, _ => image' = image
  end.
Proof.
  unfold pt_image_add. intros H Hr.
  destruct image as [img |], section as [sec |]; try by injection H as <- <- <-.
  assert (Hgoal : exists l,
             image' = Some (set_sections l img)
             /\ rolled_back asid vaddr (u64 (vaddr + pt_section_size sec))
                  (img_sections img) l).
  { destruct (pt_mk_section_list sec asid vaddr e) as [[n |] e1].
    - destruct (pt_image_add_loop _ _ _ _ _ _ _ _ _ _) as [r0 l0 e0 | st] eqn:Hl.
      + apply pt_image_add_loop_return in Hl as (-> & _).
        injection H as <- <- <-. lia.
      + destruct (as_errcode st <? 0) eqn:Herr.
        * injection H as <- <- <-.
          apply pt_image_add_loop_leave in Hl
            as (pre & post & clones & Hs & Hk & Hrest & Hrm & _).
          eexists. split; [reflexivity |]. exists pre, post.
          rewrite Hk, Hrest, Hrm, app_nil_r. by cbn.
        * injection H as <- <- <-. lia.
    - injection H as <- <- <-. exists (img_sections img).
      rewrite set_sections_same. split; [done |]. apply rolled_back_refl. }
  destruct Hgoal as (l & -> & Hrb). exists l. repeat split; [done |].
  by eapply rolled_back_perm.
Qed.

(** C1, the claim as stated fails: the add returns -pte_nomem and the image
    is not as it was: "/a", which was first in the list and mapped, is now
    last and unmapped, while the counter of mapped sections still reads 1. *)
Lemma pt_image_add_failure_not_exact :
  fst (pt_mk_section "/c" 0 0x400 (snd two_sections))
  = Some rollback_section
  /\ summaries (fst two_sections)
     = [("/a"%string, 0, 0x1000, 0x1000, true);
        ("/b"%string, 0, 0x10, 0x3000, false)]
  /\ option_map img_mapped (fst two_sections) = Some 1
  /\ fst (fst rollback_result) = - pte_nomem
  /\ summaries (snd (fst rollback_result))
     = [("/b"%string, 0, 0x10, 0x3000, false);
        ("/a"%string, 0, 0x1000, 0x1000, false)]
  /\ option_map img_mapped (snd (fst rollback_result)) = Some 1
  /\ snd (fst rollback_result) <> fst two_sections.
Proof.
  vm_compute. repeat split; congruence.
Qed.

Lemma pt_image_add_failure_rolls_back_witness :
  pt_image_add (fst two_sections) (Some rollback_section) (Some asid_any)
    0x1400 rollback_env
  = (fst (fst rollback_result), snd (fst rollback_result), snd rollback_result)
  /\ fst (fst rollback_result) < 0
  /\ match fst two_sections, Some rollback_section with
     | Some img, Some sec =>
         exists l,
           snd (fst rollback_result) = Some (set_sections l img)
           /\ rolled_back (Some asid_any) 0x1400
                (u64 (0x1400 + pt_section_size sec)) (img_sections img) l
           /\ Permutation (List.map sl_section l)
                (List.map sl_section (img_sections img))
     | _, _ => snd (fst rollback_result) = fst two_sections
     end.
Proof.
  assert (H1 : pt_image_add (fst two_sections) (Some rollback_section)
                 (Some asid_any) 0x1400 rollback_env
               = (fst (fst rollback_result), snd (fst rollback_result),
                  snd rollback_result))
    by (unfold rollback_result; by destruct (pt_image_add _ _ _ _ _) as [[? ?] ?]).
  assert (H2 : fst (fst rollback_result) < 0) by (vm_compute; reflexivity).
  split; [exact H1 |]. split; [exact H2 |].
  exact (pt_image_add_failure_rolls_back _ _ _ _ _ _ _ _ H1 H2).
Defined.

(** ** pt_image_add: the new element and its reference *)

Lemma malloc_store (e : env) : store (snd (malloc e)) = store e.
Proof. unfold malloc. by destruct (alloc_fail e). Qed.

Lemma pt_mk_section_list_ok section asid vaddr e :
  fst (malloc e) = false ->
  live e section ->
  exists e1,
    pt_mk_section_list section asid vaddr e
    = (Some {| sl_section := pt_msec_init section asid vaddr;
               sl_mapped := false |}, e1)
    /\ (forall n, sl_mapped n = false -> msec_section (sl_section n) = section ->
                  store (pt_section_list_free n e1) = store e).
Proof.
  intros Hm (st & Hst & Hu). unfold pt_mk_section_list.
  pose proof (malloc_store e) as Hs.
  destruct (malloc e) as [f e0]. cbn [fst snd] in *. subst f.
  unfold pt_section_get. rewrite Hs, Hst. cbn.
  eexists. split; [reflexivity |].
  intros n Hn1 Hn2. unfold pt_section_list_free. rewrite Hn1, Hn2.
  unfold pt_section_put. cbn [store set_store].
  rewrite lookup_insert_eq. cbn [ucount mcount].
  destruct (ucount st) as [| u] eqn:Hu'; [lia |].
  cbn [snd store set_store]. rewrite insert_insert_eq.
  apply insert_id. rewrite Hst. f_equal. destruct st. cbn in *. by subst.
Qed.

Lemma pt_mk_section_list_some section asid vaddr e n e1 :
  pt_mk_section_list section asid vaddr e = (Some n, e1) ->
  n = {| sl_section := pt_msec_init section asid vaddr; sl_mapped := false |}.
Proof.
  unfold pt_mk_section_list. intros H.
  repeat case_match; by simplify_eq.
Qed.

(** The add that meets an identical overlap before anything else it has to
    replace: the new element is dropped again, with its reference. *)
Lemma pt_image_add_dedup img section asid vaddr e l1 x l2 :
  img_sections img = l1 ++ x :: l2 ->
  Forall (fun y => passes asid vaddr (u64 (vaddr + pt_section_size section)) y
                   = true) l1 ->
  identical section asid vaddr (u64 (vaddr + pt_section_size section)) x
  = true ->
  fst (malloc e) = false ->
  live e section ->
  exists e',
    pt_image_add (Some img) (Some section) asid vaddr e = (0, Some img, e')
    /\ store e' = store e.
Proof.
  intros Hl Hl1 Hx Hm Hlive.
  destruct (pt_mk_section_list_ok section asid vaddr e Hm Hlive)
    as (e1 & Hmk & Hfree).
  unfold pt_image_add. rewrite Hmk, Hl.
  rewrite pt_image_add_loop_passes by done.
  rewrite pt_image_add_loop_dedup by done.
  eexists. split.
  - cbn [app]. rewrite <- Hl. by rewrite set_sections_same.
  - by apply Hfree.
Qed.

(** ** pt_image_add: success *)

Lemma u64_small (x : Z) : 0 <= x < 2 ^ 64 -> u64 x = x.
Proof. intros H. unfold u64. by apply Z.mod_small. Qed.

Lemma u64_range (x : Z) : 0 <= u64 x < 2 ^ 64.
Proof. unfold u64. apply Z.mod_pos_bound. lia. Qed.

Lemma clone_left_passes asid begin end_ x c :
  0 <= begin < 2 ^ 64 ->
  (0 <? pt_msec_matches_asid (sl_section x) asid) = true ->
  clone_of (sl_section x) (u64 (pt_msec_begin (sl_section x))) begin c ->
  passes asid begin end_ c = true.
Proof.
  intros Hb Hm (_ & Ha & Hv & Hs & _). unfold passes. cbn zeta.
  unfold pt_msec_matches_asid in *. rewrite Ha, Hm.
  rewrite andb_true_l.
  replace (u64 (pt_msec_end (sl_section c))) with begin;
    [rewrite Z.leb_refl; by rewrite !orb_true_r |].
  unfold pt_msec_end, pt_section_size. rewrite Hv, Hs.
  unfold u64. rewrite Zplus_mod_idemp_r.
  rewrite <- (Z.mod_small begin (2 ^ 64)) at 1 by done. f_equal. lia.
Qed.

Lemma clone_right_passes asid begin end_ x c :
  0 <= end_ < 2 ^ 64 ->
  (0 <? pt_msec_matches_asid (sl_section x) asid) = true ->
  clone_of (sl_section x) end_ (u64 (pt_msec_end (sl_section x))) c ->
  passes asid begin end_ c = true.
Proof.
  intros He Hm (_ & Ha & Hv & _). unfold passes. cbn zeta.
  unfold pt_msec_matches_asid in *. rewrite Ha, Hm.
  rewrite andb_true_l. unfold pt_msec_begin. rewrite Hv, u64_small by done.
  rewrite Z.leb_refl. by rewrite orb_true_r.
Qed.

Lemma filter_passes_Forall asid begin end_ (l : list pt_section_list) :
  Forall (fun y => passes asid begin end_ y = true)
         (List.filter (passes asid begin end_) l).
Proof.
  apply List.Forall_forall. intros y Hy. by apply List.filter_In in Hy as [_ ?].
Qed.

Lemma new_entry_identical section asid vaddr :
  0 <= vaddr -> 0 < sec_size section -> vaddr + sec_size section < 2 ^ 64 ->
  identical section (Some asid) vaddr (u64 (vaddr + pt_section_size section))
    {| sl_section := pt_msec_init section (Some asid) vaddr;
       sl_mapped := false |} = true.
Proof.
  intros H1 H2 H3.
  unfold identical, pt_msec_matches_asid, pt_msec_init, pt_msec_begin,
    pt_msec_end.
  cbn [sl_section msec_asid msec_section msec_vaddr default].
  rewrite pt_asid_match_refl. unfold pt_section_size.
  rewrite !(u64_small vaddr), !(u64_small (vaddr + _)) by lia.
  rewrite !Z.eqb_refl, String.eqb_refl.
  replace (vaddr + sec_size section <=? vaddr) with false by lia.
  done.
Qed.

(** The shape of the list after a successful add: the walk of a further add
    with the same range and ASID passes over a part [l1] and then meets an
    element [x] that is an identical overlap for the section; either [x] is
    the new element, at the tail, or the list is the one before the call. *)
Lemma pt_image_add_success img section asid vaddr e r image1 e1 :
  0 <= vaddr -> 0 < sec_size section -> vaddr + sec_size section < 2 ^ 64 ->
  pt_image_add (Some img) (Some section) (Some asid) vaddr e = (r, image1, e1) ->
  ~ r < 0 ->
  let end_ := u64 (vaddr + pt_section_size section) in
  r = 0
  /\ exists l1 x l2,
       image1 = Some (set_sections (l1 ++ x :: l2) img)
       /\ Forall (fun y => passes (Some asid) vaddr end_ y = true) l1
       /\ identical section (Some asid) vaddr end_ x = true
       /\ (l2 = [] \/ l1 ++ x :: l2 = img_sections img).
Proof.
  intros H1 H2 H3 H Hr. cbn zeta. unfold pt_image_add in H.
  destruct (pt_mk_section_list section (Some asid) vaddr e) as [[n |] e0] eqn:Hmk;
    [| injection H as <- <- <-; by destruct Hr].
  apply pt_mk_section_list_some in Hmk as Hn.
  destruct (pt_image_add_loop _ _ _ _ _ _ _ _ _ _) as [r0 l0 e2 | st] eqn:Hl.
  - apply pt_image_add_loop_return in Hl
      as (-> & _ & -> & _ & l1 & x & l2 & _ & _ & Hs & Hl1 & Hx).
    injection H as <- <- <-. split; [done |].
    exists l1, x, l2. cbn [app]. rewrite Hs. repeat split; try done. by right.
  - apply pt_image_add_loop_leave in Hl
      as (pre & post & clones & Hs & Hk & Hrest & Hrm & Hnx & Hcl & Hpost).
    destruct (as_errcode st <? 0) eqn:Herr;
      injection H as <- <- <-; [lia |]. split; [done |].
    exists (List.filter
              (passes (Some asid) vaddr (u64 (vaddr + pt_section_size section)))
              pre ++ clones), n, [].
    rewrite Hk, Hnx. cbn [app]. rewrite <- app_assoc.
    repeat split; try done.
    + apply Forall_app. split; [apply filter_passes_Forall |].
      eapply Forall_impl; [exact Hcl |].
      intros c (x & Hm & [Hc | Hc]).
      * eapply clone_left_passes; [| done..]. lia.
      * eapply clone_right_passes; [apply u64_range | done..].
    + subst n. by apply new_entry_identical.
    + by left.
Qed.

(** ** pt_image_add: adding the same section again *)

Lemma identical_same_name s1 s2 asid begin end_ x :
  sec_filename s2 = sec_filename s1 ->
  identical s2 asid begin end_ x = identical s1 asid begin end_ x.
Proof. unfold identical. by intros ->. Qed.

Lemma identical_overlaps section asid begin end_ x :
  identical section asid begin end_ x = true ->
  overlaps asid begin end_ x = true
  /\ (0 <? pt_msec_matches_asid (sl_section x) asid) = true
  /\ begin = u64 (pt_msec_begin (sl_section x))
  /\ end_ = u64 (pt_msec_end (sl_section x)).
Proof.
  unfold identical, overlaps, passes. cbn zeta. intros H.
  repeat (apply andb_prop in H as [H ?]).
  repeat split; lia.
Qed.

Lemma filter_overlaps_passes asid begin end_ (l : list pt_section_list) :
  Forall (fun y => passes asid begin end_ y = true) l ->
  List.filter (overlaps asid begin end_) l = [].
Proof.
  induction 1 as [| y l Hy _ IH]; [done |].
  cbn [List.filter]. unfold overlaps at 1. by rewrite Hy.
Qed.

Lemma disjoint_for_after asid l1 x l2 :
  disjoint_for asid (l1 ++ x :: l2) ->
  (0 <? pt_msec_matches_asid (sl_section x) asid) = true ->
  Forall (fun y => (0 <? pt_msec_matches_asid (sl_section y) asid) = true ->
                   disjoint x y = true) l2.
Proof.
  induction l1 as [| z l1 IH]; cbn [app disjoint_for].
  - intros [H _] Hx. by apply H.
  - intros [_ H] Hx. by apply IH.
Qed.

Lemma disjoint_passes section asid begin end_ x y :
  identical section (Some asid) begin end_ x = true ->
  ((0 <? pt_msec_matches_asid (sl_section y) (Some asid)) = true ->
   disjoint x y = true) ->
  passes (Some asid) begin end_ y = true.
Proof.
  intros Hx Hd. apply identical_overlaps in Hx as (_ & _ & -> & ->).
  unfold passes. cbn zeta. unfold pt_msec_matches_asid in *.
  destruct (pt_asid_match_some (msec_asid (sl_section y)) asid) as [Hm | Hm];
    rewrite Hm in *; [done |].
  specialize (Hd eq_refl). unfold disjoint in Hd. by rewrite Hd.
Qed.

(** C4 (as amended).  After a successful add of a section at a range that
    does not wrap around, a second add with the same file name, size, asid
    and vaddr returns success, leaves the image as the first add left it, and
    leaves the reference counts of all sections as they were before the
    second call.  When no two elements of the image matching the asid
    overlapped before, the image then holds exactly one element that matches
    the asid and overlaps the range. *)
Theorem pt_image_add_idempotent (img : pt_image) (s1 s2 : pt_section)
    (asid : pt_asid) (vaddr : Z) (e e1 : env) (image1 : option pt_image) :
  0 <= vaddr -> 0 < sec_size s1 -> vaddr + sec_size s1 < 2 ^ 64 ->
  sec_filename s2 = sec_filename s1 -> sec_size s2 = sec_size s1 ->
  pt_image_add (Some img) (Some s1) (Some asid) vaddr e = (0, image1, e1) ->
  fst (malloc e1) = false -> live e1 s2 ->
  exists e2,
    pt_image_add image1 (Some s2) (Some asid) vaddr e1 = (0, image1, e2)
    /\ store e2 = store e1
    /\ (disjoint_for (Some asid) (img_sections img) ->
        exists img1 x,
          image1 = Some img1
          /\ List.filter
               (overlaps (Some asid) vaddr (u64 (vaddr + pt_section_size s1)))
               (img_sections img1) = [x]).
Proof.
  intros H1 H2 H3 Hname Hsize Hadd Hm Hlive.
  apply pt_image_add_success in Hadd
    as (_ & l1 & x & l2 & -> & Hl1 & Hx & Hl2); [| lia..].
  assert (Hend : pt_section_size s2 = pt_section_size s1) by done.
  destruct (pt_image_add_dedup (set_sections (l1 ++ x :: l2) img) s2
              (Some asid) vaddr e1 l1 x l2) as (e2 & Hadd2 & He2);
    try done.
  { by rewrite Hend. }
  { by rewrite Hend, (identical_same_name s1 s2). }
  exists e2. repeat split; try done.
  intros Hd. eexists _, x. split; [reflexivity |].
  cbn [img_sections set_sections]. rewrite List.filter_app.
  rewrite filter_overlaps_passes by done. cbn [app List.filter].
  destruct (identical_overlaps _ _ _ _ _ Hx) as (-> & Hmx & _).
  f_equal. destruct Hl2 as [-> | Hl2]; [done |].
  apply filter_overlaps_passes. rewrite <- Hl2 in Hd.
  eapply Forall_impl; [exact (disjoint_for_after _ _ _ _ Hd Hmx) |].
  intros y Hy. by eapply disjoint_passes.
Qed.

(** C4, the claim as stated fails.  First: two address spaces map "/a" at
    [0, 0x10); adding "/a" there twice for every address space (the wildcard
    ASID) succeeds twice and leaves both elements, so that two elements, not
    one, match the asid and overlap the region.  Second: "/a" is added twice
    at the last page of the address space, where the end of the range wraps
    around to zero; the second add does not recognise the element of the
    first and appends another one. *)
Lemma pt_image_add_twice_two_entries :
  (let '(r1, image1, e1) :=
     pt_image_add_file (fst two_spaces) (Some "/a"%string) 0 0x10 None 0
       (snd two_spaces) in
   let '(r2, image2, e2) :=
     pt_image_add_file image1 (Some "/a"%string) 0 0x10 None 0 e1 in
   r1 = 0 /\ r2 = 0
   /\ summaries image2
      = [("/a"%string, 0, 0x10, 0, false); ("/a"%string, 0, 0x10, 0, false)]
   /\ option_map
        (fun img =>
           length (List.filter (overlaps (Some asid_any) 0 0x10)
                               (img_sections img))) image2
      = Some 2%nat)
  /\ (let '(r1, image1, e1) :=
        pt_image_add_file (Some image_init) (Some "/a"%string) 0 0x1000 None
          0xfffffffffffff000 (env_init data0) in
      let '(r2, image2, e2) :=
        pt_image_add_file image1 (Some "/a"%string) 0 0x1000 None
          0xfffffffffffff000 e1 in
      r1 = 0 /\ r2 = 0
      /\ summaries image1
         = [("/a"%string, 0, 0x1000, 0xfffffffffffff000, false)]
      /\ summaries image2
         = [("/a"%string, 0, 0x1000, 0xfffffffffffff000, false);
            ("/a"%string, 0, 0x1000, 0xfffffffffffff000, false)]).
Proof. vm_compute. by repeat split. Qed.

Lemma pt_image_add_idempotent_witness :
  let s := first_section "/a" 0 0x100 in
  let first :=
    pt_image_add (Some (image_init)) (Some s) (Some asid_any) 0
      (first_env "/a" 0 0x100) in
  pt_image_add (Some (image_init)) (Some s) (Some asid_any) 0
    (first_env "/a" 0 0x100) = (0, snd (fst first), snd first)
  /\ fst (malloc (snd first)) = false
  /\ live (snd first) s
  /\ disjoint_for (Some asid_any) (img_sections (image_init))
  /\ exists e2,
       pt_image_add (snd (fst first)) (Some s) (Some asid_any) 0 (snd first)
       = (0, snd (fst first), e2)
       /\ store e2 = store (snd first)
       /\ (disjoint_for (Some asid_any) (img_sections (image_init)) ->
           exists img1 x,
             snd (fst first) = Some img1
             /\ List.filter
                  (overlaps (Some asid_any) 0 (u64 (0 + pt_section_size s)))
                  (img_sections img1) = [x]).
Proof.
  cbv zeta.
  assert (H1 : pt_image_add (Some (image_init))
                 (Some (first_section "/a" 0 0x100)) (Some asid_any) 0
                 (first_env "/a" 0 0x100)
               = (0, snd (fst (pt_image_add (Some (image_init))
                                 (Some (first_section "/a" 0 0x100))
                                 (Some asid_any) 0 (first_env "/a" 0 0x100))),
                  snd (pt_image_add (Some (image_init))
                         (Some (first_section "/a" 0 0x100))
                         (Some asid_any) 0 (first_env "/a" 0 0x100))))
    by (vm_compute; reflexivity).
  assert (H2 : fst (malloc (snd (pt_image_add (Some (image_init))
                                   (Some (first_section "/a" 0 0x100))
                                   (Some asid_any) 0
                                   (first_env "/a" 0 0x100)))) = false)
    by (vm_compute; reflexivity).
  assert (H3 : live (snd (pt_image_add (Some (image_init))
                            (Some (first_section "/a" 0 0x100))
                            (Some asid_any) 0 (first_env "/a" 0 0x100)))
                 (first_section "/a" 0 0x100)).
  { exists {| ucount := 2; mcount := 0 |}. split; [vm_compute; reflexivity |].
    cbn. lia. }
  repeat (split; [done |]).
  apply (pt_image_add_idempotent (image_init)
           (first_section "/a" 0 0x100) (first_section "/a" 0 0x100)
           asid_any 0 (first_env "/a" 0 0x100)); try done; cbn; lia.
Defined.

(** ** pt_image_add: the identical overlap does not look at the file offset *)

(** C9 (as amended).  Let the image hold an element [x] and let a section
    with the file name and the size of the section of [x], at whatever file
    offset, be added at the vaddr of [x] with an asid that matches the ASID of
    [x].  If no element before [x] in the list matches the asid and overlaps
    the range, the add returns success, leaves the image as it is ([x] in
    place, nothing inserted) and drops the reference it took. *)
Theorem pt_image_add_identical_ignores_offset (img : pt_image)
    (l1 l2 : list pt_section_list) (x : pt_section_list)
    (section : pt_section) (asid : option pt_asid) (e : env) :
  let vaddr := msec_vaddr (sl_section x) in
  let end_ := u64 (vaddr + pt_section_size section) in
  img_sections img = l1 ++ x :: l2 ->
  Forall (fun y => passes asid vaddr end_ y = true) l1 ->
  (0 <? pt_msec_matches_asid (sl_section x) asid) = true ->
  sec_filename section = sec_filename (msec_section (sl_section x)) ->
  sec_size section = sec_size (msec_section (sl_section x)) ->
  0 <= vaddr -> 0 < sec_size section -> vaddr + sec_size section < 2 ^ 64 ->
  fst (malloc e) = false -> live e section ->
  exists e',
    pt_image_add (Some img) (Some section) asid vaddr e = (0, Some img, e')
    /\ store e' = store e.
Proof.
  cbn zeta. intros Hl Hl1 Hm Hname Hsize H1 H2 H3 Halloc Hlive.
  eapply pt_image_add_dedup; try done.
  unfold identical, pt_msec_begin, pt_msec_end, pt_section_size.
  rewrite Hm, Hname, <- Hsize, String.eqb_refl.
  rewrite !(u64_small (msec_vaddr _)), !(u64_small (_ + _)) by lia.
  rewrite !Z.eqb_refl.
  replace (_ + _ <=? _) with false by lia. done.
Qed.

(** C9, the claim as stated fails.  First: the image holds "/a" at [0, 0x10)
    in address space 1; a section of "/a" of the same size at another file
    offset, added at the same vaddr in address space 2, is inserted.  Second:
    in [two_files], a section of "/a" of the same size at another file offset
    is added at the vaddr of the element of "/a" with the wildcard ASID, which
    matches it; the element of "/x" before it overlaps and is taken out
    first, and the add fails with -pte_internal.  Third: the image holds "/a"
    at the last page of the address space, where the end of the range wraps
    around to zero; a section of "/a" of the same size at another file offset,
    added at the same vaddr and with the same ASID, is inserted. *)
Lemma pt_image_add_identical_needs_context :
  (let st := run_add_file "/a" 0 0x10 (user_asid 1) 0 state_init in
   let '(r, image, _) :=
     pt_image_add (fst st) (Some (next_section "/a" 0x100 0x10 st))
       (Some asid2) 0 (next_env "/a" 0x100 0x10 st) in
   summaries (fst st) = [("/a"%string, 0, 0x10, 0, false)]
   /\ r = 0
   /\ summaries image
      = [("/a"%string, 0, 0x10, 0, false);
         ("/a"%string, 0x100, 0x110, 0, false)])
  /\ (let st := two_files in
      let '(r, image, _) :=
        pt_image_add (fst st) (Some (next_section "/a" 0x100 0x10 st))
          (Some asid_any) 0 (next_env "/a" 0x100 0x10 st) in
      summaries (fst st)
      = [("/x"%string, 0, 0x20, 0, false); ("/a"%string, 0, 0x10, 0, false)]
      /\ r = - pte_internal
      /\ r <> 0)
  /\ (let st := top_page in
      let '(r, image, _) :=
        pt_image_add (fst st) (Some (next_section "/a" 0x100 0x1000 st))
          (Some asid_any) 0xfffffffffffff000
          (next_env "/a" 0x100 0x1000 st) in
      summaries (fst st)
      = [("/a"%string, 0, 0x1000, 0xfffffffffffff000, false)]
      /\ r = 0
      /\ summaries image
         = [("/a"%string, 0, 0x1000, 0xfffffffffffff000, false);
            ("/a"%string, 0x100, 0x1100, 0xfffffffffffff000, false)]).
Proof. vm_compute. by repeat split. Qed.

Lemma pt_image_add_identical_ignores_offset_witness :
  let st := run_add_file "/a" 0 0x10 (user_asid 1) 0 state_init in
  let img := default (image_init) (fst st) in
  let x := entry_of (first_section "/a" 0 0x10) asid1 0 false in
  let section := next_section "/a" 0x100 0x10 st in
  let e := next_env "/a" 0x100 0x10 st in
  img_sections img = [] ++ x :: []
  /\ sec_offset section <> sec_offset (msec_section (sl_section x))
  /\ exists e',
       pt_image_add (Some img) (Some section) (Some asid1) 0 e
       = (0, Some img, e')
       /\ store e' = store e.
Proof.
  cbv zeta. split; [vm_compute; reflexivity |]. split; [vm_compute; congruence |].
  apply (pt_image_add_identical_ignores_offset
           (default (image_init)
              (fst (run_add_file "/a" 0 0x10 (user_asid 1) 0 state_init)))
           [] []
           (entry_of (first_section "/a" 0 0x10) asid1 0 false)
           (next_section "/a" 0x100 0x10
              (run_add_file "/a" 0 0x10 (user_asid 1) 0 state_init))
           (Some asid1)
           (next_env "/a" 0x100 0x10
              (run_add_file "/a" 0 0x10 (user_asid 1) 0 state_init))).
  - vm_compute. reflexivity.
  - constructor.
  - vm_compute. reflexivity.
  - reflexivity.
  - reflexivity.
  - vm_compute. congruence.
  - vm_compute. reflexivity.
  - vm_compute. reflexivity.
  - vm_compute. reflexivity.
  - exists {| ucount := 1; mcount := 0 |}. split; [vm_compute; reflexivity |].
    cbn. lia.
Defined.

(** ** pt_image_add: NULL arguments *)

(** C10 (as amended).  [pt_image_add] returns -pte_internal when the image
    or the section is NULL.  Its own argument check does not test [asid]:
    with a NULL asid the element is created, with the wildcard ASID; on an
    image without elements the add then succeeds and inserts it, while on an
    image with elements the ASID match of the first element reports
    -pte_internal, which the add returns, leaving the image as it was and
    dropping the reference. *)
Theorem pt_image_add_null_arguments (img : pt_image) (section : pt_section)
    (vaddr : Z) (e : env) :
  fst (malloc e) = false -> live e section ->
  (forall s a v, pt_image_add None s a v e = (- pte_internal, None, e))
  /\ (forall i a v, pt_image_add i None a v e = (- pte_internal, i, e))
  /\ exists e1,
       pt_mk_section_list section None vaddr e
       = (Some (entry_of section pt_asid_init vaddr false), e1)
       /\ (img_sections img = [] ->
           pt_image_add (Some img) (Some section) None vaddr e
           = (0,
              Some (set_sections [entry_of section pt_asid_init vaddr false] img),
              e1))
       /\ (img_sections img <> [] ->
           exists e2,
             pt_image_add (Some img) (Some section) None vaddr e
             = (- pte_internal, Some img, e2)
             /\ store e2 = store e).
Proof.
  intros Hm Hlive. split; [done |]. split; [by intros [i |] |].
  destruct (pt_mk_section_list_ok section None vaddr e Hm Hlive)
    as (e1 & Hmk & Hfree).
  exists e1. split; [exact Hmk |]. unfold pt_image_add. rewrite Hmk. split.
  - intros ->. reflexivity.
  - destruct (img_sections img) as [| x tl] eqn:Hs; [done |]. intros _.
    cbn [pt_image_add_loop]. rewrite pt_msec_matches_asid_none.
    change (- pte_internal <? 0) with true.
    cbn [as_errcode as_kept as_rest as_removed as_next as_env].
    change (- pte_internal <? 0) with true. cbv iota.
    eexists. split.
    + cbn [app]. rewrite app_nil_r, <- Hs. by rewrite set_sections_same.
    + cbn [pt_section_list_free_tail]. by apply Hfree.
Qed.

(** C10, the claim as stated fails: on an image that holds an element, an add
    with a NULL asid is rejected with -pte_internal, on account of the NULL
    asid, and the image is as before. *)
Lemma pt_image_add_null_asid_rejected :
  let st := run_add_file "/a" 0 0x10 None 0 state_init in
  let '(r, image, _) :=
    pt_image_add (fst st) (Some (next_section "/b" 0 0x10 st)) None 0x100
      (next_env "/b" 0 0x10 st) in
  let '(r', image', _) :=
    pt_image_add (fst st) (Some (next_section "/b" 0 0x10 st))
      (Some asid_any) 0x100 (next_env "/b" 0 0x10 st) in
  r = - pte_internal /\ image = fst st
  /\ r' = 0 /\ length (summaries image') = 2%nat.
Proof. vm_compute. by repeat split. Qed.

Lemma pt_image_add_null_arguments_witness :
  let img := image_init in
  let section := first_section "/a" 0 0x10 in
  let e := first_env "/a" 0 0x10 in
  fst (malloc e) = false /\ live e section
  /\ pt_image_add (Some img) (Some section) None 0 e
     = (0, Some (set_sections [entry_of section pt_asid_init 0 false] img),
        snd (pt_mk_section_list section None 0 e)).
Proof.
  cbv zeta.
  assert (H1 : fst (malloc (first_env "/a" 0 0x10)) = false)
    by (vm_compute; reflexivity).
  assert (H2 : live (first_env "/a" 0 0x10) (first_section "/a" 0 0x10)).
  { exists {| ucount := 1; mcount := 0 |}. split; [vm_compute; reflexivity |].
    cbn. lia. }
  split; [exact H1 |]. split; [exact H2 |].
  destruct (pt_image_add_null_arguments (image_init)
              (first_section "/a" 0 0x10) 0 (first_env "/a" 0 0x10) H1 H2)
    as (_ & _ & e1 & Hmk & Hempty & _).
  rewrite Hmk. cbn [snd]. by apply Hempty.
Defined.

(** ** pt_image_read: the callback *)

Lemma pt_msec_read_mapped_miss asid addr x buffer size e :
  covers asid addr x = false ->
  pt_msec_read_mapped (sl_section x) buffer size (Some asid) addr e
  = (- pte_nomap, buffer).
Proof.
  unfold covers, pt_msec_read_mapped. cbn zeta.
  unfold pt_msec_matches_asid.
  destruct (pt_asid_match_some (msec_asid (sl_section x)) asid) as [-> | ->];
    [done |].
  change (0 <? 1) with true. change (1 <? 0) with false.
  change (1 =? 0) with false. cbv iota. rewrite andb_true_l. intros H.
  replace ((addr <? pt_msec_begin (sl_section x))
           || (pt_msec_end (sl_section x) <=? addr)) with true; [done |].
  symmetry. apply andb_false_iff in H as [H | H]; lia.
Qed.

Lemma map_unmap_restores (s : pt_section) (e : env) :
  map_err e = [] -> unmap_err e = [] ->
  is_Some (store e !! sec_id s) ->
  exists e1,
    pt_section_map s e = (0, e1)
    /\ (forall st, store e !! sec_id s = Some st ->
                   store e1 !! sec_id s
                   = Some {| ucount := ucount st; mcount := S (mcount st) |})
    /\ pt_section_unmap s e1 = (0, e).
Proof.
  intros Hmap Hunmap [st Hst].
  unfold pt_section_map, next_map_err. rewrite Hst, Hmap.
  change (0 <? 0) with false. cbv iota.
  eexists. split; [reflexivity |]. split.
  - intros st' Hst'. cbn [store set_store]. rewrite lookup_insert_eq.
    congruence.
  - unfold pt_section_unmap, next_unmap_err. cbn [store set_store unmap_err].
    rewrite lookup_insert_eq. cbn [mcount ucount]. rewrite Hunmap.
    change (0 <? 0) with false. cbv iota. f_equal.
    unfold set_store. cbn [store next_id alloc_fail map_err unmap_err file_data].
    rewrite insert_insert_eq, insert_id by (rewrite Hst; by destruct st).
    by destruct e.
Qed.

Lemma pt_image_read_cold_loop_miss img asid addr size rest :
  forall before buffer e,
    Forall (fun x => covers asid addr x = false) rest ->
    Forall (in_store e) rest ->
    map_err e = [] -> unmap_err e = [] ->
    pt_image_read_cold_loop img before rest buffer size (Some asid) addr e
    = (fst (pt_image_read_callback (Some img) buffer size (Some asid) addr),
       img,
       snd (pt_image_read_callback (Some img) buffer size (Some asid) addr),
       e).
Proof.
  induction rest as [| x tl IH]; intros before buffer e Hmiss Hstore Hmap Hunmap.
  - cbn [pt_image_read_cold_loop].
    by destruct (pt_image_read_callback _ _ _ _ _).
  - apply Forall_cons in Hmiss as [Hx Hmiss].
    apply Forall_cons in Hstore as [Hsx Hstore].
    cbn [pt_image_read_cold_loop]. destruct (sl_mapped x); cbn [negb].
    + change (0 <? 0) with false. cbv iota.
      rewrite pt_msec_read_mapped_miss by done.
      change (- pte_nomap <? 0) with true. cbv iota.
      change (0 <? 0) with false. cbv iota. by apply IH.
    + destruct (map_unmap_restores (msec_section (sl_section x)) e)
        as (e1 & -> & _ & Hun); try done.
      change (0 <? 0) with false. cbv iota.
      rewrite pt_msec_read_mapped_miss by done.
      change (- pte_nomap <? 0) with true. cbv iota. rewrite Hun.
      change (0 <? 0) with false. cbv iota. by apply IH.
Qed.

Lemma pt_image_read_loop_miss img asid addr size rest :
  forall before buffer e,
    Forall (fun x => covers asid addr x = false) rest ->
    Forall (in_store e) rest ->
    map_err e = [] -> unmap_err e = [] ->
    pt_image_read_loop img before rest buffer size (Some asid) addr e
    = (fst (pt_image_read_callback (Some img) buffer size (Some asid) addr),
       Some img,
       snd (pt_image_read_callback (Some img) buffer size (Some asid) addr),
       e).
Proof.
  induction rest as [| x tl IH]; intros before buffer e Hmiss Hstore Hmap Hunmap.
  - cbn [pt_image_read_loop]. unfold pt_image_read_cold.
    by rewrite pt_image_read_cold_loop_miss.
  - cbn [pt_image_read_loop]. destruct (sl_mapped x) eqn:Hx; cbn [negb].
    + apply Forall_cons in Hmiss as [Hmx Hmiss].
      apply Forall_cons in Hstore as [_ Hstore].
      rewrite pt_msec_read_mapped_miss by done.
      change (- pte_nomap <? 0) with true. cbv iota. by apply IH.
    + unfold pt_image_read_cold.
      by rewrite pt_image_read_cold_loop_miss.
Qed.

Lemma drawn_0 (e : env) : drawn 0 0 e = e.
Proof. by destruct e. Qed.

Lemma drawn_drawn (km ku km' ku' : nat) (e : env) :
  drawn km' ku' (drawn km ku e) = drawn (km + km') (ku + ku') e.
Proof. unfold drawn. cbn [store next_id alloc_fail map_err unmap_err file_data]. by rewrite !drop_drop. Qed.

Lemma drawn_none (km ku : nat) (e : env) :
  map_err e = [] -> unmap_err e = [] -> drawn km ku e = e.
Proof. destruct e. cbn. intros -> ->. unfold drawn. cbn. by rewrite !drop_nil. Qed.

Lemma succeed_S (n : nat) (outcomes : list Z) :
  succeed (S n) outcomes ->
  (forall r, head outcomes = Some r -> 0 <= r)
  /\ succeed n (drop 1 outcomes).
Proof.
  unfold succeed. destruct outcomes as [| r l]; cbn [take drop head].
  - split; [done |]. by rewrite take_nil.
  - intros H. apply Forall_cons in H as [Hr H]. by split; [intros ? [= <-] |].
Qed.

Lemma succeed_le (n m : nat) (outcomes : list Z) :
  (n <= m)%nat -> succeed m outcomes -> succeed n outcomes.
Proof.
  unfold succeed. intros Hnm H.
  replace (take n outcomes) with (take n (take m outcomes))
    by (rewrite take_take; f_equal; lia).
  by apply Forall_take.
Qed.

Lemma pt_section_map_drawn (s : pt_section) (e : env) (st : sec_state) :
  store e !! sec_id s = Some st ->
  (forall r, head (map_err e) = Some r -> 0 <= r) ->
  pt_section_map s e
  = (0, set_store (<[sec_id s := {| ucount := ucount st;
                                    mcount := S (mcount st) |}]> (store e))
          (drawn 1 0 e)).
Proof.
  intros Hst Hr. unfold pt_section_map, next_map_err. rewrite Hst.
  destruct (map_err e) as [| r l] eqn:Hm.
  - change (0 <? 0) with false. cbv iota. do 2 f_equal.
    unfold drawn. rewrite Hm. by destruct e; cbn in *; subst.
  - specialize (Hr r eq_refl). replace (r <? 0) with false by lia.
    by unfold drawn; rewrite Hm.
Qed.

Lemma pt_section_map_fails (s : pt_section) (e : env) (st : sec_state)
    (r : Z) :
  store e !! sec_id s = Some st ->
  head (map_err e) = Some r -> r < 0 ->
  pt_section_map s e = (r, drawn 1 0 e).
Proof.
  intros Hst Hh Hr. unfold pt_section_map, next_map_err. rewrite Hst.
  destruct (map_err e) as [| r' l] eqn:Hm; [done |]. injection Hh as ->.
  replace (r <? 0) with true by lia. by unfold drawn; rewrite Hm.
Qed.

Lemma pt_section_unmap_drawn (s : pt_section) (e : env) (u m : nat) :
  store e !! sec_id s = Some {| ucount := u; mcount := S m |} ->
  (forall r, head (unmap_err e) = Some r -> 0 <= r) ->
  pt_section_unmap s e
  = (0, set_store (<[sec_id s := {| ucount := u; mcount := m |}]> (store e))
          (drawn 0 1 e)).
Proof.
  intros Hst Hr. unfold pt_section_unmap, next_unmap_err. rewrite Hst.
  cbn [mcount ucount].
  destruct (unmap_err e) as [| r l] eqn:Hm.
  - change (0 <? 0) with false. cbv iota. do 2 f_equal.
    unfold drawn. rewrite Hm. by destruct e; cbn in *; subst.
  - specialize (Hr r eq_refl). replace (r <? 0) with false by lia.
    by unfold drawn; rewrite Hm.
Qed.

Lemma pt_section_unmap_fails (s : pt_section) (e : env) (u m : nat) (r : Z) :
  store e !! sec_id s = Some {| ucount := u; mcount := S m |} ->
  head (unmap_err e) = Some r -> r < 0 ->
  pt_section_unmap s e = (r, drawn 0 1 e).
Proof.
  intros Hst Hh Hr. unfold pt_section_unmap, next_unmap_err. rewrite Hst.
  cbn [mcount].
  destruct (unmap_err e) as [| r' l] eqn:Hm; [done |]. injection Hh as ->.
  replace (r <? 0) with true by lia. by unfold drawn; rewrite Hm.
Qed.

Lemma map_unmap_drawn (s : pt_section) (e : env) (st : sec_state) :
  store e !! sec_id s = Some st ->
  set_store (<[sec_id s := st]>
               (<[sec_id s := {| ucount := ucount st;
                                 mcount := S (mcount st) |}]> (store e)))
    (drawn 0 1 (set_store (<[sec_id s := {| ucount := ucount st;
                                            mcount := S (mcount st) |}]>
                             (store e)) (drawn 1 0 e)))
  = drawn 1 1 e.
Proof.
  intros Hst. unfold set_store, drawn.
  cbn [store next_id alloc_fail map_err unmap_err file_data].
  by rewrite insert_insert_eq, insert_id.
Qed.

Lemma count_unmapped_cons (x : pt_section_list) (l : list pt_section_list) :
  count_unmapped (x :: l)
  = if sl_mapped x then count_unmapped l else S (count_unmapped l).
Proof. unfold count_unmapped. cbn [List.filter]. by destruct (sl_mapped x). Qed.

Lemma pt_image_read_cold_loop_skip_drawn image size asid addr l1 :
  forall before rest buffer e,
    Forall (fun y => covers asid addr y = false) l1 ->
    Forall (in_store e) l1 ->
    succeed (count_unmapped l1) (map_err e) ->
    succeed (count_unmapped l1) (unmap_err e) ->
    pt_image_read_cold_loop image before (l1 ++ rest) buffer size (Some asid)
      addr e
    = pt_image_read_cold_loop image (before ++ l1) rest buffer size (Some asid)
        addr (drawn (count_unmapped l1) (count_unmapped l1) e).
Proof.
  induction l1 as [| y l1 IH]; intros before rest buffer e Hmiss Hstore Hm Hu.
  - by rewrite app_nil_r, drawn_0.
  - apply Forall_cons in Hmiss as [Hy Hmiss].
    apply Forall_cons in Hstore as [[st Hst] Hstore].
    rewrite count_unmapped_cons in *.
    cbn [app pt_image_read_cold_loop]. destruct (sl_mapped y); cbn [negb].
    + change (0 <? 0) with false. cbv iota.
      rewrite pt_msec_read_mapped_miss by done.
      change (- pte_nomap <? 0) with true. cbv iota.
      change (0 <? 0) with false. cbv iota.
      rewrite IH by done. by rewrite <- app_assoc.
    + apply succeed_S in Hm as [Hm1 Hm]. apply succeed_S in Hu as [Hu1 Hu].
      rewrite (pt_section_map_drawn _ e st Hst Hm1).
      change (0 <? 0) with false. cbv iota.
      rewrite pt_msec_read_mapped_miss by done.
      change (- pte_nomap <? 0) with true. cbv iota.
      rewrite (pt_section_unmap_drawn _ _ (ucount st) (mcount st));
        [| by cbn [store set_store]; rewrite lookup_insert_eq | done].
      change (0 <? 0) with false. cbv iota.
      cbn [store set_store drawn].
      replace {| ucount := ucount st; mcount := mcount st |} with st
        by (by destruct st).
      rewrite (map_unmap_drawn _ e st Hst).
      rewrite IH; [| done | done | done | done].
      by rewrite drawn_drawn, <- app_assoc.
Qed.

Lemma pt_image_read_loop_to_cold_drawn image size asid addr l1 :
  forall before rest buffer e,
    Forall (fun y => covers asid addr y = false) l1 ->
    Forall (in_store e) l1 ->
    succeed (count_unmapped l1) (map_err e) ->
    succeed (count_unmapped l1) (unmap_err e) ->
    match rest with [] => True | x :: _ => sl_mapped x = false end ->
    pt_image_read_loop image before (l1 ++ rest) buffer size (Some asid)
      addr e
    = pt_image_read_cold (Some image) (before ++ l1) rest buffer size
        (Some asid) addr (drawn (count_unmapped l1) (count_unmapped l1) e).
Proof.
  induction l1 as [| y l1 IH];
    intros before rest buffer e Hmiss Hstore Hm Hu Hx.
  - rewrite app_nil_r, drawn_0. cbn [app].
    destruct rest as [| x tl]; cbn [pt_image_read_loop]; [done |].
    by rewrite Hx.
  - cbn [app pt_image_read_loop]. destruct (sl_mapped y) eqn:Hy; cbn [negb].
    + apply Forall_cons in Hmiss as [Hmy Hmiss].
      apply Forall_cons in Hstore as [_ Hstore].
      rewrite count_unmapped_cons, Hy in *.
      rewrite pt_msec_read_mapped_miss by done.
      change (- pte_nomap <? 0) with true. cbv iota.
      rewrite IH by done. by rewrite <- app_assoc.
    + unfold pt_image_read_cold.
      change (y :: l1 ++ rest) with ((y :: l1) ++ rest).
      by rewrite pt_image_read_cold_loop_skip_drawn.
Qed.

Lemma succeed_lookup (n i : nat) (outcomes : list Z) (r : Z) :
  succeed n outcomes -> (i < n)%nat -> outcomes !! i = Some r -> 0 <= r.
Proof.
  unfold succeed. intros H Hi Hr.
  eapply (Forall_lookup_1 _ _ i r) in H; [done |].
  by rewrite lookup_take_lt.
Qed.

Lemma head_drawn_map (km ku : nat) (e : env) :
  head (map_err (drawn km ku e)) = map_err e !! km.
Proof.
  cbn [drawn map_err]. by rewrite head_lookup, lookup_drop, Nat.add_0_r.
Qed.

Lemma head_drawn_unmap (km ku : nat) (e : env) :
  head (unmap_err (drawn km ku e)) = unmap_err e !! ku.
Proof.
  cbn [drawn unmap_err]. by rewrite head_lookup, lookup_drop, Nat.add_0_r.
Qed.

Lemma pt_image_read_miss_drawn img buffer size asid addr e :
  Forall (fun x => covers asid addr x = false) (img_sections img) ->
  Forall (in_store e) (img_sections img) ->
  succeed (count_unmapped (img_sections img)) (map_err e) ->
  succeed (count_unmapped (img_sections img)) (unmap_err e) ->
  pt_image_read (Some img) buffer size (Some asid) addr e
  = (fst (pt_image_read_callback (Some img) buffer size (Some asid) addr),
     Some img,
     snd (pt_image_read_callback (Some img) buffer size (Some asid) addr),
     drawn (count_unmapped (img_sections img))
       (count_unmapped (img_sections img)) e).
Proof.
  intros Hmiss Hstore Hm Hu. unfold pt_image_read.
  rewrite <- (app_nil_r (img_sections img)) at 1.
  rewrite pt_image_read_loop_to_cold_drawn by done.
  unfold pt_image_read_cold. cbn [pt_image_read_cold_loop].
  by destruct (pt_image_read_callback _ _ _ _ _).
Qed.

Lemma pt_image_read_map_fails img buffer size asid addr e l1 x l2 r :
  Forall (fun x => covers asid addr x = false) (img_sections img) ->
  Forall (in_store e) (img_sections img) ->
  img_sections img = l1 ++ x :: l2 ->
  sl_mapped x = false ->
  succeed (count_unmapped l1) (map_err e) ->
  succeed (count_unmapped l1) (unmap_err e) ->
  map_err e !! count_unmapped l1 = Some r ->
  r < 0 ->
  pt_image_read (Some img) buffer size (Some asid) addr e
  = (r, Some img, buffer,
     drawn (S (count_unmapped l1)) (count_unmapped l1) e).
Proof.
  intros Hmiss Hstore Hl Hx Hm Hu Hr Hneg. unfold pt_image_read.
  rewrite Hl in *.
  apply Forall_app in Hmiss as [Hmiss1 _].
  apply Forall_app in Hstore as [Hstore1 Hstore2].
  apply Forall_cons in Hstore2 as [[st Hst] _].
  rewrite pt_image_read_loop_to_cold_drawn by done.
  unfold pt_image_read_cold. cbn [pt_image_read_cold_loop].
  rewrite Hx. cbn [negb].
  rewrite (pt_section_map_fails _ _ st r);
    [| done | by rewrite head_drawn_map | done].
  replace (r <? 0) with true by lia.
  by rewrite drawn_drawn, Nat.add_1_r, Nat.add_0_r.
Qed.

Lemma pt_image_read_unmap_fails img buffer size asid addr e l1 x l2 r st :
  Forall (fun x => covers asid addr x = false) (img_sections img) ->
  Forall (in_store e) (img_sections img) ->
  img_sections img = l1 ++ x :: l2 ->
  sl_mapped x = false ->
  store e !! sec_id (msec_section (sl_section x)) = Some st ->
  succeed (S (count_unmapped l1)) (map_err e) ->
  succeed (count_unmapped l1) (unmap_err e) ->
  unmap_err e !! count_unmapped l1 = Some r ->
  r < 0 ->
  pt_image_read (Some img) buffer size (Some asid) addr e
  = (r, Some img, buffer,
     set_store (<[sec_id (msec_section (sl_section x)) :=
                    {| ucount := ucount st; mcount := S (mcount st) |}]>
                  (store e))
       (drawn (S (count_unmapped l1)) (S (count_unmapped l1)) e)).
Proof.
  intros Hmiss Hstore Hl Hx Hst Hm Hu Hr Hneg. unfold pt_image_read.
  rewrite Hl in *.
  apply Forall_app in Hmiss as [Hmiss1 Hmiss2].
  apply Forall_cons in Hmiss2 as [Hmx _].
  apply Forall_app in Hstore as [Hstore1 _].
  rewrite pt_image_read_loop_to_cold_drawn;
    [| done | done | by eapply succeed_le; [| exact Hm]; lia | done | done].
  unfold pt_image_read_cold. cbn [pt_image_read_cold_loop].
  rewrite Hx. cbn [negb].
  rewrite (pt_section_map_drawn _ _ st); [| done |].
  2:{ intros r0 Hr0. rewrite head_drawn_map in Hr0.
      eapply succeed_lookup; [exact Hm | | exact Hr0]. lia. }
  change (0 <? 0) with false. cbv iota.
  rewrite pt_msec_read_mapped_miss by done.
  change (- pte_nomap <? 0) with true. cbv iota.
  rewrite (pt_section_unmap_fails _ _ (ucount st) (mcount st) r);
    [| by cbn [store set_store]; rewrite lookup_insert_eq
     | by cbn [set_store unmap_err]; rewrite drawn_drawn, head_drawn_unmap,
         Nat.add_0_r
     | done].
  replace (r <? 0) with true by lia. do 3 f_equal.
  unfold set_store, drawn.
  cbn [store next_id alloc_fail map_err unmap_err file_data].
  rewrite !drop_drop. do 2 f_equal; f_equal; lia.
Qed.

(** C8 (as amended).  A read with an asid in which no element of the image
    contains the address in a matching address space (the sections of the
    elements being in the store) maps and unmaps the elements that are not
    mapped, one after the other in list order.  If none of these maps and
    unmaps fails, the callback is called with the buffer, the size, the asid,
    the address and the context, and its result is the result of the read;
    without a callback the read returns -pte_nomap; the image is left as it
    was and so is the environment, but for the outcomes drawn.  If the map of
    an element fails, or its unmap, the read returns that error at once: the
    callback is not called, the buffer is not written, and after a failed
    unmap the section is left mapped. *)
Theorem pt_image_read_callback_fallback (img : pt_image) (buffer : list Z)
    (size : Z) (asid : pt_asid) (addr : Z) (e : env) :
  Forall (fun x => covers asid addr x = false) (img_sections img) ->
  Forall (in_store e) (img_sections img) ->
  (map_err e = [] -> unmap_err e = [] ->
   pt_image_read (Some img) buffer size (Some asid) addr e
   = match img_callback img with
     | Some callback =>
         let '(r, buffer') :=
           callback buffer size (Some asid) addr (img_context img) in
         (r, Some img, buffer', e)
     | None => (- pte_nomap, Some img, buffer, e)
     end)
  /\ (succeed (count_unmapped (img_sections img)) (map_err e) ->
      succeed (count_unmapped (img_sections img)) (unmap_err e) ->
      pt_image_read (Some img) buffer size (Some asid) addr e
      = match img_callback img with
        | Some callback =>
            let '(r, buffer') :=
              callback buffer size (Some asid) addr (img_context img) in
            (r, Some img, buffer',
             drawn (count_unmapped (img_sections img))
               (count_unmapped (img_sections img)) e)
        | None =>
            (- pte_nomap, Some img, buffer,
             drawn (count_unmapped (img_sections img))
               (count_unmapped (img_sections img)) e)
        end)
  /\ (forall l1 x l2 r,
        img_sections img = l1 ++ x :: l2 ->
        sl_mapped x = false ->
        succeed (count_unmapped l1) (map_err e) ->
        succeed (count_unmapped l1) (unmap_err e) ->
        map_err e !! count_unmapped l1 = Some r ->
        r < 0 ->
        pt_image_read (Some img) buffer size (Some asid) addr e
        = (r, Some img, buffer,
           drawn (S (count_unmapped l1)) (count_unmapped l1) e))
  /\ (forall l1 x l2 r st,
        img_sections img = l1 ++ x :: l2 ->
        sl_mapped x = false ->
        store e !! sec_id (msec_section (sl_section x)) = Some st ->
        succeed (S (count_unmapped l1)) (map_err e) ->
        succeed (count_unmapped l1) (unmap_err e) ->
        unmap_err e !! count_unmapped l1 = Some r ->
        r < 0 ->
        pt_image_read (Some img) buffer size (Some asid) addr e
        = (r, Some img, buffer,
           set_store (<[sec_id (msec_section (sl_section x)) :=
                          {| ucount := ucount st; mcount := S (mcount st) |}]>
                        (store e))
             (drawn (S (count_unmapped l1)) (S (count_unmapped l1)) e))).
Proof.
  intros Hmiss Hstore. split; [| split; [| split]].
  - intros Hmap Hunmap. unfold pt_image_read.
    rewrite pt_image_read_loop_miss by done.
    unfold pt_image_read_callback.
    destruct (img_callback img) as [callback |]; [| done].
    by destruct (callback _ _ _ _ _).
  - intros Hm Hu. rewrite pt_image_read_miss_drawn by done.
    unfold pt_image_read_callback.
    destruct (img_callback img) as [callback |]; [| done].
    by destruct (callback _ _ _ _ _).
  - intros l1 x l2 r Hl Hx Hm Hu Hr Hneg.
    by eapply pt_image_read_map_fails.
  - intros l1 x l2 r st Hl Hx Hst Hm Hu Hr Hneg.
    by eapply pt_image_read_unmap_fails.
Qed.

(** C8, the claim as stated fails: no element contains the address 0x1234
    and a callback is set, but the file of the first element cannot be
    mapped; the read returns the error of the map, not the result of the
    callback, and the buffer is untouched. *)
Lemma pt_image_read_map_failure_no_callback :
  let st := fallback_state in
  let '(r, _, buffer, _) :=
    pt_image_read (fst st) [0; 0; 0; 0] 4 (Some asid_any) 0x1234
      (set_map_err [- pte_bad_image] (snd st)) in
  option_map (fun img =>
                List.forallb (fun x => negb (covers asid_any 0x1234 x))
                             (img_sections img)) (fst st) = Some true
  /\ callback_ab [0; 0; 0; 0] 4 (Some asid_any) 0x1234 0
     = (1, [0xAB; 0; 0; 0])
  /\ r = - pte_bad_image
  /\ buffer = [0; 0; 0; 0].
Proof. vm_compute. by repeat split. Qed.

Lemma pt_image_read_callback_fallback_witness :
  let img := default (image_init) (fst fallback_state) in
  let e := snd fallback_state in
  Forall (fun x => covers asid_any 0x1234 x = false) (img_sections img)
  /\ Forall (in_store e) (img_sections img)
  /\ map_err e = [] /\ unmap_err e = []
  /\ pt_image_read (Some img) [0; 0; 0; 0] 4 (Some asid_any) 0x1234 e
     = (1, Some img, [0xAB; 0; 0; 0], e)
  /\ pt_image_read (Some img) [0; 0; 0; 0] 4 (Some asid_any) 0x1234
       (set_map_err [- pte_bad_image] e)
     = (- pte_bad_image, Some img, [0; 0; 0; 0],
        drawn 1 0 (set_map_err [- pte_bad_image] e))
  /\ pt_image_read (Some img) [0; 0; 0; 0] 4 (Some asid_any) 0x1234
       (set_unmap_err [- pte_nomap] e)
     = (- pte_nomap, Some img, [0; 0; 0; 0],
        set_store (<[1%positive := {| ucount := 1; mcount := 1 |}]> (store e))
          (drawn 1 1 (set_unmap_err [- pte_nomap] e))).
Proof.
  cbv zeta.
  assert (H1 : Forall (fun x => covers asid_any 0x1234 x = false)
                 (img_sections (default (image_init)
                                  (fst fallback_state))))
    by (repeat constructor).
  assert (H2 : forall e,
             store e = store (snd fallback_state) ->
             Forall (in_store e)
               (img_sections (default (image_init) (fst fallback_state)))).
  { intros e He. repeat constructor. exists {| ucount := 1; mcount := 0 |}.
    unfold in_store. rewrite He. vm_compute. reflexivity. }
  assert (H3 : map_err (snd fallback_state) = []) by reflexivity.
  assert (H4 : unmap_err (snd fallback_state) = []) by reflexivity.
  assert (Hl : img_sections (default (image_init) (fst fallback_state))
               = [] ++ entry_of (first_section "/a" 0 0x10) asid_any 0x1000
                         false :: [])
    by (vm_compute; reflexivity).
  split; [assumption |]. split; [exact (H2 _ eq_refl) |].
  repeat (split; [assumption |]).
  split; [| split].
  - exact (proj1 (pt_image_read_callback_fallback _ [0; 0; 0; 0] 4 asid_any
                    0x1234 _ H1 (H2 _ eq_refl)) H3 H4).
  - apply (proj1 (proj2 (proj2 (pt_image_read_callback_fallback _ [0; 0; 0; 0]
                                  4 asid_any 0x1234
                                  (set_map_err [- pte_bad_image]
                                     (snd fallback_state))
                                  H1 (H2 _ eq_refl))))
             [] _ [] (- pte_bad_image) Hl eq_refl);
      [constructor | constructor | reflexivity | reflexivity].
  - apply (proj2 (proj2 (proj2 (pt_image_read_callback_fallback _ [0; 0; 0; 0]
                                  4 asid_any 0x1234
                                  (set_unmap_err [- pte_nomap]
                                     (snd fallback_state))
                                  H1 (H2 _ eq_refl))))
             [] _ [] (- pte_nomap) {| ucount := 1; mcount := 0 |} Hl eq_refl);
      [vm_compute; reflexivity | constructor | constructor | reflexivity
       | reflexivity].
Defined.

(** ** Scenarios *)

Lemma pt_msec_matches_asid_same section asid vaddr :
  pt_msec_matches_asid
    {| msec_section := section; msec_asid := asid; msec_vaddr := vaddr |}
    (Some asid) = 1.
Proof. apply pt_asid_match_refl. Qed.

Ltac vm_eval t := let x := eval vm_compute in t in change t with x.

Lemma pt_image_add_file_first data filename offset size uasid asid0 vaddr :
  pt_asid_from_user uasid = (0, asid0) ->
  size <> 0 ->
  pt_image_add_file (Some (image_init)) (Some filename) offset size
    uasid vaddr (env_init data)
  = (0,
     Some (set_sections
             [entry_of (first_section filename offset size) asid0 vaddr false]
             (image_init)),
     {| store := {[ 1%positive := {| ucount := 1; mcount := 0 |} ]};
        next_id := 2%positive; alloc_fail := []; map_err := [];
        unmap_err := []; file_data := data |}).
Proof.
  intros Hu Hsize. unfold pt_image_add_file. rewrite Hu.
  change (0 <? 0) with false. cbv iota.
  unfold pt_mk_section. apply Z.eqb_neq in Hsize. rewrite Hsize.
  cbn [malloc env_init alloc_fail next_id store map_err unmap_err file_data].
  unfold pt_image_add, pt_mk_section_list, pt_section_get.
  cbn [malloc alloc_fail store sec_id]. rewrite lookup_insert_eq.
  unfold image_init, pt_image_init, dupstr.
  cbn [fst img_sections pt_image_add_loop as_errcode as_kept
       as_next as_removed as_env as_rest pt_section_list_free_tail app
       ucount mcount].
  change (0 <? 0) with false. cbv iota.
  unfold pt_section_put. cbn [set_store store sec_id].
  rewrite lookup_insert_eq. cbn [ucount mcount].
  change (0 <? 0) with false. cbv iota.
  rewrite insert_insert_eq, insert_insert_eq. reflexivity.
Qed.

(** C3.  Overlap split: on an empty image, add_file("/a", 0, 0x1000, asid0,
    0x10000) followed by add_file("/b", 0, 0x100, asid0, 0x10400) both
    succeed, and the image then holds exactly three elements, none of them
    mapped and all in asid0: "/a" with file range [0x500, 0x1000) at
    0x10500, "/a" with file range [0, 0x400) at 0x10000, and "/b" in full at
    0x10400 (this is their order in the list). *)
Theorem overlap_split (data : string -> Z -> Z)
    (uasid : option pt_asid_user) (asid0 : pt_asid) :
  pt_asid_from_user uasid = (0, asid0) ->
  let first :=
    pt_image_add_file (Some (image_init)) (Some "/a"%string)
      0 0x1000 uasid 0x10000 (env_init data) in
  let second :=
    pt_image_add_file (snd (fst first)) (Some "/b"%string)
      0 0x100 uasid 0x10400 (snd first) in
  fst (fst first) = 0
  /\ fst (fst second) = 0
  /\ summaries (snd (fst second))
     = [("/a"%string, 0x500, 0x1000, 0x10500, false);
        ("/a"%string, 0, 0x400, 0x10000, false);
        ("/b"%string, 0, 0x100, 0x10400, false)]
  /\ option_map (fun img =>
                   List.map (fun x => msec_asid (sl_section x))
                            (img_sections img)) (snd (fst second))
     = Some [asid0; asid0; asid0].
Proof.
  intros Hu. cbv zeta.
  rewrite (pt_image_add_file_first data "/a" 0 0x1000 uasid asid0 0x10000 Hu)
    by done.
  cbn [fst snd]. split; [done |].
  unfold pt_image_add_file. rewrite Hu.
  change (0 <? 0) with false. cbv iota.
  match goal with
  | |- context [pt_mk_section ?a ?b ?c ?d] => vm_eval (pt_mk_section a b c d)
  end.
  cbv iota beta. unfold pt_image_add.
  match goal with
  | |- context [pt_mk_section_list ?a ?b ?c ?d] =>
      vm_eval (pt_mk_section_list a b c d)
  end.
  cbv iota beta.
  cbn [pt_image_add_loop img_sections set_sections sl_section entry_of].
  rewrite !pt_msec_matches_asid_same.
  vm_compute. by repeat split.
Qed.

Lemma overlap_split_witness :
  pt_asid_from_user None = (0, asid_any)
  /\ summaries
       (snd (fst (pt_image_add_file
                    (snd (fst (pt_image_add_file (Some (image_init))
                                 (Some "/a"%string) 0 0x1000 None 0x10000
                                 (env_init data0))))
                    (Some "/b"%string) 0 0x100 None 0x10400
                    (snd (pt_image_add_file (Some (image_init))
                            (Some "/a"%string) 0 0x1000 None 0x10000
                            (env_init data0))))))
     = [("/a"%string, 0x500, 0x1000, 0x10500, false);
        ("/a"%string, 0, 0x400, 0x10000, false);
        ("/b"%string, 0, 0x100, 0x10400, false)].
Proof.
  split; [reflexivity |].
  exact (proj1 (proj2 (proj2 (overlap_split data0 None asid_any eq_refl)))).
Defined.

(** C2, the code at the failing input: "/a" is added and read from, so that
    it is mapped and counted (R = 1); it is then replaced by an add of "/b"
    over the same range, or removed.  No element with its [mapped] bit set is
    left, yet the counter still reads 1. *)
Lemma residency_counter_stale :
  (option_map img_mapped (fst mapped_once) = Some 1
   /\ option_map (fun img => count_mapped (img_sections img)) (fst mapped_once)
      = Some 1)
  /\ (summaries (fst after_replace) = [("/b"%string, 0, 0x10, 0, false)]
      /\ option_map img_mapped (fst after_replace) = Some 1
      /\ option_map (fun img => count_mapped (img_sections img))
           (fst after_replace) = Some 0)
  /\ (summaries (fst after_remove) = []
      /\ option_map img_mapped (fst after_remove) = Some 1
      /\ option_map (fun img => count_mapped (img_sections img))
           (fst after_remove) = Some 0).
Proof. vm_compute. by repeat split. Qed.

(** * Further properties of pt_image.c *)

(** ** pt_image_add: a section that overlaps nothing *)

Lemma pt_image_add_loop_all_pass section asid begin end_ l :
  forall err kept next removed e,
    0 <= err ->
    Forall (fun y => passes asid begin end_ y = true) l ->
    exists err',
      0 <= err'
      /\ pt_image_add_loop section asid begin end_ err kept l next removed e
         = AddLeave {| as_errcode := err'; as_kept := kept ++ l;
                       as_rest := []; as_next := next;
                       as_removed := removed; as_env := e |}.
Proof.
  induction l as [| y l IH]; intros err kept next removed e Herr Hl.
  - exists err. by rewrite app_nil_r.
  - apply Forall_cons in Hl as [Hy Hl].
    rewrite pt_image_add_loop_pass by done.
    destruct (IH (pt_msec_matches_asid (sl_section y) asid) (kept ++ [y])
                next removed e) as (err' & Herr' & ->); [| done |].
    + unfold passes in Hy. cbn zeta in Hy. lia.
    + exists err'. by rewrite <- app_assoc.
Qed.

Lemma pt_mk_section_list_eq section asid vaddr e st :
  fst (malloc e) = false ->
  store e !! sec_id section = Some st ->
  pt_mk_section_list section asid vaddr e
  = (Some (new_entry section asid vaddr),
     set_store (add_reference section st (store e)) (snd (malloc e))).
Proof.
  intros Hm Hst. unfold pt_mk_section_list.
  pose proof (malloc_store e) as Hs.
  destruct (malloc e) as [f e0]. cbn [fst snd] in *. subst f.
  unfold pt_section_get. by rewrite Hs, Hst.
Qed.

Lemma pt_image_add_append img section asid vaddr e st :
  Forall (fun y => passes asid vaddr (u64 (vaddr + pt_section_size section)) y
                   = true) (img_sections img) ->
  fst (malloc e) = false ->
  store e !! sec_id section = Some st ->
  pt_image_add (Some img) (Some section) asid vaddr e
  = (0,
     Some (set_sections (img_sections img ++ [new_entry section asid vaddr]) img),
     set_store (add_reference section st (store e)) (snd (malloc e))).
Proof.
  intros Hl Hm Hst. unfold pt_image_add.
  rewrite (pt_mk_section_list_eq section asid vaddr e st) by done.
  destruct (pt_image_add_loop_all_pass section asid vaddr
              (u64 (vaddr + pt_section_size section)) (img_sections img)
              0 [] [new_entry section asid vaddr] []
              (set_store (add_reference section st (store e)) (snd (malloc e))))
    as (err' & Herr' & ->); [lia | done |].
  cbn [as_errcode as_kept as_next as_removed as_env app
       pt_section_list_free_tail].
  by replace (err' <? 0) with false by lia.
Qed.

(** X1.  An add of a section whose range overlaps no element that matches
    the asid appends the new element, not mapped, at the tail of the list,
    leaves every element that was there in its place and state, returns zero
    and takes exactly one reference on the section. *)
Theorem pt_image_add_appends_at_tail (img : pt_image) (section : pt_section)
    (asid : option pt_asid) (vaddr : Z) (e : env) (st : sec_state) :
  Forall (fun y => passes asid vaddr (u64 (vaddr + pt_section_size section)) y
                   = true) (img_sections img) ->
  fst (malloc e) = false ->
  store e !! sec_id section = Some st ->
  pt_image_add (Some img) (Some section) asid vaddr e
  = (0,
     Some (set_sections (img_sections img ++ [new_entry section asid vaddr]) img),
     set_store (add_reference section st (store e)) (snd (malloc e))).
Proof. apply pt_image_add_append. Qed.

(** ** pt_image_add followed by pt_image_remove *)

Lemma remove_hit_new_entry section asid vaddr :
  remove_hit section asid vaddr (new_entry section (Some asid) vaddr) = true.
Proof.
  unfold remove_hit, new_entry, pt_msec_init, pt_msec_matches_asid, same_section.
  cbn [sl_section msec_asid msec_section msec_vaddr default].
  by rewrite pt_asid_match_refl, Pos.eqb_refl, Z.eqb_refl.
Qed.

Lemma drop_reference section asid vaddr e0 st m :
  (0 < ucount st)%nat ->
  m !! sec_id section = Some st ->
  store (pt_section_list_free (new_entry section asid vaddr)
           (set_store (add_reference section st m) e0)) = m.
Proof.
  intros Hu Hst. unfold pt_section_list_free, new_entry, pt_msec_init.
  cbn [sl_mapped sl_section msec_section]. unfold pt_section_put, add_reference.
  cbn [store set_store]. rewrite lookup_insert_eq. cbn [ucount mcount].
  destruct (ucount st) as [| u] eqn:Hu'; [lia |].
  cbn [snd store set_store]. rewrite insert_insert_eq.
  apply insert_id. rewrite Hst. f_equal. destruct st. cbn in *. by subst.
Qed.

(** X2.  Round trip: when a section that is not yet in the image at [vaddr]
    is added over a range that overlaps no element matching the asid, and is
    then removed again with the same section, asid and vaddr, both calls
    return zero, the image is exactly as it was before the add, and so are
    the reference and map counts of all sections. *)
Theorem pt_image_add_remove_round_trip (img : pt_image) (section : pt_section)
    (asid : pt_asid) (vaddr : Z) (e : env) (st : sec_state) :
  Forall (fun y => passes (Some asid) vaddr
                     (u64 (vaddr + pt_section_size section)) y = true)
         (img_sections img) ->
  Forall (fun y => remove_hit section asid vaddr y = false)
         (img_sections img) ->
  fst (malloc e) = false ->
  store e !! sec_id section = Some st ->
  (0 < ucount st)%nat ->
  exists img1 e1 e2,
    pt_image_add (Some img) (Some section) (Some asid) vaddr e
    = (0, Some img1, e1)
    /\ pt_image_remove (Some img1) (Some section) (Some asid) vaddr e1
       = (0, Some img, e2)
    /\ store e2 = store e.
Proof.
  intros Hpass Hmiss Hm Hst Hu.
  eexists _, _, _. split; [by apply pt_image_add_append |].
  unfold pt_image_remove. cbn [img_sections set_sections].
  rewrite pt_image_remove_loop_first;
    [| done | apply remove_hit_new_entry].
  cbn [app]. rewrite app_nil_r. split.
  - by destruct img.
  - by apply drop_reference.
Qed.

(** ** pt_image_add never maps *)

Lemma count_mapped_nonneg (l : list pt_section_list) : 0 <= count_mapped l.
Proof. unfold count_mapped. lia. Qed.

Lemma count_mapped_filter_le (f : pt_section_list -> bool)
    (l : list pt_section_list) :
  count_mapped (List.filter f l) <= count_mapped l.
Proof.
  induction l as [| x l IH]; [done |].
  cbn [List.filter]. destruct (f x); rewrite !count_mapped_cons;
    destruct (sl_mapped x); lia.
Qed.

Lemma count_mapped_unmapped (l : list pt_section_list) :
  Forall (fun x => sl_mapped x = false) l -> count_mapped l = 0.
Proof.
  induction 1 as [| x l Hx _ IH]; [done |].
  by rewrite count_mapped_cons, Hx, IH.
Qed.

Lemma count_mapped_rev_unmapped (l : list pt_section_list) :
  count_mapped (rev (List.map unmapped l)) = 0.
Proof.
  apply count_mapped_unmapped. apply List.Forall_forall. intros x Hx.
  apply List.in_rev in Hx. apply List.in_map_iff in Hx as (y & <- & _).
  reflexivity.
Qed.

Lemma pt_image_add_sections img section asid vaddr e r image' e' :
  pt_image_add (Some img) section asid vaddr e = (r, image', e') ->
  exists l,
    image' = Some (set_sections l img)
    /\ count_mapped l <= count_mapped (img_sections img).
Proof.
  unfold pt_image_add. intros H.
  destruct section as [sec |];
    [| injection H as <- <- <-; exists (img_sections img);
       by rewrite set_sections_same].
  destruct (pt_mk_section_list sec asid vaddr e) as [[n |] e1] eqn:Hmk;
    [| injection H as <- <- <-; exists (img_sections img);
       by rewrite set_sections_same].
  apply pt_mk_section_list_some in Hmk as Hn.
  destruct (pt_image_add_loop _ _ _ _ _ _ _ _ _ _) as [r0 l0 e2 | st] eqn:Hl.
  - apply pt_image_add_loop_return in Hl as (_ & _ & -> & _).
    injection H as <- <- <-. by eexists.
  - apply pt_image_add_loop_leave in Hl
      as (pre & post & clones & Hs & Hk & Hrest & Hrm & Hnx & Hcl & Hpost).
    assert (Hpre : count_mapped
                     (List.filter
                        (passes asid vaddr (u64 (vaddr + pt_section_size sec)))
                        pre) <= count_mapped pre)
      by apply count_mapped_filter_le.
    destruct (as_errcode st <? 0) eqn:Herr; injection H as <- <- <-;
      (eexists; split; [reflexivity |]).
    + rewrite Hk, Hrest, Hrm, Hs. cbn [app].
      rewrite !count_mapped_app, count_mapped_rev_unmapped.
      change (count_mapped []) with 0. lia.
    + rewrite Hk, Hnx, Hs, (Hpost eq_refl). cbn [app].
      rewrite !count_mapped_app.
      change (count_mapped []) with 0.
      rewrite (count_mapped_unmapped clones).
      * subst n. rewrite count_mapped_cons. cbn [sl_mapped].
        change (count_mapped []) with 0. lia.
      * eapply Forall_impl; [exact Hcl |].
        by intros c (x & _ & [(? & _) | (? & _)]).
Qed.

(** X3.  Whatever [pt_image_add] returns, it changes nothing of the image but
    its list (name, callback, cache size and the counter of mapped sections
    stay as they are), and it never marks an element as mapped: the number of
    elements whose [mapped] bit is set does not grow. *)
Theorem pt_image_add_never_maps (img : pt_image) (section : option pt_section)
    (asid : option pt_asid) (vaddr : Z) (e : env) :
  exists l,
    snd (fst (pt_image_add (Some img) section asid vaddr e))
    = Some (set_sections l img)
    /\ count_mapped l <= count_mapped (img_sections img).
Proof.
  destruct (pt_image_add (Some img) section asid vaddr e) as [[r image'] e']
    eqn:H.
  by apply pt_image_add_sections in H.
Qed.

(** ** pt_image_remove_by_asid and pt_image_remove_by_filename *)

Lemma asid_matches_value asid x :
  pt_msec_matches_asid (sl_section x) (Some asid)
  = if asid_matches asid x then 1 else 0.
Proof.
  unfold asid_matches, pt_msec_matches_asid.
  by destruct (pt_asid_match_some (msec_asid (sl_section x)) asid)
    as [-> | ->].
Qed.

Lemma pt_image_remove_by_asid_loop_spec asid rest :
  forall removed kept e,
    pt_image_remove_by_asid_loop asid removed kept rest e
    = (removed + Z.of_nat (length (List.filter (asid_matches asid) rest)),
       kept ++ List.filter (fun x => negb (asid_matches asid x)) rest,
       pt_section_list_free_tail (List.filter (asid_matches asid) rest) e).
Proof.
  induction rest as [| x tl IH]; intros removed kept e.
  - cbn. by rewrite Z.add_0_r, app_nil_r.
  - cbn [pt_image_remove_by_asid_loop List.filter].
    rewrite (asid_matches_value asid x).
    destruct (asid_matches asid x); cbn [negb].
    + change (1 <? 0) with false. change (1 =? 0) with false. cbv iota.
      rewrite IH. cbn [length pt_section_list_free_tail]. do 2 f_equal. lia.
    + change (0 <? 0) with false. change (0 =? 0) with true. cbv iota.
      by rewrite IH, <- app_assoc.
Qed.

(** X4.  [pt_image_remove_by_asid] removes every element whose ASID matches
    the given one and no other: the elements that do not match stay, in
    their order and state; the result is the number of elements removed, and
    each of them is freed (unmapped if it was mapped, its reference
    dropped), in list order. *)
Theorem pt_image_remove_by_asid_filters (img : pt_image)
    (uasid : option pt_asid_user) (asid : pt_asid) (e : env) :
  pt_asid_from_user uasid = (0, asid) ->
  pt_image_remove_by_asid (Some img) uasid e
  = (Z.of_nat (length (List.filter (asid_matches asid) (img_sections img))),
     Some (set_sections
             (List.filter (fun x => negb (asid_matches asid x))
                          (img_sections img)) img),
     pt_section_list_free_tail
       (List.filter (asid_matches asid) (img_sections img)) e).
Proof.
  intros Hu. unfold pt_image_remove_by_asid. rewrite Hu.
  change (0 <? 0) with false. cbv iota.
  by rewrite pt_image_remove_by_asid_loop_spec.
Qed.

Lemma file_matches_eq filename asid x :
  file_matches filename asid x
  = asid_matches asid x
    && String.eqb (sec_filename (msec_section (sl_section x))) filename.
Proof. reflexivity. Qed.

Lemma pt_image_remove_by_filename_loop_spec filename asid rest :
  forall removed kept e,
    pt_image_remove_by_filename_loop filename asid removed kept rest e
    = (removed
       + Z.of_nat (length (List.filter (file_matches filename asid) rest)),
       kept ++ List.filter (fun x => negb (file_matches filename asid x)) rest,
       pt_section_list_free_tail
         (List.filter (file_matches filename asid) rest) e).
Proof.
  induction rest as [| x tl IH]; intros removed kept e.
  - cbn. by rewrite Z.add_0_r, app_nil_r.
  - cbn [pt_image_remove_by_filename_loop List.filter].
    rewrite !(file_matches_eq filename asid x), (asid_matches_value asid x).
    unfold pt_section_filename.
    destruct (asid_matches asid x); cbn [negb andb].
    + change (1 <? 0) with false. change (1 =? 0) with false. cbv iota.
      destruct (String.eqb _ filename); cbn [negb]; rewrite IH.
      * cbn [length pt_section_list_free_tail]. do 2 f_equal. lia.
      * by rewrite <- app_assoc.
    + change (0 <? 0) with false. change (0 =? 0) with true. cbv iota.
      by rewrite IH, <- app_assoc.
Qed.

(** X5.  [pt_image_remove_by_filename] removes every element whose ASID
    matches the given one and whose section is of the given file, and no
    other: the remaining elements stay in their order and state; the result
    is the number of elements removed, each of which is freed, in list
    order. *)
Theorem pt_image_remove_by_filename_filters (img : pt_image)
    (filename : string) (uasid : option pt_asid_user) (asid : pt_asid)
    (e : env) :
  pt_asid_from_user uasid = (0, asid) ->
  pt_image_remove_by_filename (Some img) (Some filename) uasid e
  = (Z.of_nat (length (List.filter (file_matches filename asid)
                                   (img_sections img))),
     Some (set_sections
             (List.filter (fun x => negb (file_matches filename asid x))
                          (img_sections img)) img),
     pt_section_list_free_tail
       (List.filter (file_matches filename asid) (img_sections img)) e).
Proof.
  intros Hu. unfold pt_image_remove_by_filename. rewrite Hu.
  change (0 <? 0) with false. cbv iota.
  by rewrite pt_image_remove_by_filename_loop_spec.
Qed.

(** ** pt_image_copy *)

Lemma pt_image_copy_loop_spec src :
  forall img ignored e r image' e',
    pt_image_copy_loop (Some img) src ignored e = (r, image', e') ->
    exists l,
      image' = Some (set_sections l img)
      /\ count_mapped l <= count_mapped (img_sections img).
Proof.
  induction src as [| x tl IH]; intros img ignored e r image' e' H;
    cbn [pt_image_copy_loop] in H.
  - injection H as <- <- <-.
    exists (img_sections img). by rewrite set_sections_same.
  - destruct (pt_image_add _ _ _ _ _) as [[errcode image1] e1] eqn:Hadd.
    apply pt_image_add_sections in Hadd as (l1 & -> & Hl1).
    apply IH in H as (l & -> & Hl).
    exists l. split; [done |]. cbn [img_sections set_sections] in Hl. lia.
Qed.

Lemma pt_image_copy_loop_count src :
  forall image ignored e,
    fst (fst (pt_image_copy_loop image src ignored e))
    = ignored + Z.of_nat (length (errors (copy_add_results image src e))).
Proof.
  induction src as [| x tl IH]; intros image ignored e;
    cbn [pt_image_copy_loop copy_add_results].
  - cbn. lia.
  - destruct (pt_image_add _ _ _ _ _) as [[errcode image1] e1].
    rewrite IH. unfold errors. cbn [List.filter].
    destruct (errcode <? 0); cbn [length]; lia.
Qed.

Lemma copy_add_results_length src :
  forall image e, length (copy_add_results image src e) = length src.
Proof.
  induction src as [| x tl IH]; intros image e; cbn [copy_add_results];
    [done |].
  destruct (pt_image_add _ _ _ _ _) as [[errcode image1] e1].
  cbn [length]. by rewrite IH.
Qed.

(** X6.  [pt_image_copy] from another image never fails as a whole: it
    calls [pt_image_add] once for each element of the source, in list
    order, and returns the number of these calls that failed (so a number
    between zero and the number of elements of the source).  Like a single
    add, it changes nothing of the destination but its list and marks no
    element as mapped. *)
Theorem pt_image_copy_counts_failures (fuel : nat) (img src : pt_image)
    (e : env) :
  exists l e',
    pt_image_copy fuel (Some img) (SrcOther src) e
    = CopyReturn
        (Z.of_nat
           (length (errors (copy_add_results (Some img) (img_sections src) e))))
        (Some (set_sections l img)) e'
    /\ length (copy_add_results (Some img) (img_sections src) e)
       = length (img_sections src)
    /\ (length (errors (copy_add_results (Some img) (img_sections src) e))
        <= length (img_sections src))%nat
    /\ count_mapped l <= count_mapped (img_sections img).
Proof.
  unfold pt_image_copy.
  pose proof (pt_image_copy_loop_count (img_sections src) (Some img) 0 e)
    as Hr.
  destruct (pt_image_copy_loop _ _ _ _) as [[r image'] e'] eqn:H.
  apply pt_image_copy_loop_spec in H as (l & -> & Hl). cbn [fst] in Hr.
  exists l, e'. split; [f_equal; lia |].
  split; [apply copy_add_results_length |]. split; [| done].
  rewrite <- (copy_add_results_length (img_sections src) (Some img) e).
  unfold errors. apply List.filter_length_le.
Qed.

Lemma new_entry_unmapped (y : pt_section_list) :
  new_entry (msec_section (sl_section y)) (Some (msec_asid (sl_section y)))
    (msec_vaddr (sl_section y)) = unmapped y.
Proof. by destruct y as [[? ? ?] ?]. Qed.

Lemma in_store_add_reference e0 section st m x :
  is_Some (m !! sec_id (msec_section (sl_section x))) ->
  in_store (set_store (add_reference section st m) e0) x.
Proof.
  unfold in_store, add_reference. cbn [store set_store]. intros H.
  destruct (decide (sec_id section = sec_id (msec_section (sl_section x))))
    as [<- | Hne].
  - rewrite lookup_insert_eq. by eexists.
  - by rewrite lookup_insert_ne.
Qed.

Lemma malloc_no_failure (e : env) :
  alloc_fail e = [] -> malloc e = (false, e).
Proof. unfold malloc. by intros ->. Qed.

Lemma pt_image_copy_loop_append src :
  forall img ignored e,
    appendable (img_sections img) src ->
    alloc_fail e = [] ->
    Forall (in_store e) src ->
    exists e',
      pt_image_copy_loop (Some img) src ignored e
      = (ignored,
         Some (set_sections (img_sections img ++ List.map unmapped src) img),
         e').
Proof.
  induction src as [| y tl IH]; intros img ignored e Happ Halloc Hstore;
    cbn [pt_image_copy_loop List.map].
  - exists e. by rewrite app_nil_r, set_sections_same.
  - destruct Happ as [Hpass Happ].
    apply Forall_cons in Hstore as [[st Hst] Hstore].
    rewrite (pt_image_add_append img _ _ _ e st);
      [| done | by rewrite malloc_no_failure | done].
    rewrite malloc_no_failure by done. cbn [snd].
    change (0 <? 0) with false. cbv iota. rewrite new_entry_unmapped.
    destruct (IH (set_sections (img_sections img ++ [unmapped y]) img) ignored
                (set_store (add_reference (msec_section (sl_section y)) st
                              (store e)) e))
      as (e' & ->); [done | done | |].
    + eapply Forall_impl; [exact Hstore |]. intros x Hx.
      by apply in_store_add_reference.
    + exists e'. cbn [img_sections set_sections]. by rewrite <- app_assoc.
Qed.

(** X7.  When [src] is another image than [image], the ranges of the
    elements of the source, taken in list order, overlap no element of the
    destination and no earlier element of the source that matches their
    ASID, and no allocation fails, [pt_image_copy] returns zero and appends
    the elements of the source to the list of the destination, in their
    order and not mapped; the elements of the destination stay as they
    are. *)
Theorem pt_image_copy_appends (fuel : nat) (img src : pt_image) (e : env) :
  appendable (img_sections img) (img_sections src) ->
  alloc_fail e = [] ->
  Forall (in_store e) (img_sections src) ->
  exists e',
    pt_image_copy fuel (Some img) (SrcOther src) e
    = CopyReturn 0
        (Some (set_sections
                 (img_sections img ++ List.map unmapped (img_sections src))
                 img))
        e'.
Proof.
  intros Happ Halloc Hstore. unfold pt_image_copy.
  destruct (pt_image_copy_loop_append (img_sections src) img 0 e)
    as (e' & ->); [done | done | done |].
  by exists e'.
Qed.

(** ** pt_image_copy of an image to itself *)

Lemma unmark_app (l1 l2 : list marked) :
  unmark (l1 ++ l2) = unmark l1 ++ unmark l2.
Proof. apply List.map_app. Qed.

Lemma unmark_unmarked (l : list pt_section_list) :
  unmark (List.map (pair false) l) = l.
Proof.
  unfold unmark. rewrite List.map_map. cbn [snd]. apply List.map_id.
Qed.

Lemma pt_image_clone_push lst msec begin end_ e :
  pt_image_clone lst msec begin end_ e
  = let '(errcode, l, e1) := pt_image_clone [] msec begin end_ e in
    (errcode, l ++ lst, e1).
Proof.
  unfold pt_image_clone. cbn zeta.
  repeat (case_match; simplify_eq; try done).
Qed.

Lemma pt_image_clone_at_unmark lst msec begin end_ e :
  pt_image_clone (unmark lst) msec begin end_ e
  = let '(errcode, l, e1) := pt_image_clone_at lst msec begin end_ e in
    (errcode, unmark l, e1).
Proof.
  unfold pt_image_clone_at. rewrite pt_image_clone_push.
  destruct (pt_image_clone [] msec begin end_ e) as [[errcode l] e1].
  by rewrite unmark_app, unmark_unmarked.
Qed.

Lemma pt_image_add_loop_at_unmark section asid begin end_ rest :
  forall errcode kept next removed e,
    unmark_exit
      (pt_image_add_loop_at section asid begin end_ errcode kept rest next
         removed e)
    = pt_image_add_loop section asid begin end_ errcode (unmark kept)
        (unmark rest) (unmark next) (unmark removed) e.
Proof.
  induction rest as [| [mark current] tl IH];
    intros errcode kept next removed e; [done |].
  cbn [pt_image_add_loop_at unmark List.map snd pt_image_add_loop].
  cbn zeta. fold (unmark tl).
  destruct (pt_msec_matches_asid (sl_section current) asid <? 0); [done |].
  destruct (pt_msec_matches_asid (sl_section current) asid =? 0);
    [by rewrite IH, unmark_app |].
  destruct ((end_ <=? u64 (pt_msec_begin (sl_section current)))
            || (u64 (pt_msec_end (sl_section current)) <=? begin));
    [by rewrite IH, unmark_app |].
  assert (Hmatch : match removed, next with
                   | [], [_] => Dedup
                   | _, _ => Fail (- pte_internal)
                   end
                   = match unmark removed, unmark next with
                     | [], [_] => Dedup
                     | _, _ => Fail (- pte_internal)
                     end)
    by (by destruct removed, next as [| n [| n' next]]).
  rewrite Hmatch.
  destruct (if (begin =? _) && (end_ =? _) then _ else Replace).
  - cbn [unmark_exit]. rewrite unmark_app. cbn [unmark List.map snd].
    by destruct next.
  - done.
  - destruct (u64 (pt_msec_begin (sl_section current)) <? begin).
    + rewrite pt_image_clone_at_unmark.
      destruct (pt_image_clone_at next _ _ _ _) as [[errcode1 next1] e1].
      destruct (errcode1 <? 0) eqn:Herr1; [done |].
      destruct (end_ <? u64 (pt_msec_end (sl_section current))).
      * rewrite pt_image_clone_at_unmark.
        destruct (pt_image_clone_at next1 _ _ _ _) as [[errcode2 next2] e2].
        destruct (errcode2 <? 0); [done |]. by rewrite IH.
      * rewrite Herr1. by rewrite IH.
    + destruct (pt_msec_matches_asid (sl_section current) asid <? 0) eqn:Herr;
        [done |].
      destruct (end_ <? u64 (pt_msec_end (sl_section current))).
      * rewrite pt_image_clone_at_unmark.
        destruct (pt_image_clone_at next _ _ _ _) as [[errcode2 next2] e2].
        destruct (errcode2 <? 0); [done |]. by rewrite IH.
      * rewrite Herr. by rewrite IH.
Qed.

Lemma pt_image_add_at_unmark img sections section asid vaddr e :
  img_sections img = unmark sections ->
  pt_image_add (Some img) (Some section) asid vaddr e
  = let '(r, l, e') := pt_image_add_at sections section asid vaddr e in
    (r, Some (set_sections (unmark l) img), e').
Proof.
  intros Hl. unfold pt_image_add, pt_image_add_at.
  destruct (pt_mk_section_list section asid vaddr e) as [[next |] e1].
  - cbn zeta. rewrite Hl.
    pose proof (pt_image_add_loop_at_unmark section asid vaddr
                  (u64 (vaddr + pt_section_size section)) sections 0 []
                  [(false, next)] [] e1) as H.
    cbn [unmark List.map snd] in H. rewrite <- H.
    destruct (pt_image_add_loop_at _ _ _ _ _ _ _ _ _ _) as [r l e2 | st];
      cbn [unmark_exit]; [done |].
    cbn [as_errcode as_kept as_rest as_next as_removed as_env].
    destruct (at_errcode st <? 0); by rewrite !unmark_app.
  - rewrite <- Hl. by rewrite set_sections_same.
Qed.

Lemma pt_image_add_loop_at_pass section asid begin end_ errcode kept n tl
    next removed e :
  passes asid begin end_ (snd n) = true ->
  pt_image_add_loop_at section asid begin end_ errcode kept (n :: tl) next
    removed e
  = pt_image_add_loop_at section asid begin end_
      (pt_msec_matches_asid (sl_section (snd n)) asid) (kept ++ [n]) tl next
      removed e.
Proof.
  destruct n as [mark current]. cbn [snd]. unfold passes. cbn zeta.
  intros H. cbn [pt_image_add_loop_at]. cbn zeta.
  destruct (pt_msec_matches_asid (sl_section current) asid =? 0) eqn:H0.
  - by replace (pt_msec_matches_asid (sl_section current) asid <? 0)
      with false by lia.
  - cbn [orb] in H. apply andb_prop in H as [Hpos H].
    replace (pt_msec_matches_asid (sl_section current) asid <? 0)
      with false by lia.
    by rewrite H.
Qed.

Lemma pt_image_add_loop_at_passes section asid begin end_ l1 :
  forall errcode kept rest next removed e,
    Forall (fun y => passes asid begin end_ y = true) l1 ->
    exists errcode',
      pt_image_add_loop_at section asid begin end_ errcode kept
        (List.map (pair false) l1 ++ rest) next removed e
      = pt_image_add_loop_at section asid begin end_ errcode'
          (kept ++ List.map (pair false) l1) rest next removed e
      /\ (0 <= errcode -> 0 <= errcode').
Proof.
  induction l1 as [| y l1 IH]; intros errcode kept rest next removed e Hl1.
  - exists errcode. by rewrite app_nil_r.
  - apply Forall_cons in Hl1 as [Hy Hl1]. cbn [List.map app].
    rewrite pt_image_add_loop_at_pass by done. cbn [snd].
    destruct (IH (pt_msec_matches_asid (sl_section y) asid)
                (kept ++ [(false, y)]) rest next removed e Hl1)
      as (errcode' & -> & Hpos).
    exists errcode'. rewrite <- app_assoc. split; [done |].
    intros _. apply Hpos. unfold passes in Hy. cbn zeta in Hy. lia.
Qed.

Lemma pt_image_add_loop_at_identical section asid begin end_ errcode kept
    mark x tl n e :
  identical section asid begin end_ x = true ->
  pt_image_add_loop_at section asid begin end_ errcode kept ((mark, x) :: tl)
    [n] [] e
  = AddReturnAt 0 (kept ++ (mark, x) :: tl) (pt_section_list_free (snd n) e).
Proof.
  unfold identical. intros H.
  apply andb_prop in H as [H Hname]. apply andb_prop in H as [H Hend].
  apply andb_prop in H as [H Hbegin]. apply andb_prop in H as [Hpos Hover].
  apply negb_true_iff in Hover.
  cbn [pt_image_add_loop_at]. cbn zeta.
  replace (pt_msec_matches_asid (sl_section x) asid <? 0) with false by lia.
  replace (pt_msec_matches_asid (sl_section x) asid =? 0) with false by lia.
  rewrite Hover, Hbegin, Hend. cbn [andb].
  unfold pt_section_filename. by rewrite Hname.
Qed.

Lemma identical_self (x : pt_section_list) :
  in_range x ->
  identical (msec_section (sl_section x)) (Some (msec_asid (sl_section x)))
    (msec_vaddr (sl_section x))
    (u64 (msec_vaddr (sl_section x)
          + pt_section_size (msec_section (sl_section x)))) x = true.
Proof.
  intros (Hv & Hs & Hw). unfold identical, pt_msec_matches_asid.
  rewrite pt_asid_match_refl. unfold pt_msec_begin, pt_msec_end.
  rewrite !u64_small by lia. rewrite String.eqb_refl, !Z.eqb_refl.
  change (0 <? 1) with true. cbn [andb]. rewrite !andb_true_r.
  apply negb_true_iff, orb_false_iff. split; lia.
Qed.

Lemma free_new_entry_restores section asid vaddr e st :
  store e !! sec_id section = Some st ->
  (0 < ucount st)%nat ->
  pt_section_list_free (new_entry section asid vaddr)
    (set_store (add_reference section st (store e)) e) = e.
Proof.
  intros Hst Hu. unfold pt_section_list_free, new_entry, add_reference.
  cbn [sl_mapped sl_section pt_msec_init msec_section].
  unfold pt_section_put. cbn [store set_store]. rewrite lookup_insert_eq.
  destruct st as [[| u] m]; [cbn [ucount] in Hu; lia |].
  cbn [ucount mcount snd]. unfold set_store.
  cbn [store next_id alloc_fail map_err unmap_err file_data].
  rewrite insert_insert_eq, insert_id by done. by destruct e.
Qed.

Lemma cursor_unmarked (l : list pt_section_list) :
  cursor (List.map (pair false) l) = None.
Proof. induction l as [| x l IH]; [done | exact IH]. Qed.

Lemma cursor_at (l1 : list pt_section_list) (x : pt_section_list)
    (tl : list marked) :
  cursor (List.map (pair false) l1 ++ (true, x) :: tl) = Some x.
Proof. induction l1 as [| y l1 IH]; [done | exact IH]. Qed.

Lemma cursor_next_at (l1 l2 : list pt_section_list) (x : pt_section_list) :
  cursor_next (List.map (pair false) l1
               ++ (true, x) :: List.map (pair false) l2)
  = Some (List.map (pair false) (l1 ++ [x]) ++ cursor_first l2).
Proof.
  induction l1 as [| y l1 IH]; cbn [List.map app cursor_next].
  - by destruct l2.
  - by rewrite IH.
Qed.

Lemma pt_image_add_at_self (l1 l2 : list pt_section_list)
    (x : pt_section_list) (e : env) :
  Forall (fun y =>
            passes (Some (msec_asid (sl_section x)))
              (msec_vaddr (sl_section x))
              (u64 (msec_vaddr (sl_section x)
                    + pt_section_size (msec_section (sl_section x)))) y
            = true) l1 ->
  in_range x ->
  live e (msec_section (sl_section x)) ->
  alloc_fail e = [] ->
  pt_image_add_at
    (List.map (pair false) l1 ++ (true, x) :: List.map (pair false) l2)
    (msec_section (sl_section x)) (Some (msec_asid (sl_section x)))
    (msec_vaddr (sl_section x)) e
  = (0, List.map (pair false) l1 ++ (true, x) :: List.map (pair false) l2, e).
Proof.
  intros Hl1 Hx (st & Hst & Hu) Ha. unfold pt_image_add_at.
  rewrite (pt_mk_section_list_eq _ _ _ e st) by
    (by rewrite ?malloc_no_failure).
  rewrite malloc_no_failure by done. cbn [snd]. cbn zeta.
  destruct (pt_image_add_loop_at_passes (msec_section (sl_section x))
              (Some (msec_asid (sl_section x))) (msec_vaddr (sl_section x))
              (u64 (msec_vaddr (sl_section x)
                    + pt_section_size (msec_section (sl_section x))))
              l1 0 [] ((true, x) :: List.map (pair false) l2)
              [(false, new_entry (msec_section (sl_section x))
                         (Some (msec_asid (sl_section x)))
                         (msec_vaddr (sl_section x)))] []
              (set_store (add_reference (msec_section (sl_section x)) st
                            (store e)) e) Hl1) as (errcode' & -> & _).
  rewrite pt_image_add_loop_at_identical by (by apply identical_self).
  cbn [app snd]. by rewrite free_new_entry_restores.
Qed.

Lemma pt_image_copy_self_loop_keeps (img : pt_image) (e : env) (ignored : Z)
    (l2 : list pt_section_list) :
  forall l1 fuel,
    apart l1 l2 ->
    Forall in_range l2 ->
    Forall (fun x => live e (msec_section (sl_section x))) l2 ->
    alloc_fail e = [] ->
    (length l2 <= fuel)%nat ->
    pt_image_copy_self_loop fuel img
      (List.map (pair false) l1 ++ cursor_first l2) ignored e
    = CopyReturn ignored (Some (set_sections (l1 ++ l2) img)) e.
Proof.
  induction l2 as [| x l2 IH]; intros l1 fuel Hapart Hrange Hlive Ha Hfuel.
  - cbn [cursor_first]. rewrite !app_nil_r.
    destruct fuel; cbn [pt_image_copy_self_loop];
      by rewrite cursor_unmarked, unmark_unmarked.
  - destruct fuel as [| fuel]; [cbn [length] in Hfuel; lia |].
    destruct Hapart as [Hl1 Hapart].
    apply Forall_cons in Hrange as [Hx Hrange].
    apply Forall_cons in Hlive as [Hlx Hlive].
    cbn [cursor_first pt_image_copy_self_loop]. rewrite cursor_at.
    rewrite pt_image_add_at_self by done.
    change (0 <? 0) with false. cbv iota. rewrite cursor_next_at.
    rewrite IH; [| done | done | done | done | cbn [length] in Hfuel; lia].
    by rewrite <- app_assoc.
Qed.

(** X21.  Copying an image to itself changes nothing when its elements are
    in order: if the ranges of the elements are not empty and do not wrap
    around, the range of each element overlaps no element before it that
    matches its ASID, the sections are in the store with a reference and no
    allocation fails, then [pt_image_copy] of the image to itself returns
    zero (every add finds the element itself as the identical section) and
    leaves the image and the environment as they were. *)
Theorem pt_image_copy_self_unchanged (fuel : nat) (img : pt_image) (e : env) :
  apart [] (img_sections img) ->
  Forall in_range (img_sections img) ->
  Forall (fun x => live e (msec_section (sl_section x))) (img_sections img) ->
  alloc_fail e = [] ->
  (length (img_sections img) <= fuel)%nat ->
  pt_image_copy fuel (Some img) SrcSame e = CopyReturn 0 (Some img) e.
Proof.
  intros Hapart Hrange Hlive Ha Hfuel. unfold pt_image_copy.
  pose proof (pt_image_copy_self_loop_keeps img e 0 (img_sections img) [] fuel
                Hapart Hrange Hlive Ha Hfuel) as H.
  cbn [List.map app] in H. rewrite H. by rewrite set_sections_same.
Qed.

Lemma passes_self_wrap (x z : pt_section_list) :
  sl_section z = sl_section x ->
  u64 (msec_vaddr (sl_section x)
       + pt_section_size (msec_section (sl_section x)))
  <= u64 (msec_vaddr (sl_section x)) ->
  passes (Some (msec_asid (sl_section x))) (msec_vaddr (sl_section x))
    (u64 (msec_vaddr (sl_section x)
          + pt_section_size (msec_section (sl_section x)))) z = true.
Proof.
  intros Hz Hw. unfold passes. cbn zeta. rewrite Hz.
  unfold pt_msec_matches_asid. rewrite pt_asid_match_refl.
  change (1 =? 0) with false. change (0 <? 1) with true. cbn [orb andb].
  unfold pt_msec_begin. apply orb_true_iff. left. lia.
Qed.

Lemma pt_image_copy_self_loop_wraps (img : pt_image) (fuel : nat) :
  forall l y ignored e,
    Forall (fun z => sl_section z = sl_section y) l ->
    u64 (msec_vaddr (sl_section y)
         + pt_section_size (msec_section (sl_section y)))
    <= u64 (msec_vaddr (sl_section y)) ->
    in_store e y ->
    alloc_fail e = [] ->
    pt_image_copy_self_loop fuel img
      (List.map (pair false) l ++ [(true, y)]) ignored e
    = CopyRunning.
Proof.
  induction fuel as [| fuel IH]; intros l y ignored e Hl Hw [st Hst] Ha;
    cbn [pt_image_copy_self_loop]; rewrite cursor_at; [done |].
  unfold pt_image_add_at.
  rewrite (pt_mk_section_list_eq _ _ _ e st) by
    (by rewrite ?malloc_no_failure).
  rewrite malloc_no_failure by done. cbn [snd]. cbn zeta.
  rewrite new_entry_unmapped.
  set (e1 := set_store (add_reference (msec_section (sl_section y)) st
                          (store e)) e).
  destruct (pt_image_add_loop_at_passes (msec_section (sl_section y))
              (Some (msec_asid (sl_section y))) (msec_vaddr (sl_section y))
              (u64 (msec_vaddr (sl_section y)
                    + pt_section_size (msec_section (sl_section y))))
              l 0 [] [(true, y)] [(false, unmapped y)] [] e1)
    as (errcode' & -> & _).
  { eapply Forall_impl; [exact Hl |]. intros z Hz.
    by apply passes_self_wrap. }
  rewrite pt_image_add_loop_at_pass by (by apply passes_self_wrap).
  cbn [pt_image_add_loop_at snd at_errcode at_kept at_rest at_next
       at_removed at_env unmark List.map pt_section_list_free_tail].
  unfold pt_msec_matches_asid. rewrite pt_asid_match_refl.
  change (1 <? 0) with false. change (0 <? 0) with false. cbv iota.
  cbn [app]. rewrite <- app_assoc. cbn [app].
  change [(true, y); (false, unmapped y)]
    with ((true, y) :: List.map (pair false) [unmapped y]).
  rewrite cursor_next_at. cbn [cursor_first List.map].
  apply IH.
  - apply Forall_app. split; [| by constructor].
    eapply Forall_impl; [exact Hl |]. by intros z ->.
  - done.
  - by apply in_store_add_reference.
  - done.
Qed.

(** X22.  Copying an image to itself does not come to an end when the image
    holds one element whose range, as [pt_image_add] computes it, does not
    end above its begin (it is empty or wraps around), its section is in the
    store and no allocation fails: every add then passes over all elements
    and appends a copy, which the loop visits next.  Whatever the fuel, the
    loop is still running. *)
Theorem pt_image_copy_self_wraps (fuel : nat) (img : pt_image)
    (x : pt_section_list) (e : env) :
  img_sections img = [x] ->
  u64 (msec_vaddr (sl_section x)
       + pt_section_size (msec_section (sl_section x)))
  <= u64 (msec_vaddr (sl_section x)) ->
  in_store e x ->
  alloc_fail e = [] ->
  pt_image_copy fuel (Some img) SrcSame e = CopyRunning.
Proof.
  intros Hl Hw Hst Ha. unfold pt_image_copy. rewrite Hl.
  by apply (pt_image_copy_self_loop_wraps img fuel [] x 0 e).
Qed.

(** ** pt_image_read: what a read can do to the image *)

Lemma front_eq (before tl : list pt_section_list) (x : pt_section_list) :
  match before with
  | [] => x :: tl
  | _ :: _ => x :: before ++ tl
  end = x :: before ++ tl.
Proof. by destruct before. Qed.

Lemma pt_image_read_cold_loop_outcome image size asid addr rest :
  forall before buffer e r image' buffer' e',
    pt_image_read_cold_loop image before rest buffer size asid addr e
    = (r, image', buffer', e') ->
    read_outcome image (before ++ rest) image'.
Proof.
  induction rest as [| x tl IH]; intros before buffer e r image' buffer' e' H;
    cbn [pt_image_read_cold_loop] in H.
  - destruct (pt_image_read_callback _ _ _ _ _). injection H as <- <- <- <-.
    by apply ReadSame.
  - rewrite !front_eq in H.
    destruct (if negb (sl_mapped x) then _ else _) as [errcode e1] in H.
    destruct (errcode <? 0);
      [injection H as <- <- <- <-; by apply ReadSame |].
    destruct (pt_msec_read_mapped _ _ _ _ _ _) as [status buffer1] in H.
    destruct (status <? 0).
    { destruct (if negb (sl_mapped x) then _ else _) as [errcode2 e2] in H.
      destruct (errcode2 <? 0);
        [injection H as <- <- <- <-; by apply ReadSame |].
      apply IH in H. by rewrite <- app_assoc in H. }
    destruct (sl_mapped x) eqn:Hx; cbn [negb] in H;
      [injection H as <- <- <- <-; by eapply ReadPromote |].
    destruct (img_cache image =? 0) eqn:Hc; cbn [negb] in H.
    { destruct (pt_section_unmap _ _) as [errcode2 e2].
      destruct (errcode2 <? 0); injection H as <- <- <- <-;
        by eapply ReadPromote. }
    destruct (img_cache image <? u16 (img_mapped image + 1)) eqn:Hp;
      [| injection H as <- <- <- <-; eapply ReadMap; try done; lia].
    unfold pt_image_prune_cache in H.
    cbn [img_cache img_sections set_mapped set_sections] in H.
    destruct (pt_image_prune_cache_loop _ _ _ _ _ _) as [[[l' m] s] e2] eqn:Hpr.
    assert (image' = set_mapped m (set_sections l' image)) as ->
      by (destruct (s <? 0); injection H as <- <- <- <-; by destruct image).
    eapply ReadPrune; try done; lia.
Qed.

Lemma pt_image_read_loop_outcome image size asid addr rest :
  forall before buffer e r image' buffer' e',
    pt_image_read_loop image before rest buffer size asid addr e
    = (r, image', buffer', e') ->
    exists img', image' = Some img' /\ read_outcome image (before ++ rest) img'.
Proof.
  assert (Hcold : forall before rest buffer e r image' buffer' e',
             pt_image_read_cold (Some image) before rest buffer size asid addr e
             = (r, image', buffer', e') ->
             exists img',
               image' = Some img' /\ read_outcome image (before ++ rest) img').
  { intros before rest' buffer e r image' buffer' e' H.
    unfold pt_image_read_cold in H.
    destruct (pt_image_read_cold_loop _ _ _ _ _ _ _ _)
      as [[[r0 img0] b0] e0] eqn:Hl.
    injection H as <- <- <- <-. eexists. split; [done |].
    by eapply pt_image_read_cold_loop_outcome. }
  induction rest as [| x tl IH]; intros before buffer e r image' buffer' e' H;
    cbn [pt_image_read_loop] in H.
  - by eapply Hcold.
  - destruct (negb (sl_mapped x)); [by eapply Hcold |].
    destruct (pt_msec_read_mapped _ _ _ _ _ _) as [status buffer1].
    destruct (status <? 0).
    + apply IH in H. by rewrite <- app_assoc in H.
    + rewrite front_eq in H. injection H as <- <- <- <-.
      eexists. split; [done |]. by eapply ReadPromote.
Qed.

Lemma pt_image_read_outcome img buffer size asid addr e r image' buffer' e' :
  pt_image_read (Some img) buffer size asid addr e = (r, image', buffer', e') ->
  exists img', image' = Some img' /\ read_outcome img (img_sections img) img'.
Proof.
  unfold pt_image_read. destruct asid as [a |].
  - by apply pt_image_read_loop_outcome.
  - intros [= <- <- <- <-]. eexists. split; [done |]. by apply ReadSame.
Qed.

Lemma pt_image_prune_cache_loop_count cache rest :
  forall mapped status done e l m s e',
    pt_image_prune_cache_loop cache mapped status done rest e = (l, m, s, e') ->
    count_mapped l <= count_mapped done + count_mapped rest.
Proof.
  induction rest as [| x tl IH]; intros mapped status done e l m s e' H;
    cbn [pt_image_prune_cache_loop] in H.
  - injection H as <- <- <- <-. change (count_mapped []) with 0. lia.
  - rewrite count_mapped_cons.
    destruct (sl_mapped x) eqn:Hx; cbn [negb] in H.
    + destruct (u16 (mapped + 1) <=? cache).
      * apply IH in H. rewrite count_mapped_app, count_mapped_cons, Hx in H.
        change (count_mapped []) with 0 in H. lia.
      * destruct (pt_section_unmap _ e) as [errcode e1].
        destruct (errcode <? 0); apply IH in H;
          rewrite count_mapped_app, count_mapped_cons in H;
          cbn [unmapped sl_mapped] in H; rewrite ?Hx in H;
          change (count_mapped []) with 0 in H; lia.
    + apply IH in H. rewrite count_mapped_app, count_mapped_cons, Hx in H.
      change (count_mapped []) with 0 in H. lia.
Qed.

Lemma count_mapped_middle before x tl :
  count_mapped (x :: before ++ tl) = count_mapped (before ++ x :: tl).
Proof. rewrite !count_mapped_app, !count_mapped_cons, count_mapped_app. lia. Qed.

Lemma map_sl_section_front before x x' tl :
  sl_section x' = sl_section x ->
  Permutation (List.map sl_section (x' :: before ++ tl))
              (List.map sl_section (before ++ x :: tl)).
Proof.
  intros Hx. cbn [List.map]. rewrite !List.map_app, Hx. cbn [List.map].
  apply Permutation_middle.
Qed.

(** X8.  A read, whatever it returns, neither adds an element to the image
    nor loses one: the list afterwards holds the same mapped sections
    (section, asid, vaddr) as before, possibly in another order; name,
    callback, context and cache size are not changed. *)
Theorem pt_image_read_keeps_entries (img : pt_image) (buffer : list Z)
    (size : Z) (asid : option pt_asid) (addr : Z) (e : env) :
  exists img',
    snd (fst (fst (pt_image_read (Some img) buffer size asid addr e)))
    = Some img'
    /\ Permutation (List.map sl_section (img_sections img'))
                   (List.map sl_section (img_sections img))
    /\ img_name img' = img_name img
    /\ img_callback img' = img_callback img
    /\ img_context img' = img_context img
    /\ img_cache img' = img_cache img.
Proof.
  destruct (pt_image_read (Some img) buffer size asid addr e)
    as [[[r image'] buffer'] e'] eqn:H.
  apply pt_image_read_outcome in H as (img' & -> & Hout).
  exists img'. split; [done |].
  destruct Hout as [-> | before x tl Hl -> | before x tl Hl _ _ _ ->
                   | before x tl l' m s e0 e1 Hl _ _ _ Hpr ->];
    cbn [img_sections img_name img_callback img_context img_cache
         set_sections set_mapped]; repeat split; try done.
  - rewrite Hl. by apply map_sl_section_front.
  - rewrite Hl. by apply map_sl_section_front.
  - apply pt_image_prune_cache_loop_spec in Hpr as (rest' & -> & Hs & _).
    cbn [app]. rewrite Hs, Hl. by apply map_sl_section_front.
Qed.

(** X9.  A read never lets the counter of mapped sections fall below the
    number of elements that are marked as mapped: if the counter is at
    least that number before the read, and below the largest uint16_t, it is
    at least that number afterwards, whatever the read returns. *)
Theorem pt_image_read_counter_covers (img : pt_image) (buffer : list Z)
    (size : Z) (asid : option pt_asid) (addr : Z) (e : env) :
  count_mapped (img_sections img) <= img_mapped img ->
  img_mapped img < 2 ^ 16 - 1 ->
  exists img',
    snd (fst (fst (pt_image_read (Some img) buffer size asid addr e)))
    = Some img'
    /\ count_mapped (img_sections img') <= img_mapped img'.
Proof.
  intros Hc Hr.
  pose proof (count_mapped_nonneg (img_sections img)) as H0.
  destruct (pt_image_read (Some img) buffer size asid addr e)
    as [[[r image'] buffer'] e'] eqn:H.
  apply pt_image_read_outcome in H as (img' & -> & Hout).
  exists img'. split; [done |].
  destruct Hout as [-> | before x tl Hl -> | before x tl Hl Hx _ _ ->
                   | before x tl l' m s e0 e1 Hl Hx _ _ Hpr ->];
    cbn [img_sections img_mapped set_sections set_mapped]; try done.
  - rewrite count_mapped_middle, <- Hl. done.
  - rewrite Hl, count_mapped_app, count_mapped_cons, Hx in Hc.
    rewrite count_mapped_cons, count_mapped_app. cbn [mark_mapped sl_mapped].
    pose proof (count_mapped_nonneg before).
    pose proof (count_mapped_nonneg tl).
    unfold u16. rewrite Z.mod_small by lia. lia.
  - pose proof (pt_image_prune_cache_loop_count _ _ _ _ _ _ _ _ _ _ Hpr) as Hle.
    assert (Hm : 0 <= m < 2 ^ 16)
      by (eapply pt_image_prune_cache_loop_range; [| exact Hpr]; lia).
    apply pt_image_prune_cache_loop_spec in Hpr as (rest' & -> & _ & Hu & _).
    cbn [app] in *. change (count_mapped []) with 0 in Hle.
    rewrite count_mapped_cons, count_mapped_app in Hle.
    cbn [mark_mapped sl_mapped] in Hle.
    rewrite Hl, count_mapped_app, count_mapped_cons, Hx in Hc.
    pose proof (count_mapped_nonneg rest') as Hr'.
    pose proof (count_mapped_nonneg before).
    pose proof (count_mapped_nonneg tl).
    unfold u16 in Hu. rewrite Z.add_0_l in Hu.
    rewrite (Z.mod_small m), (Z.mod_small (count_mapped rest')) in Hu by lia.
    lia.
Qed.

(** X10.  With a cache size of zero a read maps nothing for good: if no
    element is marked as mapped before the read, none is afterwards, and the
    counter of mapped sections is not changed, whatever the read returns. *)
Theorem pt_image_read_cache_disabled (img : pt_image) (buffer : list Z)
    (size : Z) (asid : option pt_asid) (addr : Z) (e : env) :
  img_cache img = 0 ->
  Forall (fun x => sl_mapped x = false) (img_sections img) ->
  exists img',
    snd (fst (fst (pt_image_read (Some img) buffer size asid addr e)))
    = Some img'
    /\ Forall (fun x => sl_mapped x = false) (img_sections img')
    /\ img_mapped img' = img_mapped img.
Proof.
  intros Hc Hl.
  destruct (pt_image_read (Some img) buffer size asid addr e)
    as [[[r image'] buffer'] e'] eqn:H.
  apply pt_image_read_outcome in H as (img' & -> & Hout).
  exists img'. split; [done |].
  destruct Hout as [-> | before x tl Hs -> | before x tl _ _ Hne _ _
                   | before x tl l' m s e0 e1 _ _ Hne _ _ _];
    try done.
  cbn [img_sections img_mapped set_sections]. split; [| done].
  rewrite Hs in Hl. apply Forall_app in Hl as [Hb Hx].
  apply Forall_cons in Hx as [Hx Ht].
  constructor; [done |]. by apply Forall_app.
Qed.

(** ** pt_image_read: hits *)

Lemma pt_image_read_loop_hot image size asid addr e l1 :
  forall before rest buffer,
    Forall (fun y => sl_mapped y = true /\ covers asid addr y = false) l1 ->
    pt_image_read_loop image before (l1 ++ rest) buffer size (Some asid) addr e
    = pt_image_read_loop image (before ++ l1) rest buffer size (Some asid)
        addr e.
Proof.
  induction l1 as [| y l1 IH]; intros before rest buffer Hl1.
  - by rewrite app_nil_r.
  - apply Forall_cons in Hl1 as [[Hy Hmiss] Hl1].
    cbn [app pt_image_read_loop]. rewrite Hy. cbn [negb].
    rewrite pt_msec_read_mapped_miss by done.
    change (- pte_nomap <? 0) with true. cbv iota.
    rewrite IH by done. by rewrite <- app_assoc.
Qed.

(** X11.  Promotion: when the elements at the head of the list are mapped
    and do not contain the address, and the next element is mapped and
    answers the read, the read returns what that element read and moves it to
    the head of the list; nothing else changes: no section is mapped or
    unmapped, no [mapped] bit and no counter is touched. *)
Theorem pt_image_read_promotes_hit (img : pt_image)
    (l1 tl : list pt_section_list) (x : pt_section_list) (buffer : list Z)
    (size : Z) (asid : pt_asid) (addr : Z) (e : env) (status : Z)
    (buffer' : list Z) :
  img_sections img = l1 ++ x :: tl ->
  Forall (fun y => sl_mapped y = true /\ covers asid addr y = false) l1 ->
  sl_mapped x = true ->
  pt_msec_read_mapped (sl_section x) buffer size (Some asid) addr e
  = (status, buffer') ->
  0 <= status ->
  pt_image_read (Some img) buffer size (Some asid) addr e
  = (status, Some (set_sections (x :: l1 ++ tl) img), buffer', e).
Proof.
  intros Hl Hl1 Hx Hread Hstatus. unfold pt_image_read.
  rewrite Hl, pt_image_read_loop_hot by done.
  cbn [app pt_image_read_loop]. rewrite Hx. cbn [negb]. rewrite Hread.
  replace (status <? 0) with false by lia. by rewrite front_eq.
Qed.

Lemma pt_image_read_cold_loop_skip image size asid addr l1 :
  forall before rest buffer e,
    Forall (fun y => covers asid addr y = false) l1 ->
    Forall (in_store e) l1 ->
    map_err e = [] -> unmap_err e = [] ->
    pt_image_read_cold_loop image before (l1 ++ rest) buffer size (Some asid)
      addr e
    = pt_image_read_cold_loop image (before ++ l1) rest buffer size (Some asid)
        addr e.
Proof.
  induction l1 as [| y l1 IH]; intros before rest buffer e Hmiss Hstore Hm Hu.
  - by rewrite app_nil_r.
  - apply Forall_cons in Hmiss as [Hy Hmiss].
    apply Forall_cons in Hstore as [Hsy Hstore].
    cbn [app pt_image_read_cold_loop]. destruct (sl_mapped y); cbn [negb].
    + change (0 <? 0) with false. cbv iota.
      rewrite pt_msec_read_mapped_miss by done.
      change (- pte_nomap <? 0) with true. cbv iota.
      change (0 <? 0) with false. cbv iota.
      rewrite IH by done. by rewrite <- app_assoc.
    + destruct (map_unmap_restores (msec_section (sl_section y)) e)
        as (e1 & -> & _ & Hun); try done.
      change (0 <? 0) with false. cbv iota.
      rewrite pt_msec_read_mapped_miss by done.
      change (- pte_nomap <? 0) with true. cbv iota. rewrite Hun.
      change (0 <? 0) with false. cbv iota.
      rewrite IH by done. by rewrite <- app_assoc.
Qed.

Lemma pt_image_read_loop_to_cold image size asid addr l1 :
  forall before x tl buffer e,
    Forall (fun y => covers asid addr y = false) l1 ->
    Forall (in_store e) l1 ->
    map_err e = [] -> unmap_err e = [] ->
    sl_mapped x = false ->
    pt_image_read_loop image before (l1 ++ x :: tl) buffer size (Some asid)
      addr e
    = pt_image_read_cold (Some image) (before ++ l1) (x :: tl) buffer size
        (Some asid) addr e.
Proof.
  induction l1 as [| y l1 IH]; intros before x tl buffer e Hmiss Hstore Hm Hu Hx.
  - cbn [app pt_image_read_loop]. rewrite Hx. cbn [negb].
    by rewrite app_nil_r.
  - cbn [app pt_image_read_loop]. destruct (sl_mapped y) eqn:Hy; cbn [negb].
    + apply Forall_cons in Hmiss as [Hmy Hmiss].
      apply Forall_cons in Hstore as [_ Hstore].
      rewrite pt_msec_read_mapped_miss by done.
      change (- pte_nomap <? 0) with true. cbv iota.
      rewrite IH by done. by rewrite <- app_assoc.
    + unfold pt_image_read_cold.
      change (y :: l1 ++ x :: tl) with ((y :: l1) ++ x :: tl).
      by rewrite pt_image_read_cold_loop_skip.
Qed.

Lemma pt_msec_read_mapped_hit asid addr x buffer size e st n :
  covers asid addr x = true ->
  store e !! sec_id (msec_section (sl_section x)) = Some st ->
  mcount st = S n ->
  exists buffer',
    pt_msec_read_mapped (sl_section x) buffer size (Some asid) addr e
    = (Z.min size (pt_msec_end (sl_section x) - addr), buffer').
Proof.
  unfold covers, pt_msec_read_mapped. cbn zeta. intros H Hst Hn.
  apply andb_prop in H as [H H3]. apply andb_prop in H as [H1 H2].
  set (m := pt_msec_matches_asid (sl_section x) (Some asid)) in *.
  replace (m <? 0) with false by lia. replace (m =? 0) with false by lia.
  replace ((addr <? pt_msec_begin (sl_section x))
           || (pt_msec_end (sl_section x) <=? addr)) with false by lia.
  unfold pt_section_read_mapped. rewrite Hst, Hn. eexists. f_equal.
  unfold pt_msec_end, pt_msec_begin, pt_section_offset, pt_section_size.
  f_equal. lia.
Qed.

Lemma pt_image_read_demand (img : pt_image)
    (l1 tl : list pt_section_list) (x : pt_section_list) (buffer : list Z)
    (size : Z) (asid : pt_asid) (addr : Z) (e : env) (st : sec_state) :
  img_sections img = l1 ++ x :: tl ->
  Forall (fun y => covers asid addr y = false) l1 ->
  Forall (in_store e) l1 ->
  store e !! sec_id (msec_section (sl_section x)) = Some st ->
  sl_mapped x = false ->
  covers asid addr x = true ->
  map_err e = [] -> unmap_err e = [] ->
  0 <= size ->
  img_cache img <> 0 ->
  u16 (img_mapped img + 1) <= img_cache img ->
  exists buffer',
    pt_image_read (Some img) buffer size (Some asid) addr e
    = (Z.min size (pt_msec_end (sl_section x) - addr),
       Some (set_mapped (u16 (img_mapped img + 1))
               (set_sections (mark_mapped x :: l1 ++ tl) img)),
       buffer',
       set_store (<[sec_id (msec_section (sl_section x)) :=
                      {| ucount := ucount st; mcount := S (mcount st) |}]>
                    (store e)) e).
Proof.
  intros Hl Hmiss Hstore Hst Hx Hcov Hm Hu Hsize Hcache Hroom.
  unfold pt_image_read. rewrite Hl, pt_image_read_loop_to_cold by done.
  unfold pt_image_read_cold. cbn [app pt_image_read_cold_loop].
  rewrite Hx. cbn [negb].
  unfold pt_section_map, next_map_err. rewrite Hst, Hm.
  change (0 <? 0) with false. cbv iota.
  destruct (pt_msec_read_mapped_hit asid addr x buffer size
              (set_store (<[sec_id (msec_section (sl_section x)) :=
                             {| ucount := ucount st;
                                mcount := S (mcount st) |}]> (store e)) e)
              {| ucount := ucount st; mcount := S (mcount st) |} (mcount st))
    as (buffer' & ->); [done | | done |].
  { cbn [store set_store]. by rewrite lookup_insert_eq. }
  assert (Hend : addr < pt_msec_end (sl_section x)).
  { unfold covers in Hcov. apply andb_prop in Hcov as [_ Hcov]. lia. }
  replace (Z.min size (pt_msec_end (sl_section x) - addr) <? 0) with false
    by lia.
  rewrite front_eq. apply Z.eqb_neq in Hcache. rewrite Hcache. cbn [negb].
  replace (img_cache img <? u16 (img_mapped img + 1)) with false by lia.
  by exists buffer'.
Qed.

(** X12.  Demand mapping: when the elements before [x] do not contain the
    address, [x] is not mapped and contains the address in a matching address
    space, no map or unmap fails and the cache has room for one more section,
    the read maps the section of [x], reads from it the bytes up to the end
    of [x] (at most [size]), marks [x] as mapped, counts it and moves it to
    the head of the list; the section stays mapped. *)
Theorem pt_image_read_maps_on_demand (img : pt_image)
    (l1 tl : list pt_section_list) (x : pt_section_list) (buffer : list Z)
    (size : Z) (asid : pt_asid) (addr : Z) (e : env) (st : sec_state) :
  img_sections img = l1 ++ x :: tl ->
  Forall (fun y => covers asid addr y = false) l1 ->
  Forall (in_store e) l1 ->
  store e !! sec_id (msec_section (sl_section x)) = Some st ->
  sl_mapped x = false ->
  covers asid addr x = true ->
  map_err e = [] -> unmap_err e = [] ->
  0 <= size ->
  img_cache img <> 0 ->
  u16 (img_mapped img + 1) <= img_cache img ->
  exists buffer',
    pt_image_read (Some img) buffer size (Some asid) addr e
    = (Z.min size (pt_msec_end (sl_section x) - addr),
       Some (set_mapped (u16 (img_mapped img + 1))
               (set_sections (mark_mapped x :: l1 ++ tl) img)),
       buffer',
       set_store (<[sec_id (msec_section (sl_section x)) :=
                      {| ucount := ucount st; mcount := S (mcount st) |}]>
                    (store e)) e).
Proof. apply pt_image_read_demand. Qed.

(** ** pt_image_prune_cache: success and capacity *)

Lemma pt_image_prune_cache_loop_error cache rest :
  forall mapped status done e l m s e',
    pt_image_prune_cache_loop cache mapped status done rest e = (l, m, s, e') ->
    status < 0 -> s < 0.
Proof.
  induction rest as [| x tl IH]; intros mapped status done e l m s e' H Hs;
    cbn [pt_image_prune_cache_loop] in H.
  - by injection H as <- <- <- <-.
  - destruct (negb (sl_mapped x)); [by eapply IH |].
    destruct (u16 (mapped + 1) <=? cache); [by eapply IH |].
    destruct (pt_section_unmap _ e) as [errcode e1].
    destruct (errcode <? 0) eqn:He; eapply IH; try exact H; lia.
Qed.

Lemma pt_image_prune_cache_loop_success cache rest :
  forall mapped status done e l m e',
    pt_image_prune_cache_loop cache mapped status done rest e = (l, m, 0, e') ->
    cache < 2 ^ 16 - 1 ->
    0 <= mapped <= cache ->
    mapped = count_mapped done ->
    m = count_mapped l /\ m <= cache.
Proof.
  induction rest as [| x tl IH]; intros mapped status done e l m e' H Hc Hm Hd;
    cbn [pt_image_prune_cache_loop] in H.
  - injection H as <- <- _ <-. split; [done | lia].
  - destruct (sl_mapped x) eqn:Hx; cbn [negb] in H.
    + assert (Hu : u16 (mapped + 1) = mapped + 1)
        by (unfold u16; apply Z.mod_small; lia).
      rewrite Hu in H.
      destruct (mapped + 1 <=? cache) eqn:Hle.
      * eapply IH; [exact H | lia | lia |].
        rewrite count_mapped_app, count_mapped_cons, Hx.
        change (count_mapped []) with 0. lia.
      * destruct (pt_section_unmap _ e) as [errcode e1].
        destruct (errcode <? 0) eqn:He.
        -- apply pt_image_prune_cache_loop_error in H; lia.
        -- replace (u16 (mapped + 1 - 1)) with mapped in H
             by (unfold u16; rewrite Z.mod_small; lia).
           eapply IH; [exact H | lia | lia |].
           rewrite count_mapped_app, count_mapped_cons.
           cbn [unmapped sl_mapped]. change (count_mapped []) with 0. lia.
    + eapply IH; [exact H | lia | lia |].
      rewrite count_mapped_app, count_mapped_cons, Hx.
      change (count_mapped []) with 0. lia.
Qed.

(** X13.  When [pt_image_prune_cache] returns success, for a cache size
    below the largest uint16_t, the image is within its capacity: the number
    of elements marked as mapped is at most the cache size, and the counter
    of mapped sections is exactly that number. *)
Theorem pt_image_prune_cache_success_bound (img img' : pt_image) (e e' : env) :
  0 <= img_cache img < 2 ^ 16 - 1 ->
  pt_image_prune_cache (Some img) e = (0, Some img', e') ->
  count_mapped (img_sections img') <= img_cache img
  /\ img_mapped img' = count_mapped (img_sections img').
Proof.
  intros Hc H. unfold pt_image_prune_cache in H.
  destruct (pt_image_prune_cache_loop _ _ _ _ _ _) as [[[l m] s] e1] eqn:Hl.
  injection H as -> <- <-. cbn [img_sections img_mapped set_mapped set_sections].
  apply pt_image_prune_cache_loop_success in Hl as [-> Hle]; try done; lia.
Qed.

Lemma pt_image_prune_cache_loop_within cache rest :
  forall mapped status done e,
    0 <= mapped ->
    mapped + count_mapped rest <= cache ->
    cache < 2 ^ 16 ->
    pt_image_prune_cache_loop cache mapped status done rest e
    = (done ++ rest, mapped + count_mapped rest, status, e).
Proof.
  induction rest as [| x tl IH]; intros mapped status done e H0 Hle Hc;
    cbn [pt_image_prune_cache_loop].
  - change (count_mapped []) with 0. by rewrite app_nil_r, Z.add_0_r.
  - rewrite count_mapped_cons in *.
    pose proof (count_mapped_nonneg tl).
    destruct (sl_mapped x) eqn:Hx; cbn [negb].
    + replace (u16 (mapped + 1)) with (mapped + 1)
        by (unfold u16; rewrite Z.mod_small; lia).
      replace (mapped + 1 <=? cache) with true by lia.
      rewrite IH by lia. rewrite <- app_assoc. do 3 f_equal. lia.
    + rewrite IH by lia. rewrite <- app_assoc. do 3 f_equal.
Qed.

(** X14.  Pruning an image that is within its capacity (the number of
    elements marked as mapped is at most the cache size) unmaps nothing and
    leaves list and environment as they are; it returns success and sets the
    counter of mapped sections to the number of elements marked as mapped,
    whatever the counter was. *)
Theorem pt_image_prune_cache_within_capacity (img : pt_image) (e : env) :
  count_mapped (img_sections img) <= img_cache img ->
  img_cache img < 2 ^ 16 ->
  pt_image_prune_cache (Some img) e
  = (0, Some (set_mapped (count_mapped (img_sections img)) img), e).
Proof.
  intros Hle Hc. unfold pt_image_prune_cache.
  rewrite pt_image_prune_cache_loop_within by (try done; lia).
  cbn [app]. by rewrite set_sections_same.
Qed.

(** ** pt_image_fini and pt_image_free: the sections *)

Lemma next_unmap_err_store (e : env) : store (snd (next_unmap_err e)) = store e.
Proof. unfold next_unmap_err. by destruct (unmap_err e). Qed.

Lemma pt_section_unmap_frame (s : pt_section) (e : env) (id : positive) :
  sec_id s <> id ->
  store (snd (pt_section_unmap s e)) !! id = store e !! id.
Proof.
  intros Hne. unfold pt_section_unmap.
  pose proof (next_unmap_err_store e) as Hs.
  repeat case_match; cbn [snd store set_store]; try done;
    cbn [snd] in Hs; rewrite ?Hs; try done.
  by rewrite lookup_insert_ne.
Qed.

Lemma pt_section_unmap_ucount (s : pt_section) (e : env) (st : sec_state) :
  store e !! sec_id s = Some st ->
  exists st',
    store (snd (pt_section_unmap s e)) !! sec_id s = Some st'
    /\ ucount st' = ucount st.
Proof.
  intros Hst. unfold pt_section_unmap. rewrite Hst.
  pose proof (next_unmap_err_store e) as Hs.
  repeat case_match; cbn [snd store set_store] in *; rewrite ?Hs;
    try (by exists st).
  rewrite lookup_insert_eq. by eexists.
Qed.

Lemma pt_section_put_frame (s : pt_section) (e : env) (id : positive) :
  sec_id s <> id ->
  store (snd (pt_section_put s e)) !! id = store e !! id.
Proof.
  intros Hne. unfold pt_section_put.
  repeat case_match; cbn [snd store set_store]; try done.
  - by rewrite lookup_delete_ne.
  - by rewrite lookup_insert_ne.
Qed.

Lemma pt_section_put_last (s : pt_section) (e : env) (st : sec_state) :
  store e !! sec_id s = Some st ->
  ucount st = 1%nat ->
  store (snd (pt_section_put s e)) !! sec_id s = None.
Proof.
  intros Hst Hu. unfold pt_section_put. rewrite Hst, Hu.
  cbn [snd store set_store]. by rewrite lookup_delete_eq.
Qed.

Lemma pt_section_list_free_frame (x : pt_section_list) (e : env)
    (id : positive) :
  entry_id x <> id ->
  store (pt_section_list_free x e) !! id = store e !! id.
Proof.
  intros Hne. unfold pt_section_list_free.
  rewrite pt_section_put_frame by done.
  destruct (sl_mapped x); [| done]. by apply pt_section_unmap_frame.
Qed.

Lemma pt_section_list_free_tail_frame (l : list pt_section_list) (id : positive) :
  forall e,
    Forall (fun x => entry_id x <> id) l ->
    store (pt_section_list_free_tail l e) !! id = store e !! id.
Proof.
  induction l as [| x l IH]; intros e Hl; [done |].
  apply Forall_cons in Hl as [Hx Hl]. cbn [pt_section_list_free_tail].
  rewrite IH by done. by apply pt_section_list_free_frame.
Qed.

(** X15.  Freeing an image touches no section but those of its elements:
    the reference and map counts of every section that no element of the
    image refers to are the same before and after [pt_image_free]. *)
Theorem pt_image_free_frame (img : pt_image) (e : env) (id : positive) :
  Forall (fun x => entry_id x <> id) (img_sections img) ->
  store (pt_image_free (Some img) e) !! id = store e !! id.
Proof.
  intros Hl. unfold pt_image_free, pt_image_fini. cbn [snd].
  by apply pt_section_list_free_tail_frame.
Qed.

(** X16.  Freeing an image destroys a section that only this image holds:
    if exactly one element refers to the section and the section has one
    reference, the section is gone from the store after [pt_image_free],
    whether or not it was mapped and whether or not its unmap fails. *)
Theorem pt_image_free_destroys_last_reference (img : pt_image)
    (l1 l2 : list pt_section_list) (x : pt_section_list) (e : env)
    (st : sec_state) :
  img_sections img = l1 ++ x :: l2 ->
  Forall (fun y => entry_id y <> entry_id x) l1 ->
  Forall (fun y => entry_id y <> entry_id x) l2 ->
  store e !! entry_id x = Some st ->
  ucount st = 1%nat ->
  store (pt_image_free (Some img) e) !! entry_id x = None.
Proof.
  intros Hl Hl1 Hl2 Hst Hu. unfold pt_image_free, pt_image_fini. cbn [snd].
  rewrite Hl. clear Hl. revert e Hst.
  induction Hl1 as [| y l1 Hy _ IH]; intros e Hst; cbn [app pt_section_list_free_tail].
  - rewrite pt_section_list_free_tail_frame by done.
    unfold pt_section_list_free.
    destruct (sl_mapped x).
    + destruct (pt_section_unmap_ucount (msec_section (sl_section x)) e st Hst)
        as (st' & Hst' & Hu').
      eapply pt_section_put_last; [exact Hst' | congruence].
    + by eapply pt_section_put_last.
  - apply IH. by rewrite pt_section_list_free_frame.
Qed.

(** ** pt_image_add_file: the reference of the caller *)

Lemma pt_image_add_file_append (img : pt_image) (filename : string)
    (offset size : Z) (uasid : option pt_asid_user) (asid : pt_asid)
    (vaddr : Z) (e : env) :
  let section :=
    {| sec_id := next_id e; sec_filename := filename; sec_offset := offset;
       sec_size := size |} in
  pt_asid_from_user uasid = (0, asid) ->
  size <> 0 ->
  alloc_fail e = [] ->
  Forall (fun y => passes (Some asid) vaddr (u64 (vaddr + size)) y = true)
         (img_sections img) ->
  pt_image_add_file (Some img) (Some filename) offset size uasid vaddr e
  = (0,
     Some (set_sections
             (img_sections img ++ [new_entry section (Some asid) vaddr]) img),
     {| store := <[next_id e := {| ucount := 1; mcount := 0 |}]> (store e);
        next_id := Pos.succ (next_id e); alloc_fail := [];
        map_err := map_err e; unmap_err := unmap_err e;
        file_data := file_data e |}).
Proof.
  cbn zeta. intros Hu Hsize Halloc Hpass. unfold pt_image_add_file.
  rewrite Hu. change (0 <? 0) with false. cbv iota.
  unfold pt_mk_section. apply Z.eqb_neq in Hsize. rewrite Hsize.
  rewrite malloc_no_failure by done. cbv iota. cbn zeta.
  rewrite (pt_image_add_append img _ (Some asid) vaddr _
             {| ucount := 1; mcount := 0 |});
    [| done | by rewrite malloc_no_failure
     | cbn [store sec_id]; by rewrite lookup_insert_eq].
  change (0 <? 0) with false. cbv iota.
  rewrite malloc_no_failure by done. cbn [snd].
  unfold pt_section_put, add_reference.
  cbn [store set_store sec_id ucount mcount].
  rewrite lookup_insert_eq. cbn [ucount mcount].
  change (0 <? 0) with false. cbv iota.
  rewrite !insert_insert_eq. unfold set_store.
  cbn [store next_id alloc_fail map_err unmap_err file_data].
  by rewrite Halloc.
Qed.

(** X17.  When no allocation fails and the range overlaps no element that
    matches the asid, [pt_image_add_file] returns zero and appends one
    element for a new section over the given file range, not mapped, with the
    asid the user's asid converts to; the image is then the only holder of
    the section (one reference), and nothing else in the store changes. *)
Theorem pt_image_add_file_single_reference (img : pt_image) (filename : string)
    (offset size : Z) (uasid : option pt_asid_user) (asid : pt_asid)
    (vaddr : Z) (e : env) :
  let section :=
    {| sec_id := next_id e; sec_filename := filename; sec_offset := offset;
       sec_size := size |} in
  pt_asid_from_user uasid = (0, asid) ->
  size <> 0 ->
  alloc_fail e = [] ->
  Forall (fun y => passes (Some asid) vaddr (u64 (vaddr + size)) y = true)
         (img_sections img) ->
  pt_image_add_file (Some img) (Some filename) offset size uasid vaddr e
  = (0,
     Some (set_sections
             (img_sections img ++ [new_entry section (Some asid) vaddr]) img),
     {| store := <[next_id e := {| ucount := 1; mcount := 0 |}]> (store e);
        next_id := Pos.succ (next_id e); alloc_fail := [];
        map_err := map_err e; unmap_err := unmap_err e;
        file_data := file_data e |}).
Proof. apply pt_image_add_file_append. Qed.

(** ** pt_image_add_file: the section is added or released *)

Lemma frame_refl (sid : positive) (e : env) :
  (sid < next_id e)%positive -> frame sid e e.
Proof. by split. Qed.

Lemma frame_trans (sid : positive) (e1 e2 e3 : env) :
  frame sid e1 e2 -> frame sid e2 e3 -> frame sid e1 e3.
Proof. intros [H1 _] [H2 H3]. split; [congruence | done]. Qed.

Lemma frame_lt (sid : positive) (e e' : env) :
  frame sid e e' -> (sid < next_id e')%positive.
Proof. by intros [_ H]. Qed.

Lemma malloc_next_id (e : env) : next_id (snd (malloc e)) = next_id e.
Proof. unfold malloc. by destruct (alloc_fail e). Qed.

Lemma malloc_frame (sid : positive) (e : env) :
  (sid < next_id e)%positive -> frame sid e (snd (malloc e)).
Proof. intros H. split; [by rewrite malloc_store | by rewrite malloc_next_id]. Qed.

Lemma pt_mk_section_frame (sid : positive) (filename : string)
    (offset size : Z) (e : env) :
  (sid < next_id e)%positive ->
  frame sid e (snd (pt_mk_section filename offset size e))
  /\ forall c, fst (pt_mk_section filename offset size e) = Some c ->
               sec_id c <> sid.
Proof.
  intros Hlt. unfold pt_mk_section.
  destruct (size =? 0); [by split; [apply frame_refl |] |].
  pose proof (malloc_frame sid e Hlt) as [Hs Hn].
  destruct (malloc e) as [fail e1]. cbn [snd] in Hs, Hn.
  destruct fail; cbn [fst snd]; [by split |].
  split.
  - split; cbn [store next_id]; [| lia].
    rewrite lookup_insert_ne by lia. done.
  - intros c [= <-]. cbn [sec_id]. lia.
Qed.

Lemma pt_section_clone_frame (sid : positive) (parent : pt_section)
    (offset size : Z) (e : env) :
  (sid < next_id e)%positive ->
  frame sid e (snd (pt_section_clone parent offset size e))
  /\ forall c, snd (fst (pt_section_clone parent offset size e)) = Some c ->
               sec_id c <> sid.
Proof.
  intros Hlt. unfold pt_section_clone.
  case_match; [by split; [apply frame_refl |] |].
  pose proof (pt_mk_section_frame sid (sec_filename parent) offset size e Hlt)
    as [Hf Hc].
  destruct (pt_mk_section (sec_filename parent) offset size e) as [[c |] e1];
    cbn [fst snd] in *; [| by split].
  split; [done |]. intros c' [= <-]. by apply Hc.
Qed.

Lemma pt_section_get_frame (sid : positive) (s : pt_section) (e : env) :
  sec_id s <> sid ->
  (sid < next_id e)%positive ->
  frame sid e (snd (pt_section_get s e)).
Proof.
  intros Hne Hlt. unfold pt_section_get.
  case_match; cbn [snd]; [| by apply frame_refl].
  split; cbn [store set_store next_id]; [| done].
  by rewrite lookup_insert_ne.
Qed.

Lemma pt_section_put_next_id (s : pt_section) (e : env) :
  next_id (snd (pt_section_put s e)) = next_id e.
Proof. unfold pt_section_put. by repeat case_match. Qed.

Lemma pt_section_unmap_next_id (s : pt_section) (e : env) :
  next_id (snd (pt_section_unmap s e)) = next_id e.
Proof.
  unfold pt_section_unmap, next_unmap_err.
  by repeat case_match; simplify_eq.
Qed.

Lemma pt_section_list_free_next_id (x : pt_section_list) (e : env) :
  next_id (pt_section_list_free x e) = next_id e.
Proof.
  unfold pt_section_list_free. rewrite pt_section_put_next_id.
  destruct (sl_mapped x); [apply pt_section_unmap_next_id | done].
Qed.

Lemma pt_section_list_free_keeps (sid : positive) (x : pt_section_list)
    (e : env) :
  entry_id x <> sid ->
  (sid < next_id e)%positive ->
  frame sid e (pt_section_list_free x e).
Proof.
  intros Hne Hlt. split.
  - by apply pt_section_list_free_frame.
  - by rewrite pt_section_list_free_next_id.
Qed.

Lemma pt_mk_section_list_frame (sid : positive) (section : pt_section)
    (asid : option pt_asid) (vaddr : Z) (e : env) :
  sec_id section <> sid ->
  (sid < next_id e)%positive ->
  frame sid e (snd (pt_mk_section_list section asid vaddr e))
  /\ forall n, fst (pt_mk_section_list section asid vaddr e) = Some n ->
               entry_id n <> sid.
Proof.
  intros Hne Hlt. unfold pt_mk_section_list.
  pose proof (malloc_frame sid e Hlt) as Hm.
  destruct (malloc e) as [fail e1]. cbn [snd] in Hm.
  destruct fail; cbn [fst snd]; [by split |].
  pose proof (pt_section_get_frame sid section e1 Hne (frame_lt _ _ _ Hm))
    as Hg.
  destruct (pt_section_get section e1) as [errcode e2]. cbn [snd] in Hg.
  assert (Hf : frame sid e e2) by (by eapply frame_trans).
  destruct (errcode <? 0); cbn [fst snd]; [by split |].
  split; [done |]. by intros n [= <-].
Qed.

Lemma pt_image_clone_frame (sid : positive) (lst : list pt_section_list)
    (msec : pt_mapped_section) (begin end_ : Z) (e : env) :
  (sid < next_id e)%positive ->
  frame sid e (snd (pt_image_clone lst msec begin end_ e))
  /\ (snd (fst (pt_image_clone lst msec begin end_ e)) = lst
      \/ exists c, snd (fst (pt_image_clone lst msec begin end_ e)) = c :: lst
                   /\ entry_id c <> sid).
Proof.
  intros Hlt. unfold pt_image_clone.
  destruct (end_ <=? begin); [by split; [apply frame_refl | left] |].
  destruct (begin <? u64 (pt_msec_begin msec));
    [by split; [apply frame_refl | left] |].
  cbn zeta.
  pose proof (pt_section_clone_frame sid (msec_section msec)
                (u64 (u64 (pt_section_offset (msec_section msec))
                      + u64 (begin - u64 (pt_msec_begin msec))))
                (u64 (end_ - begin)) e Hlt) as [Hf Hc].
  destruct (pt_section_clone _ _ _ e) as [[errcode section] e1].
  cbn [fst snd] in Hf, Hc.
  destruct (errcode <? 0); [by split; [| left] |].
  destruct section as [c |]; [| by split; [| left]].
  specialize (Hc c eq_refl).
  pose proof (pt_mk_section_list_frame sid c (pt_msec_asid msec) begin e1 Hc
                (frame_lt _ _ _ Hf)) as [Hf2 Hn].
  destruct (pt_mk_section_list c (pt_msec_asid msec) begin e1) as [[n |] e2];
    cbn [fst snd] in Hf2, Hn.
  - specialize (Hn n eq_refl).
    assert (Hf3 : frame sid e (snd (pt_section_put c e2))).
    { eapply frame_trans; [exact Hf |]. eapply frame_trans; [exact Hf2 |].
      split; [by apply pt_section_put_frame |].
      rewrite pt_section_put_next_id. by eapply frame_lt. }
    destruct (pt_section_put c e2) as [errcode2 e3]. cbn [snd] in Hf3.
    destruct (errcode2 <? 0); cbn [fst snd].
    + split; [| by left].
      eapply frame_trans; [exact Hf3 |].
      apply pt_section_list_free_keeps; [done | by eapply frame_lt].
    + split; [done |]. right. by exists n.
  - cbn [fst snd]. split; [| by left].
    eapply frame_trans; [exact Hf |]. eapply frame_trans; [exact Hf2 |].
    split; [by apply pt_section_put_frame |].
    rewrite pt_section_put_next_id. by eapply frame_lt.
Qed.

Lemma pt_section_list_free_tail_app (l1 l2 : list pt_section_list) (e : env) :
  pt_section_list_free_tail (l1 ++ l2) e
  = pt_section_list_free_tail l2 (pt_section_list_free_tail l1 e).
Proof.
  revert e. induction l1 as [| x l1 IH]; intros e; [done |].
  cbn [app pt_section_list_free_tail]. apply IH.
Qed.

Lemma pt_image_add_loop_frame (sid : positive) (section : pt_section)
    (asid : option pt_asid) (begin end_ : Z) (new : pt_section_list) :
  forall rest errcode kept clones removed e,
    Forall (fun y => entry_id y <> sid) rest ->
    Forall (fun y => entry_id y <> sid) clones ->
    Forall (fun y => entry_id y <> sid) removed ->
    (sid < next_id e)%positive ->
    match pt_image_add_loop section asid begin end_ errcode kept rest
            (clones ++ [new]) removed e with
    | AddReturn r l e' =>
        exists e0, frame sid e e0 /\ e' = pt_section_list_free new e0
    | AddLeave st =>
        frame sid e (as_env st)
        /\ Forall (fun y => entry_id y <> sid) (as_removed st)
        /\ exists clones',
             as_next st = clones' ++ [new]
             /\ Forall (fun y => entry_id y <> sid) clones'
    end.
Proof.
  induction rest as [| current tl IH];
    intros errcode kept clones removed e Hrest Hclones Hremoved Hlt.
  - cbn [pt_image_add_loop as_env as_removed as_next].
    split; [by apply frame_refl |]. split; [done |]. by exists clones.
  - apply Forall_cons in Hrest as [Hcur Htl].
    cbn [pt_image_add_loop]. cbn zeta.
    assert (Hstop : forall err nxt,
              nxt = clones ++ [new] ->
              match AddLeave {| as_errcode := err; as_kept := kept;
                                as_rest := current :: tl; as_next := nxt;
                                as_removed := removed; as_env := e |} with
              | AddReturn r l e' =>
        exists e0, frame sid e e0 /\ e' = pt_section_list_free new e0
              | AddLeave st =>
                  frame sid e (as_env st)
                  /\ Forall (fun y => entry_id y <> sid) (as_removed st)
                  /\ exists clones',
                       as_next st = clones' ++ [new]
                       /\ Forall (fun y => entry_id y <> sid) clones'
              end).
    { intros err nxt ->. cbn [as_env as_removed as_next].
      split; [by apply frame_refl |]. split; [done |]. by exists clones. }
    destruct (pt_msec_matches_asid (sl_section current) asid <? 0);
      [by apply Hstop |].
    destruct (pt_msec_matches_asid (sl_section current) asid =? 0);
      [by apply IH |].
    destruct ((end_ <=? u64 (pt_msec_begin (sl_section current)))
              || (u64 (pt_msec_end (sl_section current)) <=? begin));
      [by apply IH |].
    set (identical := if (begin =? _) && (end_ =? _) then _ else Replace).
    assert (Hid : identical = Dedup -> removed = [] /\ clones = []).
    { subst identical. repeat case_match; try discriminate.
      intros _. split; [done |].
      destruct clones as [| c [| c' cl]]; [done | discriminate
                                          | discriminate]. }
    destruct identical.
    + destruct (Hid eq_refl) as [-> ->]. exists e.
      split; [by apply frame_refl | done].
    + by apply Hstop.
    + clear Hid Hstop.
      set (e1 := if sl_mapped current
                 then snd (pt_section_unmap
                             (msec_section (sl_section current)) e)
                 else e).
      assert (Hf1 : frame sid e e1).
      { subst e1. destruct (sl_mapped current); [| by apply frame_refl].
        split; [by apply pt_section_unmap_frame |].
        by rewrite pt_section_unmap_next_id. }
      assert (Hrem : Forall (fun y => entry_id y <> sid)
                       (unmapped current :: removed))
        by (by constructor).
      set (left := if u64 (pt_msec_begin (sl_section current)) <? begin
                   then _ else _).
      assert (Hleft : frame sid e (snd left)
                      /\ exists clones1,
                           snd (fst left) = clones1 ++ [new]
                           /\ Forall (fun y => entry_id y <> sid) clones1).
      { subst left.
        destruct (u64 (pt_msec_begin (sl_section current)) <? begin).
        - destruct (pt_image_clone_frame sid (clones ++ [new])
                      (sl_section current)
                      (u64 (pt_msec_begin (sl_section current))) begin e1
                      (frame_lt _ _ _ Hf1)) as [Hf [-> | (c & -> & Hc)]].
          + split; [by eapply frame_trans |]. by exists clones.
          + split; [by eapply frame_trans |]. exists (c :: clones).
            split; [done | by constructor].
        - cbn [fst snd]. split; [done |]. by exists clones. }
      destruct left as [[errcode1 next1] e2].
      cbn [fst snd] in Hleft. destruct Hleft as (Hf2 & clones1 & -> & Hc1).
      destruct (errcode1 <? 0).
      { cbn [as_env as_removed as_next].
        split; [done |]. split; [done |]. by exists clones1. }
      set (right := if end_ <? u64 (pt_msec_end (sl_section current))
                    then _ else _).
      assert (Hright : frame sid e (snd right)
                       /\ exists clones2,
                            snd (fst right) = clones2 ++ [new]
                            /\ Forall (fun y => entry_id y <> sid) clones2).
      { subst right.
        destruct (end_ <? u64 (pt_msec_end (sl_section current))).
        - destruct (pt_image_clone_frame sid (clones1 ++ [new])
                      (sl_section current) end_
                      (u64 (pt_msec_end (sl_section current))) e2
                      (frame_lt _ _ _ Hf2)) as [Hf [-> | (c & -> & Hc)]].
          + split; [by eapply frame_trans |]. by exists clones1.
          + split; [by eapply frame_trans |]. exists (c :: clones1).
            split; [done | by constructor].
        - cbn [fst snd]. split; [done |]. by exists clones1. }
      destruct right as [[errcode2 next2] e3].
      cbn [fst snd] in Hright. destruct Hright as (Hf3 & clones2 & -> & Hc2).
      destruct (errcode2 <? 0).
      { cbn [as_env as_removed as_next].
        split; [done |]. split; [done |]. by exists clones2. }
      specialize (IH errcode2 kept clones2 (unmapped current :: removed) e3
                    Htl Hc2 Hrem (frame_lt _ _ _ Hf3)).
      destruct (pt_image_add_loop section asid begin end_ errcode2 kept tl
                  (clones2 ++ [new]) (unmapped current :: removed) e3)
        as [r l e' | st].
      * destruct IH as (e0 & Hf4 & ->). exists e0.
        split; [by eapply frame_trans | done].
      * destruct IH as (Hf4 & Hr4 & Hn4). split; [by eapply frame_trans |].
        by split.
Qed.

Lemma pt_section_put_shared (s : pt_section) (e : env) (n m : nat) :
  store e !! sec_id s = Some {| ucount := S (S n); mcount := m |} ->
  pt_section_put s e
  = (0, set_store (<[sec_id s := {| ucount := S n; mcount := m |}]> (store e))
          e).
Proof. intros H. unfold pt_section_put. by rewrite H. Qed.

Lemma pt_image_add_reference_count (img : pt_image) (section : pt_section)
    (asid : option pt_asid) (vaddr : Z) (e : env) (st : sec_state) :
  store e !! sec_id section = Some st ->
  (0 < ucount st)%nat ->
  (sec_id section < next_id e)%positive ->
  Forall (fun y => entry_id y <> sec_id section) (img_sections img) ->
  let r := pt_image_add (Some img) (Some section) asid vaddr e in
  (fst (fst r) < 0 -> store (snd r) !! sec_id section = Some st)
  /\ (store (snd r) !! sec_id section = Some st
      \/ store (snd r) !! sec_id section
         = Some {| ucount := S (ucount st); mcount := mcount st |}).
Proof.
  intros Hst Hu Hlt Himg. cbn zeta. unfold pt_image_add.
  destruct (fst (malloc e)) eqn:Hm.
  - unfold pt_mk_section_list. destruct (malloc e) as [fail e1] eqn:Hme.
    cbn [fst] in Hm. subst fail. cbn [fst snd].
    pose proof (malloc_store e) as Hs. rewrite Hme in Hs. cbn [snd] in Hs.
    rewrite Hs. by split; [| left].
  - rewrite (pt_mk_section_list_eq section asid vaddr e st Hm Hst).
    set (e1 := set_store (add_reference section st (store e)) (snd (malloc e))).
    assert (Hlt1 : (sec_id section < next_id e1)%positive).
    { subst e1. cbn [set_store next_id]. by rewrite malloc_next_id. }
    assert (Hst1 : store e1 !! sec_id section
                   = Some {| ucount := S (ucount st); mcount := mcount st |}).
    { subst e1. unfold add_reference. cbn [set_store store].
      by rewrite lookup_insert_eq. }
    assert (Hfree : forall e0,
              frame (sec_id section) e1 e0 ->
              store (pt_section_list_free (new_entry section asid vaddr) e0)
              !! sec_id section = Some st).
    { intros e0 [Hs0 _]. rewrite Hst1 in Hs0.
      unfold pt_section_list_free, new_entry.
      cbn [sl_mapped sl_section pt_msec_init msec_section].
      destruct st as [[| u] m]; [cbn [ucount] in Hu; lia |].
      cbn [ucount mcount] in Hs0.
      rewrite (pt_section_put_shared section e0 u m Hs0).
      cbn [snd set_store store]. by rewrite lookup_insert_eq. }
    pose proof (pt_image_add_loop_frame (sec_id section) section asid vaddr
                  (u64 (vaddr + pt_section_size section))
                  (new_entry section asid vaddr) (img_sections img) 0 [] []
                  [] e1 Himg (Forall_nil_2 _) (Forall_nil_2 _) Hlt1) as Hloop.
    cbn [app] in Hloop.
    destruct (pt_image_add_loop section asid vaddr
                (u64 (vaddr + pt_section_size section)) 0 []
                (img_sections img) [new_entry section asid vaddr] [] e1)
      as [r l e' | s].
    + destruct Hloop as (e0 & Hf & ->). cbn [fst snd].
      rewrite (Hfree e0 Hf). by split; [| left].
    + destruct Hloop as (Hf & Hrem & clones & Hnext & Hclones).
      destruct (as_errcode s <? 0) eqn:Herr; cbn [fst snd].
      * rewrite Hnext, pt_section_list_free_tail_app.
        cbn [pt_section_list_free_tail].
        rewrite Hfree; [by split; [| left] |].
        eapply frame_trans; [exact Hf |]. clear Hnext.
        generalize (as_env s) (frame_lt _ _ _ Hf).
        induction Hclones as [| c clones Hc _ IH]; intros e0 Hlt0;
          cbn [pt_section_list_free_tail]; [by apply frame_refl |].
        eapply frame_trans; [by apply pt_section_list_free_keeps |].
        apply IH. by rewrite pt_section_list_free_next_id.
      * rewrite pt_section_list_free_tail_frame by done.
        destruct Hf as [-> _]. rewrite Hst1. split; [lia | by right].
Qed.

(** X18.  A failed [pt_image_add] keeps no reference to the section, and a
    successful one takes at most one: for a section that is in the store
    with a reference and that no element of the image refers to, the
    reference count after a failure is the one before; after a success it is
    the one before (the identical section was there already) or one more.
    The map count stays as it was. *)
Theorem pt_image_add_takes_one_reference (img : pt_image)
    (section : pt_section) (asid : option pt_asid) (vaddr : Z) (e : env)
    (st : sec_state) :
  store e !! sec_id section = Some st ->
  (0 < ucount st)%nat ->
  (sec_id section < next_id e)%positive ->
  Forall (fun y => entry_id y <> sec_id section) (img_sections img) ->
  let r := pt_image_add (Some img) (Some section) asid vaddr e in
  (fst (fst r) < 0 -> store (snd r) !! sec_id section = Some st)
  /\ (store (snd r) !! sec_id section = Some st
      \/ store (snd r) !! sec_id section
         = Some {| ucount := S (ucount st); mcount := mcount st |}).
Proof. apply pt_image_add_reference_count. Qed.

(** X19.  [pt_image_add_file] adds the section it makes or releases it: when
    the next section identity is fresh, a failure leaves no section behind,
    and in every case the section is gone or has one reference (the one
    of the image) and is not mapped. *)
Theorem pt_image_add_file_releases_section (img : pt_image)
    (filename : string) (offset size : Z) (uasid : option pt_asid_user)
    (vaddr : Z) (e : env) :
  store e !! next_id e = None ->
  Forall (fun y => entry_id y <> next_id e) (img_sections img) ->
  let r :=
    pt_image_add_file (Some img) (Some filename) offset size uasid vaddr e in
  (fst (fst r) < 0 -> store (snd r) !! next_id e = None)
  /\ (store (snd r) !! next_id e = None
      \/ (fst (fst r) = 0
          /\ store (snd r) !! next_id e
             = Some {| ucount := 1; mcount := 0 |})).
Proof.
  intros Hfresh Himg. cbn zeta. unfold pt_image_add_file.
  destruct (pt_asid_from_user uasid) as [errcode asid].
  destruct (errcode <? 0); [by split; [| left] |].
  unfold pt_mk_section.
  destruct (size =? 0); [by split; [| left] |].
  pose proof (malloc_store e) as Hs. pose proof (malloc_next_id e) as Hn.
  destruct (malloc e) as [fail e1]. cbn [snd] in Hs, Hn.
  destruct fail; cbn [snd]; [rewrite Hs; by split; [| left] |].
  rewrite Hn.
  set (section := {| sec_id := next_id e; sec_filename := filename;
                     sec_offset := offset; sec_size := size |}).
  set (e2 := {| store := <[next_id e := {| ucount := 1; mcount := 0 |}]>
                           (store e1);
                next_id := Pos.succ (next_id e);
                alloc_fail := alloc_fail e1; map_err := map_err e1;
                unmap_err := unmap_err e1; file_data := file_data e1 |}).
  destruct (pt_image_add_reference_count img section (Some asid) vaddr e2
              {| ucount := 1; mcount := 0 |}) as [Hfail Hany].
  { subst e2. cbn [store sec_id section]. by rewrite lookup_insert_eq. }
  { cbn [ucount]. lia. }
  { subst e2. cbn [next_id sec_id section]. lia. }
  { done. }
  cbn zeta in Hfail, Hany. cbn [sec_id section ucount mcount] in Hfail, Hany.
  destruct (pt_image_add (Some img) (Some section) (Some asid) vaddr e2)
    as [[errcode2 image1] e3]. cbn [fst snd] in Hfail, Hany.
  assert (Hlast : store e3 !! next_id e = Some {| ucount := 1; mcount := 0 |} ->
                  pt_section_put section e3
                  = (0, set_store (delete (next_id e) (store e3)) e3)).
  { intros H. unfold pt_section_put. cbn [sec_id section]. by rewrite H. }
  destruct (errcode2 <? 0) eqn:Herr; cbn [fst snd].
  - apply Z.ltb_lt in Herr. rewrite (Hlast (Hfail Herr)).
    cbn [snd set_store store]. rewrite lookup_delete_eq. by split; [| left].
  - destruct Hany as [H | H].
    + rewrite (Hlast H). change (0 <? 0) with false. cbv iota.
      cbn [fst snd set_store store]. rewrite lookup_delete_eq.
      by split; [| left].
    + rewrite (pt_section_put_shared section e3 0 0 H).
      change (0 <? 0) with false. cbv iota.
      cbn [fst snd set_store store sec_id section].
      rewrite lookup_insert_eq. split; [lia | by right].
Qed.

(** ** pt_image_alloc: the new image *)

(** X20.  An image that [pt_image_alloc] returns has the given name, or no
    name when the copy of the name could not be allocated (which does not
    fail the call); it is empty: a read from it gives -pte_nomap and changes
    nothing, and freeing it touches no section. *)
Theorem pt_image_alloc_empty (name : option string) (e e' : env)
    (img : pt_image) (buffer : list Z) (size : Z) (asid : pt_asid)
    (addr : Z) :
  pt_image_alloc name e = (Some img, e') ->
  (pt_image_name (Some img) = name \/ pt_image_name (Some img) = None)
  /\ (alloc_fail e = [] -> pt_image_name (Some img) = name)
  /\ store e' = store e
  /\ pt_image_read (Some img) buffer size (Some asid) addr e'
     = (- pte_nomap, Some img, buffer, e')
  /\ pt_image_free (Some img) e' = e'.
Proof.
  unfold pt_image_alloc, pt_image_init, dupstr. intros H.
  pose proof (malloc_store e) as Hs.
  assert (Ha : alloc_fail e = [] -> malloc e = (false, e))
    by apply malloc_no_failure.
  assert (Ha1 : alloc_fail e = [] -> alloc_fail (snd (malloc e)) = [])
    by (by intros Hn; rewrite Ha).
  destruct (malloc e) as [[|] e1]; [done |]. cbn [snd] in Hs, Ha1.
  destruct name as [s |].
  - pose proof (malloc_store e1) as Hs1.
    pose proof (malloc_no_failure e1) as Hb.
    destruct (malloc e1) as [fail e2]. cbn [snd] in Hs1.
    destruct fail; injection H as <- <-; cbn [pt_image_name img_name].
    + split; [by right |]. split; [| by split; [congruence |]].
      intros Hn. by specialize (Hb (Ha1 Hn)).
    + split; [by left |]. split; [done |]. by split; [congruence |].
  - injection H as <- <-. cbn [pt_image_name img_name].
    split; [by left |]. split; [done |]. by split.
Qed.

(** ** LRU promotion and pruning *)

Lemma pt_image_read_demand_prune (img : pt_image)
    (l1 tl : list pt_section_list) (x : pt_section_list) (buffer : list Z)
    (size : Z) (asid : pt_asid) (addr : Z) (e : env) (st : sec_state) :
  img_sections img = l1 ++ x :: tl ->
  Forall (fun y => sl_mapped y = true /\ covers asid addr y = false) l1 ->
  store e !! sec_id (msec_section (sl_section x)) = Some st ->
  sl_mapped x = false ->
  covers asid addr x = true ->
  map_err e = [] ->
  0 <= size ->
  img_cache img <> 0 ->
  img_cache img < u16 (img_mapped img + 1) ->
  exists buffer',
    pt_image_read (Some img) buffer size (Some asid) addr e
    = let '(l', m, s, e2) :=
        pt_image_prune_cache_loop (img_cache img) 0 0 []
          (mark_mapped x :: l1 ++ tl)
          (set_store (<[sec_id (msec_section (sl_section x)) :=
                          {| ucount := ucount st; mcount := S (mcount st) |}]>
                        (store e)) e) in
      (if s <? 0 then s else Z.min size (pt_msec_end (sl_section x) - addr),
       Some (set_mapped m (set_sections l' img)), buffer', e2).
Proof.
  intros Hl Hhot Hst Hx Hcov Hm Hsize Hcache Hfull.
  unfold pt_image_read. rewrite Hl, pt_image_read_loop_hot by done.
  cbn [app pt_image_read_loop]. rewrite Hx. cbn [negb].
  unfold pt_image_read_cold. cbn [pt_image_read_cold_loop].
  rewrite Hx. cbn [negb].
  unfold pt_section_map, next_map_err. rewrite Hst, Hm.
  change (0 <? 0) with false. cbv iota.
  destruct (pt_msec_read_mapped_hit asid addr x buffer size
              (set_store (<[sec_id (msec_section (sl_section x)) :=
                             {| ucount := ucount st;
                                mcount := S (mcount st) |}]> (store e)) e)
              {| ucount := ucount st; mcount := S (mcount st) |} (mcount st))
    as (buffer' & ->); [done | | done |].
  { cbn [store set_store]. by rewrite lookup_insert_eq. }
  assert (Hend : addr < pt_msec_end (sl_section x)).
  { unfold covers in Hcov. apply andb_prop in Hcov as [_ Hcov]. lia. }
  replace (Z.min size (pt_msec_end (sl_section x) - addr) <? 0) with false
    by lia.
  rewrite front_eq. apply Z.eqb_neq in Hcache. rewrite Hcache. cbn [negb].
  replace (img_cache img <? u16 (img_mapped img + 1)) with true by lia.
  unfold pt_image_prune_cache.
  cbn [img_cache img_sections set_mapped set_sections].
  exists buffer'.
  destruct (pt_image_prune_cache_loop _ _ _ _ _ _) as [[[l' m] s] e2].
  by destruct (s <? 0).
Qed.

Lemma pt_image_prune_cache_loop_keep cache mapped status done x rest e :
  sl_mapped x = true ->
  u16 (mapped + 1) <= cache ->
  pt_image_prune_cache_loop cache mapped status done (x :: rest) e
  = pt_image_prune_cache_loop cache (u16 (mapped + 1)) status (done ++ [x])
      rest e.
Proof.
  intros Hx Hc. cbn [pt_image_prune_cache_loop]. rewrite Hx. cbn [negb].
  by replace (u16 (mapped + 1) <=? cache) with true by lia.
Qed.

Lemma pt_image_prune_cache_loop_unmap cache mapped status done x rest e e1 :
  sl_mapped x = true ->
  cache < u16 (mapped + 1) ->
  pt_section_unmap (msec_section (sl_section x)) e = (0, e1) ->
  pt_image_prune_cache_loop cache mapped status done (x :: rest) e
  = pt_image_prune_cache_loop cache (u16 (u16 (mapped + 1) - 1)) status
      (done ++ [unmapped x]) rest e1.
Proof.
  intros Hx Hc Hun. cbn [pt_image_prune_cache_loop]. rewrite Hx. cbn [negb].
  replace (u16 (mapped + 1) <=? cache) with false by lia.
  by rewrite Hun.
Qed.

Lemma pt_section_unmap_mapped (s : pt_section) (e : env) (u m : nat) :
  store e !! sec_id s = Some {| ucount := u; mcount := S m |} ->
  unmap_err e = [] ->
  pt_section_unmap s e
  = (0, set_store (<[sec_id s := {| ucount := u; mcount := m |}]> (store e))
          e).
Proof.
  intros Hst Hu. unfold pt_section_unmap, next_unmap_err.
  by rewrite Hst, Hu.
Qed.

Lemma passes_apart (section : pt_section) (a a' : pt_asid) (v v' : Z) :
  pt_section_size section = 16 ->
  0 <= v -> v + 16 < 2 ^ 64 -> 0 <= v' -> v' + 16 < 2 ^ 64 ->
  v + 16 <= v' \/ v' + 16 <= v ->
  passes (Some a') v' (u64 (v' + 16)) (new_entry section (Some a) v) = true.
Proof.
  intros Hs Hv Hv16 Hv' Hv'16 Hd. unfold passes, new_entry. cbn zeta.
  cbn [sl_section]. unfold pt_msec_matches_asid, pt_msec_begin, pt_msec_end.
  cbn [pt_msec_init msec_asid msec_vaddr msec_section default from_option id]. rewrite Hs.
  rewrite !u64_small by lia.
  destruct (pt_asid_match_some a a') as [-> | ->]; [done |].
  change (1 =? 0) with false. change (0 <? 1) with true.
  cbn [orb andb]. destruct Hd; [apply orb_true_iff; right
                               | apply orb_true_iff; left]; lia.
Qed.

Lemma covers_apart (section : pt_section) (a r : pt_asid) (v addr : Z)
    (mapped : bool) :
  pt_section_size section = 16 ->
  addr < v \/ v + 16 <= addr ->
  covers r addr {| sl_section := pt_msec_init section (Some a) v;
                   sl_mapped := mapped |} = false.
Proof.
  intros Hs Hd. unfold covers, pt_msec_begin, pt_msec_end.
  cbn [sl_section pt_msec_init msec_vaddr msec_section]. rewrite Hs.
  apply andb_false_iff.
  destruct Hd; [left; apply andb_false_iff; right | right]; lia.
Qed.

Lemma covers_within (section : pt_section) (a r : pt_asid) (v addr : Z)
    (mapped : bool) :
  pt_section_size section = 16 ->
  0 < pt_asid_match (Some a) (Some r) ->
  v <= addr < v + 16 ->
  covers r addr {| sl_section := pt_msec_init section (Some a) v;
                   sl_mapped := mapped |} = true.
Proof.
  intros Hs Hm Hd. unfold covers, pt_msec_begin, pt_msec_end.
  unfold pt_msec_matches_asid.
  cbn [sl_section pt_msec_init msec_vaddr msec_section msec_asid default from_option id].
  rewrite Hs. apply andb_true_iff. split; [apply andb_true_iff; split |]; lia.
Qed.

(** C5.  LRU promotion and pruning: an empty image with a cache of two
    sections, to which three sections of 16 bytes of any files are added at
    any three disjoint ranges that do not wrap around, in any address
    spaces, when no allocation, map or unmap fails.  A read of any size from
    any address of the first section, in an address space that matches,
    maps it, counts it and leaves it at the head; a read from the second
    does the same (R = 2, both mapped); a read from the third maps it,
    moves it to the head and prunes the cache: R is 2 again, the third and
    the second section are mapped and first in the list, the first section,
    which was mapped first, is unmapped and last.  Each read returns the
    bytes up to the end of the section, at most the size asked for. *)
Theorem lru_promotion_and_pruning (img : pt_image) (e : env)
    (f0 f1 f2 : string) (o0 o1 o2 : Z)
    (ua0 ua1 ua2 : option pt_asid_user) (a0 a1 a2 : pt_asid)
    (v0 v1 v2 : Z) (r0 r1 r2 : pt_asid) (addr0 addr1 addr2 : Z)
    (n0 n1 n2 : Z) (b0 b1 b2 : list Z) :
  let s0 := {| sec_id := next_id e; sec_filename := f0; sec_offset := o0;
               sec_size := 16 |} in
  let s1 := {| sec_id := Pos.succ (next_id e); sec_filename := f1;
               sec_offset := o1; sec_size := 16 |} in
  let s2 := {| sec_id := Pos.succ (Pos.succ (next_id e)); sec_filename := f2;
               sec_offset := o2; sec_size := 16 |} in
  let x0 := new_entry s0 (Some a0) v0 in
  let x1 := new_entry s1 (Some a1) v1 in
  let x2 := new_entry s2 (Some a2) v2 in
  img_sections img = [] -> img_cache img = 2 -> img_mapped img = 0 ->
  alloc_fail e = [] -> map_err e = [] -> unmap_err e = [] ->
  pt_asid_from_user ua0 = (0, a0) ->
  pt_asid_from_user ua1 = (0, a1) ->
  pt_asid_from_user ua2 = (0, a2) ->
  0 <= v0 -> v0 + 16 < 2 ^ 64 ->
  0 <= v1 -> v1 + 16 < 2 ^ 64 ->
  0 <= v2 -> v2 + 16 < 2 ^ 64 ->
  v0 + 16 <= v1 \/ v1 + 16 <= v0 ->
  v0 + 16 <= v2 \/ v2 + 16 <= v0 ->
  v1 + 16 <= v2 \/ v2 + 16 <= v1 ->
  0 < pt_asid_match (Some a0) (Some r0) -> v0 <= addr0 < v0 + 16 -> 0 <= n0 ->
  0 < pt_asid_match (Some a1) (Some r1) -> v1 <= addr1 < v1 + 16 -> 0 <= n1 ->
  0 < pt_asid_match (Some a2) (Some r2) -> v2 <= addr2 < v2 + 16 -> 0 <= n2 ->
  exists img1 e1 img2 e2 e3 b0' e4 b1' e5 b2' e6,
    pt_image_add_file (Some img) (Some f0) o0 16 ua0 v0 e = (0, Some img1, e1)
    /\ pt_image_add_file (Some img1) (Some f1) o1 16 ua1 v1 e1
       = (0, Some img2, e2)
    /\ pt_image_add_file (Some img2) (Some f2) o2 16 ua2 v2 e2
       = (0, Some (set_sections [x0; x1; x2] img), e3)
    /\ pt_image_read (Some (set_sections [x0; x1; x2] img)) b0 n0 (Some r0)
         addr0 e3
       = (Z.min n0 (v0 + 16 - addr0),
          Some (set_mapped 1 (set_sections [mark_mapped x0; x1; x2] img)),
          b0', e4)
    /\ pt_image_read
         (Some (set_mapped 1 (set_sections [mark_mapped x0; x1; x2] img)))
         b1 n1 (Some r1) addr1 e4
       = (Z.min n1 (v1 + 16 - addr1),
          Some (set_mapped 2
                  (set_sections [mark_mapped x1; mark_mapped x0; x2] img)),
          b1', e5)
    /\ pt_image_read
         (Some (set_mapped 2
                  (set_sections [mark_mapped x1; mark_mapped x0; x2] img)))
         b2 n2 (Some r2) addr2 e5
       = (Z.min n2 (v2 + 16 - addr2),
          Some (set_mapped 2
                  (set_sections [mark_mapped x2; mark_mapped x1; x0] img)),
          b2', e6)
    /\ map_count e6 (sec_id s0) = Some 0%nat
    /\ map_count e6 (sec_id s1) = Some 1%nat
    /\ map_count e6 (sec_id s2) = Some 1%nat.
Proof.
  cbn zeta.
  intros Himg Hcache Hmapped Ha Hm Hu Hua0 Hua1 Hua2 Hv0 Hw0 Hv1 Hw1 Hv2 Hw2
    H01 H02 H12 Hr0 Had0 Hn0 Hr1 Had1 Hn1 Hr2 Had2 Hn2.
  set (id0 := next_id e). set (id1 := Pos.succ id0). set (id2 := Pos.succ id1).
  set (s0 := {| sec_id := id0; sec_filename := f0; sec_offset := o0;
                sec_size := 16 |}).
  set (s1 := {| sec_id := id1; sec_filename := f1; sec_offset := o1;
                sec_size := 16 |}).
  set (s2 := {| sec_id := id2; sec_filename := f2; sec_offset := o2;
                sec_size := 16 |}).
  assert (Hne01 : id0 <> id1) by (subst id1; lia).
  assert (Hne02 : id0 <> id2) by (subst id2 id1; lia).
  assert (Hne12 : id1 <> id2) by (subst id2; lia).
  (* the three adds *)
  pose proof (pt_image_add_file_append img f0 o0 16 ua0 a0 v0 e Hua0
                ltac:(lia) Ha) as Hadd0.
  cbn zeta in Hadd0. rewrite Himg in Hadd0. cbn [app] in Hadd0.
  specialize (Hadd0 (Forall_nil_2 _)). fold id0 s0 in Hadd0.
  set (e1 := {| store := <[id0 := {| ucount := 1; mcount := 0 |}]> (store e);
                next_id := Pos.succ id0; alloc_fail := [];
                map_err := map_err e; unmap_err := unmap_err e;
                file_data := file_data e |}) in *.
  set (img1 := set_sections [new_entry s0 (Some a0) v0] img) in *.
  pose proof (pt_image_add_file_append img1 f1 o1 16 ua1 a1 v1 e1 Hua1
                ltac:(lia) eq_refl) as Hadd1.
  cbn zeta in Hadd1. cbn [img1 set_sections img_sections app] in Hadd1.
  specialize (Hadd1 ltac:(constructor; [by apply passes_apart | constructor])).
  cbn [e1 next_id store map_err unmap_err file_data] in Hadd1.
  fold id1 s1 in Hadd1.
  set (e2 := {| store := <[id1 := {| ucount := 1; mcount := 0 |}]>
                           (<[id0 := {| ucount := 1; mcount := 0 |}]> (store e));
                next_id := Pos.succ id1; alloc_fail := [];
                map_err := map_err e; unmap_err := unmap_err e;
                file_data := file_data e |}) in *.
  set (img2 := set_sections [new_entry s0 (Some a0) v0;
                               new_entry s1 (Some a1) v1] img1) in *.
  pose proof (pt_image_add_file_append img2 f2 o2 16 ua2 a2 v2 e2 Hua2
                ltac:(lia) eq_refl) as Hadd2.
  cbn zeta in Hadd2. cbn [img2 set_sections img_sections app] in Hadd2.
  specialize (Hadd2 ltac:(constructor; [by apply passes_apart |];
                          constructor; [by apply passes_apart | constructor])).
  cbn [e2 next_id store map_err unmap_err file_data] in Hadd2.
  fold id2 s2 in Hadd2.
  set (x0 := new_entry s0 (Some a0) v0) in *.
  set (x1 := new_entry s1 (Some a1) v1) in *.
  set (x2 := new_entry s2 (Some a2) v2) in *.
  set (e3 := {| store := <[id2 := {| ucount := 1; mcount := 0 |}]>
                           (<[id1 := {| ucount := 1; mcount := 0 |}]>
                              (<[id0 := {| ucount := 1; mcount := 0 |}]>
                                 (store e)));
                next_id := Pos.succ id2; alloc_fail := [];
                map_err := map_err e; unmap_err := unmap_err e;
                file_data := file_data e |}) in *.
  set (img3 := set_sections [x0; x1; x2] img).
  (* the read from the first section *)
  destruct (pt_image_read_demand img3 [] [x1; x2] x0 b0 n0 r0 addr0 e3
              {| ucount := 1; mcount := 0 |}) as (b0' & Hread0);
    [done | constructor | constructor
     | cbn [e3 store x0 new_entry sl_section pt_msec_init msec_section s0
            sec_id];
       by rewrite !lookup_insert_ne, lookup_insert_eq by done
     | done | by apply covers_within | done | done | done
     | cbn [img3 set_sections img_cache]; lia
     | cbn [img3 set_sections img_cache img_mapped];
       rewrite Hmapped, Hcache; by change (u16 (0 + 1)) with 1 |].
  cbn [img3 set_sections set_mapped img_mapped img_name img_sections
       img_callback img_context img_cache app] in Hread0.
  rewrite Hmapped in Hread0. change (u16 (0 + 1)) with 1 in Hread0.
  cbn [x0 new_entry sl_section pt_msec_init msec_section s0 sec_id ucount
       mcount] in Hread0.
  fold s0 x0 in Hread0.
  set (e4 := set_store (<[id0 := {| ucount := 1; mcount := 1 |}]> (store e3))
               e3) in *.
  set (img4 := set_mapped 1 (set_sections [mark_mapped x0; x1; x2] img)).
  (* the read from the second section *)
  destruct (pt_image_read_demand img4 [mark_mapped x0] [x2] x1 b1 n1 r1 addr1
              e4 {| ucount := 1; mcount := 0 |}) as (b1' & Hread1);
    [done
     | constructor; [apply covers_apart; [done | lia] | constructor]
     | constructor; [| constructor];
       exists {| ucount := 1; mcount := 1 |};
       cbn [e4 set_store store mark_mapped x0 new_entry sl_section
            pt_msec_init msec_section s0 sec_id];
       by rewrite lookup_insert_eq
     | cbn [e4 set_store e3 store x1 new_entry sl_section pt_msec_init
            msec_section s1 sec_id];
       by rewrite !lookup_insert_ne, lookup_insert_eq by done
     | done | by apply covers_within | done | done | done
     | cbn [img4 set_sections set_mapped img_cache]; lia
     | cbn [img4 set_sections set_mapped img_cache img_mapped];
       rewrite Hcache; by change (u16 (1 + 1)) with 2 |].
  cbn [img4 set_sections set_mapped img_mapped img_name img_sections
       img_callback img_context img_cache app] in Hread1.
  change (u16 (1 + 1)) with 2 in Hread1.
  cbn [x1 new_entry sl_section pt_msec_init msec_section s1 sec_id ucount
       mcount] in Hread1.
  fold s1 x1 in Hread1.
  set (e5 := set_store (<[id1 := {| ucount := 1; mcount := 1 |}]> (store e4))
               e4) in *.
  set (img5 := set_mapped 2
                 (set_sections [mark_mapped x1; mark_mapped x0; x2] img)).
  (* the read from the third section *)
  destruct (pt_image_read_demand_prune img5 [mark_mapped x1; mark_mapped x0]
              [] x2 b2 n2 r2 addr2 e5 {| ucount := 1; mcount := 0 |})
    as (b2' & Hread2);
    [done
     | constructor; [split; [done | apply covers_apart; [done | lia]] |];
       constructor; [split; [done | apply covers_apart; [done | lia]] |];
       constructor
     | cbn [e5 e4 set_store e3 store x2 new_entry sl_section pt_msec_init
            msec_section s2 sec_id];
       by rewrite !lookup_insert_ne, lookup_insert_eq by done
     | done | by apply covers_within | done | done
     | cbn [img5 set_sections set_mapped img_cache]; lia
     | cbn [img5 set_sections set_mapped img_cache img_mapped];
       rewrite Hcache; by change (u16 (2 + 1)) with 3 |].
  cbn [img5 set_sections set_mapped img_cache app] in Hread2.
  rewrite Hcache in Hread2.
  rewrite (pt_image_prune_cache_loop_keep 2 0) in Hread2;
    [| done | by change (u16 (0 + 1)) with 1].
  rewrite (pt_image_prune_cache_loop_keep 2 (u16 (0 + 1))) in Hread2;
    [| done | by change (u16 (u16 (0 + 1) + 1)) with 2].
  set (e6 := set_store
               (<[sec_id (msec_section (sl_section x2)) := _]> (store e5)) e5)
    in Hread2.
  rewrite (pt_image_prune_cache_loop_unmap 2 _ 0 _ _ _ e6
             (set_store (<[id0 := {| ucount := 1; mcount := 0 |}]> (store e6))
                e6)) in Hread2;
    [| done | by change (u16 (u16 (u16 (0 + 1) + 1) + 1)) with 3 |].
  2:{ apply (pt_section_unmap_mapped s0 e6 1 0); [| done].
      cbn [e6 e5 e4 set_store store x2 new_entry sl_section pt_msec_init
           msec_section s2 s0 sec_id].
      by rewrite !lookup_insert_ne, lookup_insert_eq by done. }
  cbn [pt_image_prune_cache_loop app] in Hread2.
  change (0 <? 0) with false in Hread2. cbv iota in Hread2.
  change (u16 (u16 (u16 (u16 (0 + 1) + 1) + 1) - 1)) with 2 in Hread2.
  set (e7 := set_store (<[id0 := {| ucount := 1; mcount := 0 |}]> (store e6))
               e6) in *.
  exists img1, e1, img2, e2, e3, b0', e4, b1', e5, b2', e7.
  split; [exact Hadd0 |]. split; [exact Hadd1 |]. split; [exact Hadd2 |].
  split; [exact Hread0 |]. split; [exact Hread1 |]. split; [exact Hread2 |].
  unfold map_count.
  cbn [e7 e6 e5 e4 set_store store x2 new_entry sl_section pt_msec_init
       msec_section s2 s1 s0 sec_id].
  split; [by rewrite lookup_insert_eq |].
  split; by rewrite !lookup_insert_ne, lookup_insert_eq by done.
Qed.

Lemma lru_promotion_and_pruning_witness :
  let img := image_of (set_cache 2 state_init) in
  let e := env_init data0 in
  let x0 := entry_n 1 "/s0" 0x1000 false in
  let x1 := entry_n 2 "/s1" 0x2000 false in
  let x2 := entry_n 3 "/s2" 0x3000 false in
  (img_sections img = [] /\ img_cache img = 2 /\ img_mapped img = 0)
  /\ (alloc_fail e = [] /\ map_err e = [] /\ unmap_err e = [])
  /\ pt_asid_from_user (user_asid 1) = (0, asid1)
  /\ 0 < pt_asid_match (Some asid1) (Some asid1)
  /\ exists img1 e1 img2 e2 e3 b0' e4 b1' e5 b2' e6,
       pt_image_add_file (Some img) (Some "/s0"%string) 0 16 (user_asid 1)
         0x1000 e = (0, Some img1, e1)
       /\ pt_image_add_file (Some img1) (Some "/s1"%string) 0 16 (user_asid 1)
            0x2000 e1 = (0, Some img2, e2)
       /\ pt_image_add_file (Some img2) (Some "/s2"%string) 0 16 (user_asid 1)
            0x3000 e2 = (0, Some (set_sections [x0; x1; x2] img), e3)
       /\ pt_image_read (Some (set_sections [x0; x1; x2] img)) [0; 0; 0; 0] 4
            (Some asid1) 0x1000 e3
          = (Z.min 4 (0x1000 + 16 - 0x1000),
             Some (set_mapped 1
                     (set_sections [mark_mapped x0; x1; x2] img)),
             b0', e4)
       /\ pt_image_read
            (Some (set_mapped 1 (set_sections [mark_mapped x0; x1; x2] img)))
            [0; 0; 0; 0] 4 (Some asid1) 0x2008 e4
          = (Z.min 4 (0x2000 + 16 - 0x2008),
             Some (set_mapped 2
                     (set_sections [mark_mapped x1; mark_mapped x0; x2] img)),
             b1', e5)
       /\ pt_image_read
            (Some (set_mapped 2
                     (set_sections [mark_mapped x1; mark_mapped x0; x2] img)))
            [0; 0; 0; 0] 4 (Some asid1) 0x300c e5
          = (Z.min 4 (0x3000 + 16 - 0x300c),
             Some (set_mapped 2
                     (set_sections [mark_mapped x2; mark_mapped x1; x0] img)),
             b2', e6)
       /\ map_count e6 1 = Some 0%nat
       /\ map_count e6 2 = Some 1%nat
       /\ map_count e6 3 = Some 1%nat.
Proof.
  cbv zeta.
  assert (H1 : img_sections (image_of (set_cache 2 state_init)) = [])
    by reflexivity.
  assert (H2 : img_cache (image_of (set_cache 2 state_init)) = 2)
    by reflexivity.
  assert (H3 : img_mapped (image_of (set_cache 2 state_init)) = 0)
    by reflexivity.
  assert (H4 : alloc_fail (env_init data0) = []) by reflexivity.
  assert (H5 : map_err (env_init data0) = []) by reflexivity.
  assert (H6 : unmap_err (env_init data0) = []) by reflexivity.
  assert (H7 : pt_asid_from_user (user_asid 1) = (0, asid1)) by reflexivity.
  assert (H8 : 0 < pt_asid_match (Some asid1) (Some asid1))
    by (vm_compute; reflexivity).
  split; [by repeat split |]. split; [by repeat split |].
  split; [assumption |]. split; [assumption |].
  exact (lru_promotion_and_pruning (image_of (set_cache 2 state_init))
           (env_init data0) "/s0" "/s1" "/s2" 0 0 0
           (user_asid 1) (user_asid 1) (user_asid 1) asid1 asid1 asid1
           0x1000 0x2000 0x3000 asid1 asid1 asid1 0x1000 0x2008 0x300c 4 4 4
           [0; 0; 0; 0] [0; 0; 0; 0] [0; 0; 0; 0]
           H1 H2 H3 H4 H5 H6 H7 H7 H7
           ltac:(lia) ltac:(lia) ltac:(lia) ltac:(lia) ltac:(lia) ltac:(lia)
           ltac:(lia) ltac:(lia) ltac:(lia)
           H8 ltac:(lia) ltac:(lia) H8 ltac:(lia) ltac:(lia)
           H8 ltac:(lia) ltac:(lia)).
Defined.

(** ** Examples of the further properties *)

Lemma pt_image_add_appends_at_tail_witness :
  let img := image_of two_sections in
  let st := {| ucount := 1; mcount := 0 |} in
  Forall (fun y => passes (Some asid_any) 0x4000
                     (u64 (0x4000 + pt_section_size third_section)) y = true)
         (img_sections img)
  /\ fst (malloc third_env) = false
  /\ store third_env !! sec_id third_section = Some st
  /\ pt_image_add (Some img) (Some third_section) (Some asid_any) 0x4000
       third_env
     = (0,
        Some (set_sections
                (img_sections img
                 ++ [new_entry third_section (Some asid_any) 0x4000]) img),
        set_store (add_reference third_section st (store third_env))
          (snd (malloc third_env))).
Proof.
  cbv zeta.
  assert (H1 : Forall (fun y => passes (Some asid_any) 0x4000
                          (u64 (0x4000 + pt_section_size third_section)) y
                        = true)
                 (img_sections (image_of two_sections)))
    by (repeat constructor).
  assert (H2 : fst (malloc third_env) = false) by reflexivity.
  assert (H3 : store third_env !! sec_id third_section
               = Some {| ucount := 1; mcount := 0 |})
    by (vm_compute; reflexivity).
  repeat (split; [assumption |]).
  exact (pt_image_add_appends_at_tail _ _ _ _ _ _ H1 H2 H3).
Defined.

Lemma pt_image_add_remove_round_trip_witness :
  let img := image_of two_sections in
  let st := {| ucount := 1; mcount := 0 |} in
  Forall (fun y => passes (Some asid_any) 0x4000
                     (u64 (0x4000 + pt_section_size third_section)) y = true)
         (img_sections img)
  /\ Forall (fun y => remove_hit third_section asid_any 0x4000 y = false)
            (img_sections img)
  /\ fst (malloc third_env) = false
  /\ store third_env !! sec_id third_section = Some st
  /\ (0 < ucount st)%nat
  /\ exists img1 e1 e2,
       pt_image_add (Some img) (Some third_section) (Some asid_any) 0x4000
         third_env
       = (0, Some img1, e1)
       /\ pt_image_remove (Some img1) (Some third_section) (Some asid_any)
            0x4000 e1
          = (0, Some img, e2)
       /\ store e2 = store third_env.
Proof.
  cbv zeta.
  assert (H1 : Forall (fun y => passes (Some asid_any) 0x4000
                          (u64 (0x4000 + pt_section_size third_section)) y
                        = true)
                 (img_sections (image_of two_sections)))
    by (repeat constructor).
  assert (H2 : Forall (fun y => remove_hit third_section asid_any 0x4000 y
                                = false)
                 (img_sections (image_of two_sections)))
    by (repeat constructor).
  assert (H3 : fst (malloc third_env) = false) by reflexivity.
  assert (H4 : store third_env !! sec_id third_section
               = Some {| ucount := 1; mcount := 0 |})
    by (vm_compute; reflexivity).
  assert (H5 : (0 < ucount {| ucount := 1; mcount := 0 |})%nat)
    by (simpl; lia).
  repeat (split; [assumption |]).
  exact (pt_image_add_remove_round_trip _ _ _ _ _ _ H1 H2 H3 H4 H5).
Defined.

Lemma pt_image_remove_by_asid_filters_witness :
  let img := image_of two_files in
  let e := snd two_files in
  pt_asid_from_user (user_asid 1) = (0, asid1)
  /\ pt_image_remove_by_asid (Some img) (user_asid 1) e
     = (Z.of_nat (length (List.filter (asid_matches asid1) (img_sections img))),
        Some (set_sections
                (List.filter (fun x => negb (asid_matches asid1 x))
                             (img_sections img)) img),
        pt_section_list_free_tail
          (List.filter (asid_matches asid1) (img_sections img)) e).
Proof.
  cbv zeta. split; [reflexivity |].
  apply (pt_image_remove_by_asid_filters (image_of two_files) (user_asid 1)
           asid1 (snd two_files)).
  reflexivity.
Defined.

Lemma pt_image_remove_by_filename_filters_witness :
  let img := image_of two_files in
  let e := snd two_files in
  pt_asid_from_user (user_asid 2) = (0, asid2)
  /\ pt_image_remove_by_filename (Some img) (Some "/a"%string) (user_asid 2) e
     = (Z.of_nat (length (List.filter (file_matches "/a" asid2)
                                      (img_sections img))),
        Some (set_sections
                (List.filter (fun x => negb (file_matches "/a" asid2 x))
                             (img_sections img)) img),
        pt_section_list_free_tail
          (List.filter (file_matches "/a" asid2) (img_sections img)) e).
Proof.
  cbv zeta. split; [reflexivity |].
  apply (pt_image_remove_by_filename_filters (image_of two_files) "/a"
           (user_asid 2) asid2 (snd two_files)).
  reflexivity.
Defined.

Lemma pt_image_copy_appends_witness :
  let src := image_of two_sections in
  let e := snd two_sections in
  appendable (img_sections image_init) (img_sections src)
  /\ alloc_fail e = []
  /\ Forall (in_store e) (img_sections src)
  /\ exists e',
       pt_image_copy 0 (Some image_init) (SrcOther src) e
       = CopyReturn 0
           (Some (set_sections
                    (img_sections image_init
                     ++ List.map unmapped (img_sections src)) image_init))
           e'.
Proof.
  cbv zeta.
  assert (H1 : appendable (img_sections image_init)
                 (img_sections (image_of two_sections))).
  { assert (Hl : img_sections (image_of two_sections)
                 = [entry_of (first_section "/a" 0 0x1000) asid_any 0x1000 true;
                    entry_of remove_section asid_any 0x3000 false])
      by (vm_compute; reflexivity).
    rewrite Hl. change (img_sections image_init) with (@nil pt_section_list).
    cbn [appendable app].
    split; [constructor |]. split; [| exact I].
    constructor; [vm_compute; reflexivity | constructor]. }
  assert (H2 : alloc_fail (snd two_sections) = []) by reflexivity.
  assert (H3 : Forall (in_store (snd two_sections))
                 (img_sections (image_of two_sections))).
  { constructor; [| constructor; [| constructor]].
    - exists {| ucount := 1; mcount := 1 |}. vm_compute. reflexivity.
    - exists {| ucount := 1; mcount := 0 |}. vm_compute. reflexivity. }
  repeat (split; [assumption |]).
  exact (pt_image_copy_appends 0 _ _ _ H1 H2 H3).
Defined.

Lemma pt_image_read_counter_covers_witness :
  let img := image_of two_sections in
  count_mapped (img_sections img) <= img_mapped img
  /\ img_mapped img < 2 ^ 16 - 1
  /\ exists img',
       snd (fst (fst (pt_image_read (Some img) [0; 0; 0; 0] 4 (Some asid_any)
                        0x3000 (snd two_sections))))
       = Some img'
       /\ count_mapped (img_sections img') <= img_mapped img'.
Proof.
  cbv zeta.
  assert (H1 : count_mapped (img_sections (image_of two_sections))
               <= img_mapped (image_of two_sections))
    by (vm_compute; discriminate).
  assert (H2 : img_mapped (image_of two_sections) < 2 ^ 16 - 1)
    by (vm_compute; reflexivity).
  repeat (split; [assumption |]).
  exact (pt_image_read_counter_covers _ [0; 0; 0; 0] 4 (Some asid_any) 0x3000
           (snd two_sections) H1 H2).
Defined.

Lemma pt_image_read_cache_disabled_witness :
  let st := set_cache 0 (run_add_file "/a" 0 0x10 None 0x1000 state_init) in
  let img := image_of st in
  img_cache img = 0
  /\ Forall (fun x => sl_mapped x = false) (img_sections img)
  /\ exists img',
       snd (fst (fst (pt_image_read (Some img) [0; 0; 0; 0] 4 (Some asid_any)
                        0x1000 (snd st))))
       = Some img'
       /\ Forall (fun x => sl_mapped x = false) (img_sections img')
       /\ img_mapped img' = img_mapped img.
Proof.
  cbv zeta.
  assert (H1 : img_cache
                 (image_of (set_cache 0 (run_add_file "/a" 0 0x10 None 0x1000
                                           state_init))) = 0)
    by reflexivity.
  assert (H2 : Forall (fun x => sl_mapped x = false)
                 (img_sections
                    (image_of (set_cache 0 (run_add_file "/a" 0 0x10 None
                                              0x1000 state_init)))))
    by (repeat constructor).
  repeat (split; [assumption |]).
  exact (pt_image_read_cache_disabled _ [0; 0; 0; 0] 4 (Some asid_any) 0x1000
           _ H1 H2).
Defined.

Lemma pt_image_read_promotes_hit_witness :
  let img := image_of two_mapped in
  let e := snd two_mapped in
  let s1 := entry_n 2 "/s1" 0x2000 true in
  let s0 := entry_n 1 "/s0" 0x1000 true in
  let s2 := entry_n 3 "/s2" 0x3000 false in
  img_sections img = [s1] ++ s0 :: [s2]
  /\ Forall (fun y => sl_mapped y = true /\ covers asid1 0x1004 y = false)
            [s1]
  /\ sl_mapped s0 = true
  /\ pt_msec_read_mapped (sl_section s0) [0; 0; 0; 0] 4 (Some asid1) 0x1004 e
     = (4, [4; 5; 6; 7])
  /\ 0 <= 4
  /\ pt_image_read (Some img) [0; 0; 0; 0] 4 (Some asid1) 0x1004 e
     = (4, Some (set_sections (s0 :: [s1] ++ [s2]) img), [4; 5; 6; 7], e).
Proof.
  cbv zeta.
  assert (H1 : img_sections (image_of two_mapped)
               = [entry_n 2 "/s1" 0x2000 true]
                 ++ entry_n 1 "/s0" 0x1000 true
                 :: [entry_n 3 "/s2" 0x3000 false])
    by (vm_compute; reflexivity).
  assert (H2 : Forall (fun y => sl_mapped y = true
                                /\ covers asid1 0x1004 y = false)
                 [entry_n 2 "/s1" 0x2000 true])
    by (repeat constructor).
  assert (H3 : sl_mapped (entry_n 1 "/s0" 0x1000 true) = true)
    by reflexivity.
  assert (H4 : pt_msec_read_mapped (sl_section (entry_n 1 "/s0" 0x1000 true))
                 [0; 0; 0; 0] 4 (Some asid1) 0x1004 (snd two_mapped)
               = (4, [4; 5; 6; 7]))
    by (vm_compute; reflexivity).
  assert (H5 : 0 <= 4) by lia.
  repeat (split; [assumption |]).
  exact (pt_image_read_promotes_hit _ _ _ _ _ _ _ _ _ _ _ H1 H2 H3 H4 H5).
Defined.

Lemma pt_image_read_maps_on_demand_witness :
  let img := image_of three_sections in
  let e := snd three_sections in
  let s0 := entry_n 1 "/s0" 0x1000 false in
  let s1 := entry_n 2 "/s1" 0x2000 false in
  let s2 := entry_n 3 "/s2" 0x3000 false in
  let st := {| ucount := 1; mcount := 0 |} in
  img_sections img = [s0] ++ s1 :: [s2]
  /\ Forall (fun y => covers asid1 0x2008 y = false) [s0]
  /\ Forall (in_store e) [s0]
  /\ store e !! sec_id (msec_section (sl_section s1)) = Some st
  /\ sl_mapped s1 = false
  /\ covers asid1 0x2008 s1 = true
  /\ map_err e = [] /\ unmap_err e = []
  /\ 0 <= 16
  /\ img_cache img <> 0
  /\ u16 (img_mapped img + 1) <= img_cache img
  /\ exists buffer',
       pt_image_read (Some img) (repeat 0 16%nat) 16 (Some asid1) 0x2008 e
       = (Z.min 16 (pt_msec_end (sl_section s1) - 0x2008),
          Some (set_mapped (u16 (img_mapped img + 1))
                  (set_sections (mark_mapped s1 :: [s0] ++ [s2]) img)),
          buffer',
          set_store (<[sec_id (msec_section (sl_section s1)) :=
                         {| ucount := ucount st; mcount := S (mcount st) |}]>
                       (store e)) e).
Proof.
  cbv zeta.
  assert (H1 : img_sections (image_of three_sections)
               = [entry_n 1 "/s0" 0x1000 false]
                 ++ entry_n 2 "/s1" 0x2000 false
                 :: [entry_n 3 "/s2" 0x3000 false])
    by (vm_compute; reflexivity).
  assert (H2 : Forall (fun y => covers asid1 0x2008 y = false)
                 [entry_n 1 "/s0" 0x1000 false])
    by (repeat constructor).
  assert (H3 : Forall (in_store (snd three_sections))
                 [entry_n 1 "/s0" 0x1000 false]).
  { repeat constructor. exists {| ucount := 1; mcount := 0 |}.
    vm_compute. reflexivity. }
  assert (H4 : store (snd three_sections)
               !! sec_id (msec_section
                            (sl_section (entry_n 2 "/s1" 0x2000 false)))
               = Some {| ucount := 1; mcount := 0 |})
    by (vm_compute; reflexivity).
  assert (H5 : sl_mapped (entry_n 2 "/s1" 0x2000 false) = false)
    by reflexivity.
  assert (H6 : covers asid1 0x2008 (entry_n 2 "/s1" 0x2000 false) = true)
    by reflexivity.
  assert (H7 : map_err (snd three_sections) = []) by reflexivity.
  assert (H8 : unmap_err (snd three_sections) = []) by reflexivity.
  assert (H9 : 0 <= 16) by lia.
  assert (H10 : img_cache (image_of three_sections) <> 0)
    by (vm_compute; discriminate).
  assert (H11 : u16 (img_mapped (image_of three_sections) + 1)
                <= img_cache (image_of three_sections))
    by (vm_compute; discriminate).
  repeat (split; [assumption |]).
  exact (pt_image_read_maps_on_demand _ _ _ _ (repeat 0 16%nat) 16 _ 0x2008 _
           _ H1 H2 H3 H4 H5 H6 H7 H8 H9 H10 H11).
Defined.

Lemma pt_image_prune_cache_success_bound_witness :
  let st := set_cache 1 two_mapped in
  let img := image_of st in
  let r := pt_image_prune_cache (Some img) (snd st) in
  let img' := default image_init (snd (fst r)) in
  0 <= img_cache img < 2 ^ 16 - 1
  /\ r = (0, Some img', snd r)
  /\ count_mapped (img_sections img') <= img_cache img
  /\ img_mapped img' = count_mapped (img_sections img').
Proof.
  cbv zeta.
  assert (H1 : 0 <= img_cache (image_of (set_cache 1 two_mapped))
               < 2 ^ 16 - 1)
    by (split; vm_compute; [discriminate | reflexivity]).
  assert (H2 : pt_image_prune_cache
                 (Some (image_of (set_cache 1 two_mapped)))
                 (snd (set_cache 1 two_mapped))
               = (0,
                  Some (default image_init
                          (snd (fst (pt_image_prune_cache
                                       (Some (image_of
                                                (set_cache 1 two_mapped)))
                                       (snd (set_cache 1 two_mapped)))))),
                  snd (pt_image_prune_cache
                         (Some (image_of (set_cache 1 two_mapped)))
                         (snd (set_cache 1 two_mapped)))))
    by (vm_compute; reflexivity).
  repeat (split; [assumption |]).
  exact (pt_image_prune_cache_success_bound _ _ _ _ H1 H2).
Defined.

Lemma pt_image_prune_cache_within_capacity_witness :
  let img := image_of two_mapped in
  let e := snd two_mapped in
  count_mapped (img_sections img) <= img_cache img
  /\ img_cache img < 2 ^ 16
  /\ pt_image_prune_cache (Some img) e
     = (0, Some (set_mapped (count_mapped (img_sections img)) img), e).
Proof.
  cbv zeta.
  assert (H1 : count_mapped (img_sections (image_of two_mapped))
               <= img_cache (image_of two_mapped))
    by (vm_compute; discriminate).
  assert (H2 : img_cache (image_of two_mapped) < 2 ^ 16)
    by (vm_compute; reflexivity).
  repeat (split; [assumption |]).
  exact (pt_image_prune_cache_within_capacity _ _ H1 H2).
Defined.

Lemma pt_image_free_frame_witness :
  let img := image_of two_sections in
  Forall (fun x => entry_id x <> 3%positive) (img_sections img)
  /\ store (pt_image_free (Some img) third_env) !! 3%positive
     = store third_env !! 3%positive.
Proof.
  cbv zeta.
  assert (H1 : Forall (fun x => entry_id x <> 3%positive)
                 (img_sections (image_of two_sections)))
    by (repeat constructor; intros H; vm_compute in H; discriminate).
  split; [assumption |].
  exact (pt_image_free_frame _ third_env 3%positive H1).
Defined.

Lemma pt_image_free_destroys_last_reference_witness :
  let img := image_of two_mapped in
  let e := snd two_mapped in
  let s1 := entry_n 2 "/s1" 0x2000 true in
  let s0 := entry_n 1 "/s0" 0x1000 true in
  let s2 := entry_n 3 "/s2" 0x3000 false in
  let st := {| ucount := 1; mcount := 1 |} in
  img_sections img = [s1] ++ s0 :: [s2]
  /\ Forall (fun y => entry_id y <> entry_id s0) [s1]
  /\ Forall (fun y => entry_id y <> entry_id s0) [s2]
  /\ store e !! entry_id s0 = Some st
  /\ ucount st = 1%nat
  /\ store (pt_image_free (Some img) e) !! entry_id s0 = None.
Proof.
  cbv zeta.
  assert (H1 : img_sections (image_of two_mapped)
               = [entry_n 2 "/s1" 0x2000 true]
                 ++ entry_n 1 "/s0" 0x1000 true
                 :: [entry_n 3 "/s2" 0x3000 false])
    by (vm_compute; reflexivity).
  assert (H2 : Forall (fun y => entry_id y
                                <> entry_id (entry_n 1 "/s0" 0x1000 true))
                 [entry_n 2 "/s1" 0x2000 true])
    by (repeat constructor; intros H; vm_compute in H; discriminate).
  assert (H3 : Forall (fun y => entry_id y
                                <> entry_id (entry_n 1 "/s0" 0x1000 true))
                 [entry_n 3 "/s2" 0x3000 false])
    by (repeat constructor; intros H; vm_compute in H; discriminate).
  assert (H4 : store (snd two_mapped)
               !! entry_id (entry_n 1 "/s0" 0x1000 true)
               = Some {| ucount := 1; mcount := 1 |})
    by (vm_compute; reflexivity).
  assert (H5 : ucount {| ucount := 1; mcount := 1 |} = 1%nat)
    by reflexivity.
  repeat (split; [assumption |]).
  exact (pt_image_free_destroys_last_reference _ _ _ _ _ _ H1 H2 H3 H4 H5).
Defined.

Lemma pt_image_add_file_single_reference_witness :
  let img := image_of two_sections in
  let e := snd two_sections in
  pt_asid_from_user None = (0, asid_any)
  /\ 0x400 <> 0
  /\ alloc_fail e = []
  /\ Forall (fun y => passes (Some asid_any) 0x4000 (u64 (0x4000 + 0x400)) y
                      = true) (img_sections img)
  /\ pt_image_add_file (Some img) (Some "/c"%string) 0 0x400 None 0x4000 e
     = (0,
        Some (set_sections
                (img_sections img
                 ++ [new_entry {| sec_id := next_id e; sec_filename := "/c";
                                  sec_offset := 0; sec_size := 0x400 |}
                       (Some asid_any) 0x4000]) img),
        {| store := <[next_id e := {| ucount := 1; mcount := 0 |}]> (store e);
           next_id := Pos.succ (next_id e); alloc_fail := [];
           map_err := map_err e; unmap_err := unmap_err e;
           file_data := file_data e |}).
Proof.
  cbv zeta.
  assert (H1 : pt_asid_from_user None = (0, asid_any)) by reflexivity.
  assert (H2 : 0x400 <> 0) by lia.
  assert (H3 : alloc_fail (snd two_sections) = []) by reflexivity.
  assert (H4 : Forall (fun y => passes (Some asid_any) 0x4000
                                  (u64 (0x4000 + 0x400)) y = true)
                 (img_sections (image_of two_sections)))
    by (repeat constructor).
  repeat (split; [assumption |]).
  exact (pt_image_add_file_single_reference _ "/c" 0 0x400 None asid_any
           0x4000 _ H1 H2 H3 H4).
Defined.

Lemma pt_image_add_takes_one_reference_witness :
  let img := image_of two_sections in
  let st := {| ucount := 1; mcount := 0 |} in
  let r :=
    pt_image_add (Some img) (Some third_section) (Some asid_any) 0x1400
      third_env in
  store third_env !! sec_id third_section = Some st
  /\ (0 < ucount st)%nat
  /\ (sec_id third_section < next_id third_env)%positive
  /\ Forall (fun y => entry_id y <> sec_id third_section) (img_sections img)
  /\ (fst (fst r) < 0 -> store (snd r) !! sec_id third_section = Some st)
  /\ (store (snd r) !! sec_id third_section = Some st
      \/ store (snd r) !! sec_id third_section
         = Some {| ucount := S (ucount st); mcount := mcount st |}).
Proof.
  cbv zeta.
  assert (H1 : store third_env !! sec_id third_section
               = Some {| ucount := 1; mcount := 0 |})
    by (vm_compute; reflexivity).
  assert (H2 : (0 < ucount {| ucount := 1; mcount := 0 |})%nat)
    by (simpl; lia).
  assert (H3 : (sec_id third_section < next_id third_env)%positive)
    by (vm_compute; reflexivity).
  assert (H4 : Forall (fun y => entry_id y <> sec_id third_section)
                 (img_sections (image_of two_sections)))
    by (repeat constructor; intros H; vm_compute in H; discriminate).
  repeat (split; [assumption |]).
  exact (pt_image_add_takes_one_reference _ _ (Some asid_any) 0x1400 _ _
           H1 H2 H3 H4).
Defined.

Lemma pt_image_add_file_releases_section_witness :
  let img := image_of two_sections in
  let e := set_alloc_fail [false; false; true] (snd two_sections) in
  let r :=
    pt_image_add_file (Some img) (Some "/c"%string) 0 0x400 None 0x1400 e in
  store e !! next_id e = None
  /\ Forall (fun y => entry_id y <> next_id e) (img_sections img)
  /\ (fst (fst r) < 0 -> store (snd r) !! next_id e = None)
  /\ (store (snd r) !! next_id e = None
      \/ (fst (fst r) = 0
          /\ store (snd r) !! next_id e
             = Some {| ucount := 1; mcount := 0 |})).
Proof.
  cbv zeta.
  assert (H1 : store (set_alloc_fail [false; false; true] (snd two_sections))
               !! next_id (set_alloc_fail [false; false; true]
                             (snd two_sections)) = None)
    by (vm_compute; reflexivity).
  assert (H2 : Forall (fun y => entry_id y
                                <> next_id (set_alloc_fail [false; false; true]
                                              (snd two_sections)))
                 (img_sections (image_of two_sections)))
    by (repeat constructor; intros H; vm_compute in H; discriminate).
  repeat (split; [assumption |]).
  exact (pt_image_add_file_releases_section _ "/c" 0 0x400 None 0x1400 _
           H1 H2).
Defined.

Lemma pt_image_alloc_empty_witness :
  let r := pt_image_alloc (Some "img"%string) env_second_fails in
  let img := default image_init (fst r) in
  r = (Some img, snd r)
  /\ (pt_image_name (Some img) = Some "img"%string
      \/ pt_image_name (Some img) = None)
  /\ (alloc_fail env_second_fails = [] ->
      pt_image_name (Some img) = Some "img"%string)
  /\ store (snd r) = store env_second_fails
  /\ pt_image_read (Some img) [0; 0] 2 (Some asid_any) 0x1000 (snd r)
     = (- pte_nomap, Some img, [0; 0], snd r)
  /\ pt_image_free (Some img) (snd r) = snd r.
Proof.
  cbv zeta.
  assert (H1 : pt_image_alloc (Some "img"%string) env_second_fails
               = (Some (default image_init
                          (fst (pt_image_alloc (Some "img"%string)
                                  env_second_fails))),
                  snd (pt_image_alloc (Some "img"%string) env_second_fails)))
    by reflexivity.
  split; [assumption |].
  exact (pt_image_alloc_empty _ _ _ _ [0; 0] 2 asid_any 0x1000 H1).
Defined.

Lemma pt_image_copy_self_unchanged_witness :
  let img := image_of two_sections in
  let e := snd two_sections in
  apart [] (img_sections img)
  /\ Forall in_range (img_sections img)
  /\ Forall (fun x => live e (msec_section (sl_section x))) (img_sections img)
  /\ alloc_fail e = []
  /\ (length (img_sections img) <= 2)%nat
  /\ pt_image_copy 2 (Some img) SrcSame e = CopyReturn 0 (Some img) e.
Proof.
  cbv zeta.
  assert (Hl : img_sections (image_of two_sections)
               = [entry_of (first_section "/a" 0 0x1000) asid_any 0x1000 true;
                  entry_of remove_section asid_any 0x3000 false])
    by (vm_compute; reflexivity).
  assert (H1 : apart [] (img_sections (image_of two_sections))).
  { rewrite Hl. cbn [apart app].
    split; [constructor |]. split; [| exact I].
    constructor; [vm_compute; reflexivity | constructor]. }
  assert (H2 : Forall in_range (img_sections (image_of two_sections))).
  { rewrite Hl. constructor; [| constructor; [| constructor]];
      unfold in_range; cbn; lia. }
  assert (H3 : Forall (fun x => live (snd two_sections)
                                  (msec_section (sl_section x)))
                 (img_sections (image_of two_sections))).
  { rewrite Hl. constructor; [| constructor; [| constructor]].
    - exists {| ucount := 1; mcount := 1 |}.
      split; [vm_compute; reflexivity | cbn; lia].
    - exists {| ucount := 1; mcount := 0 |}.
      split; [vm_compute; reflexivity | cbn; lia]. }
  assert (H4 : alloc_fail (snd two_sections) = []) by reflexivity.
  assert (H5 : (length (img_sections (image_of two_sections)) <= 2)%nat)
    by (rewrite Hl; cbn; lia).
  repeat (split; [assumption |]).
  exact (pt_image_copy_self_unchanged 2 _ _ H1 H2 H3 H4 H5).
Defined.

Lemma pt_image_copy_self_wraps_witness :
  let img := image_of top_page in
  let e := snd top_page in
  let x := entry_of (first_section "/a" 0 0x1000) asid_any 0xfffffffffffff000
             false in
  img_sections img = [x]
  /\ u64 (msec_vaddr (sl_section x)
          + pt_section_size (msec_section (sl_section x)))
     <= u64 (msec_vaddr (sl_section x))
  /\ in_store e x
  /\ alloc_fail e = []
  /\ pt_image_copy 1000 (Some img) SrcSame e = CopyRunning.
Proof.
  cbv zeta.
  assert (H1 : img_sections (image_of top_page)
               = [entry_of (first_section "/a" 0 0x1000) asid_any
                    0xfffffffffffff000 false])
    by (vm_compute; reflexivity).
  assert (H2 : u64 (msec_vaddr
                      (sl_section
                         (entry_of (first_section "/a" 0 0x1000) asid_any
                            0xfffffffffffff000 false))
                    + pt_section_size
                        (msec_section
                           (sl_section
                              (entry_of (first_section "/a" 0 0x1000) asid_any
                                 0xfffffffffffff000 false))))
               <= u64 (msec_vaddr
                         (sl_section
                            (entry_of (first_section "/a" 0 0x1000) asid_any
                               0xfffffffffffff000 false))))
    by (vm_compute; discriminate).
  assert (H3 : in_store (snd top_page)
                 (entry_of (first_section "/a" 0 0x1000) asid_any
                    0xfffffffffffff000 false)).
  { exists {| ucount := 1; mcount := 0 |}. vm_compute. reflexivity. }
  assert (H4 : alloc_fail (snd top_page) = []) by reflexivity.
  split; [assumption |]. split; [assumption |].
  split; [assumption |]. split; [assumption |].
  exact (pt_image_copy_self_wraps 1000 _ _ _ H1 H2 H3 H4).
Defined.

(** The self-copy of the image with the wrapping element comes to an end
    when an allocation fails: here the third add fails with -pte_nomem,
    after two copies have been appended, and [pt_image_copy] returns 1. *)
Lemma pt_image_copy_self_until_nomem :
  match pt_image_copy 10 (fst top_page) SrcSame
          (set_alloc_fail [false; false; true] (snd top_page)) with
  | CopyReturn r image _ =>
      r = 1
      /\ summaries image
         = [("/a"%string, 0, 0x1000, 0xfffffffffffff000, false);
            ("/a"%string, 0, 0x1000, 0xfffffffffffff000, false);
            ("/a"%string, 0, 0x1000, 0xfffffffffffff000, false)]
  | _ => False
  end.
Proof. vm_compute. by split. Qed.
